(** * Janus core: selection, validation and stage propagation

    A shallow embedding of the analysis core of [janus_core.py] (class
    [core]): the spectrum loader's truncation and validity flagging, the
    automatic and manual data selection for the moments analysis, its
    validation routine, the entry conditions of the moments and non-linear
    analyses, and the dynamic-flag bookkeeping.

    Conventions.
    - numpy arrays are lists (nested for 2-D and 3-D arrays); array
      dimensions and counts are [nat]; user-supplied window widths are [Z].
    - Measured currents and speeds are IEEE doubles in the source.  A finite
      double is a rational number, so they are values of [Q], and their
      comparisons are exact.  Sums and products of doubles are rounded: the
      operations are the fields of a record [arith], left open, so that
      what is proved holds for the rounding of the machine.  NaN and
      infinities are left out.  The thermal-speed projection, which needs
      square roots and trigonometric functions, is stated over [R].
    - A Python exception is the result [None] of an [option]-valued
      function. *)

From Stdlib Require Import List ZArith QArith Bool Arith Lia.
From Stdlib Require Import Reals Lra.
Import ListNotations.

Local Open Scope nat_scope.

(** ** Small Python and numpy vocabulary *)

(** Strict comparison of two floats, [x < y]. *)
Definition Qltb (x y : Q) : bool := negb (Qle_bool y x).

(** [x is None]. *)
Definition is_none {A : Type} (o : option A) : bool :=
  match o with
  | Some _ => false
  | None => true
  end.

Definition obind {A B : Type} (o : option A) (f : A -> option B) : option B :=
  match o with
  | Some a => f a
  | None => None
  end.

Notation "x <- c1 ;; c2" := (obind c1 (fun x => c2))
  (at level 61, c1 at next level, right associativity).

(** [[f x for x in l]] where [f] may raise. *)
Fixpoint omap {A B : Type} (f : A -> option B) (l : list A) : option (list B) :=
  match l with
  | [] => Some []
  | a :: l' =>
      b <- f a ;;
      bs <- omap f l' ;;
      Some (b :: bs)
  end.

(** Python indexing of a sequence of length [n] by a possibly negative
    integer: negative indices count from the end, anything else outside
    [-n, n) raises [IndexError]. *)
Definition py_index (n : nat) (i : Z) : option nat :=
  if (0 <=? i)%Z && (i <? Z.of_nat n)%Z then Some (Z.to_nat i)
  else if (- Z.of_nat n <=? i)%Z && (i <? 0)%Z then Some (Z.to_nat (Z.of_nat n + i))
  else None.

Definition py_get {A : Type} (l : list A) (i : Z) : option A :=
  k <- py_index (length l) i ;;
  nth_error l k.

(** [l[i] = x] for an index already normalised by [py_index]. *)
Fixpoint list_set {A : Type} (l : list A) (k : nat) (x : A) : list A :=
  match l, k with
  | [], _ => []
  | _ :: l', O => x :: l'
  | a :: l', S k' => a :: list_set l' k' x
  end.

(** [len( where( mask )[0] )]: the number of [True] entries. *)
Definition count_true (mask : list bool) : nat :=
  length (filter (fun b => b) mask).

(** The exact sum of a list of rationals. *)
Definition Qsum (l : list Q) : Q := fold_right Qplus 0%Q l.

(** The arithmetic of doubles that the modelled code uses: [x + y] and
    [x * y] as the interpreter rounds them, and [sum( a )] as numpy computes
    it for a one-dimensional array (given as the list of its entries, in
    index order). *)
Record arith : Type := mk_arith {
  f_add : Q -> Q -> Q;
  f_mul : Q -> Q -> Q;
  f_sum : list Q -> Q
}.

(** Arithmetic without rounding.  Double precision agrees with it wherever
    every intermediate result is a double, as for sums and products of
    small integers. *)
Definition arith_exact : arith :=
  {| f_add := Qplus; f_mul := Qmult; f_sum := Qsum |}.

(** [a[t,p]] and [a[t,p,v]] where the indices are known to be in range
    (loop variables over the array's own dimensions). *)
Definition grid_get {A : Type} (d : A) (g : list (list A)) (t p : nat) : A :=
  nth p (nth t g []) d.

Definition cube_row {A : Type} (c : list (list (list A))) (t p : nat) : list A :=
  nth p (nth t c []) [].

(** [tile( x, [n1, n2] )] and [tile( x, [n1, n2, n3] )]. *)
Definition tile2 {A : Type} (x : A) (n1 n2 : nat) : list (list A) :=
  repeat (repeat x n2) n1.

Definition tile3 {A : Type} (x : A) (n1 n2 n3 : nat) : list (list (list A)) :=
  repeat (repeat (repeat x n3) n2) n1.

(** An array has the shape [[n1, n2]] or [[n1, n2, n3]]. *)
Definition shape2 {A : Type} (n1 n2 : nat) (g : list (list A)) : Prop :=
  length g = n1 /\ Forall (fun r => length r = n2) g.

Definition shape3 {A : Type} (n1 n2 n3 : nat) (c : list (list (list A))) : Prop :=
  length c = n1 /\ Forall (shape2 n2 n3) c.

(** ** Spectrum loader: truncation at the first decreasing bin centre

    [load_spec], the [while] loop that determines [n_vel].  [fuel] bounds
    the number of iterations; [length c1] iterations always suffice because
    the loop stops as soon as [n_vel] reaches either length. *)

Fixpoint scan_n_vel (fuel : nat) (cup1_c_vel cup2_c_vel : list Q) (n_vel : nat) : nat :=
  match fuel with
  | O => n_vel
  | S fuel' =>
      if (n_vel <? length cup1_c_vel) && (n_vel <? length cup2_c_vel) then
        if Qltb (nth n_vel cup1_c_vel 0%Q) (nth (n_vel - 1) cup1_c_vel 0%Q)
           || Qltb (nth n_vel cup2_c_vel 0%Q) (nth (n_vel - 1) cup2_c_vel 0%Q)
        then n_vel
        else scan_n_vel fuel' cup1_c_vel cup2_c_vel (S n_vel)
      else n_vel
  end.

Definition find_n_vel (cup1_c_vel cup2_c_vel : list Q) : nat :=
  scan_n_vel (length cup1_c_vel) cup1_c_vel cup2_c_vel 1.

(** The raw spectrum after the conversion from voltages to speeds: for each
    of the two cups the bin centres, the bin widths and one row of currents
    per azimuth. *)
Record raw_spec : Type := mk_raw_spec {
  cup1_c_vel : list Q;
  cup1_d_vel : list Q;
  cup1_cur : list (list Q);
  cup2_c_vel : list Q;
  cup2_d_vel : list Q;
  cup2_cur : list (list Q)
}.

(** The arrays stored by the loader once the fill data are cut off:
    [a[0:n_vel]] is [firstn n_vel a]. *)
Record trunc_spec : Type := mk_trunc_spec {
  t_n_vel : nat;
  t_vel_cen : list Q;
  t_vel_wid : list Q;
  t_cur : list (list (list Q))
}.

Definition load_trunc (r : raw_spec) : trunc_spec :=
  let n_vel := find_n_vel (cup1_c_vel r) (cup2_c_vel r) in
  {| t_n_vel := n_vel;
     t_vel_cen := firstn n_vel (cup1_c_vel r);
     t_vel_wid := firstn n_vel (cup1_d_vel r);
     t_cur := [ map (firstn n_vel) (cup1_cur r);
                map (firstn n_vel) (cup2_cur r) ] |}.



(** ** Spectrum loader: validity of each measured current *)

(** The body of the innermost loop of the validity flagging for bin [v] of
    one look direction, whose currents are [row].  The result is the value
    left in [cur_vld[t,p,v]]; indexing follows Python, so [row[v-1]] at
    [v = 0] reads the last bin, and the second operand of [and] is only
    evaluated when the first holds. *)
Definition vld_bin (A : arith) (cur_min cur_jmp : Q) (n_vel : nat) (row : list Q)
  (v : nat) : option bool :=
  let zv := Z.of_nat v in
  c <- py_get row zv ;;
  if Qltb c cur_min then Some false
  else
    let interior :=
      cm <- py_get row (zv - 1)%Z ;;
      if Qltb (f_mul A cur_jmp cm) c then
        cp <- py_get row (zv + 1)%Z ;;
        Some (negb (Qltb (f_mul A cur_jmp cp) c))
      else Some true in
    let last :=
      if (zv =? Z.of_nat n_vel - 1)%Z then
        cm <- py_get row (zv - 1)%Z ;;
        if Qltb (f_mul A cur_jmp cm) c then Some false else interior
      else interior in
    if (zv =? 0)%Z then
      cp <- py_get row (zv + 1)%Z ;;
      if Qltb (f_mul A cur_jmp cp) c then Some false else last
    else last.

(** The whole flagging: the mask starts all [True]; a spectrum with fewer
    than two bins is skipped altogether. *)
Definition load_cur_vld (A : arith) (cur_min cur_jmp : Q) (n_alt n_azm n_vel : nat)
  (cur : list (list (list Q))) : option (list (list (list bool))) :=
  omap (fun t =>
    if n_vel <? 2 then Some (repeat (repeat true n_vel) n_azm)
    else
      omap (fun p =>
        row <- (plane <- nth_error cur t ;; nth_error plane p) ;;
        omap (vld_bin A cur_min cur_jmp n_vel row) (seq 0 n_vel))
        (seq 0 n_azm))
    (seq 0 n_alt).

(** What the specification says makes a bin invalid: a current below the
    floor; a first or last bin above the jump factor times its single
    neighbour; an interior bin above the jump factor times both
    neighbours.  The products are the rounded ones. *)
Definition spec_invalid (A : arith) (cur_min cur_jmp : Q) (row : list Q) (v : nat)
  : bool :=
  let c := nth v row 0%Q in
  let n := length row in
  Qltb c cur_min
  || (if v =? 0 then Qltb (f_mul A cur_jmp (nth 1 row 0%Q)) c
      else if v =? n - 1 then Qltb (f_mul A cur_jmp (nth (v - 1) row 0%Q)) c
      else Qltb (f_mul A cur_jmp (nth (v - 1) row 0%Q)) c
           && Qltb (f_mul A cur_jmp (nth (v + 1) row 0%Q)) c).

(** ** State of the core object

    The attributes of [core] are grouped as [rset_var] groups them, one
    record per keyword of [rset_var]; attributes that none of the modelled
    functions reads or writes (time strings, angles, magnetic-field arrays,
    guess settings) are left out. *)

(** [var_swe]: the loaded spectrum.  [cur] and [cur_vld] are [None] in the
    source until a spectrum is loaded; they are never indexed while
    [n_alt = 0], and are the empty array here. *)
Record swe_t : Type := mk_swe {
  time_epc : option Z;
  n_alt : nat;
  n_azm : nat;
  n_vel : nat;
  cur : list (list (list Q));
  cur_vld : list (list (list bool));
  cur_jmp : Q;
  cur_min : Q
}.

(** [var_mom_win]: requested and effective widths of the selection
    windows. *)
Record mom_win_t : Type := mk_mom_win {
  mom_win_azm_req : option Z;
  mom_win_cur_req : option Z;
  mom_win_azm : Z;
  mom_win_cur : Z
}.

(** [var_mom_sel]: the data selection for the moments analysis. *)
Record mom_sel_t : Type := mk_mom_sel {
  mom_n_sel_azm : nat;
  mom_n_sel_cur : option (list (list nat));
  mom_min_sel_azm : nat;
  mom_min_sel_cur : nat;
  mom_sel_azm : option (list (list bool));
  mom_sel_cur : option (list (list (list bool)))
}.

(** [var_mom_res]: the results of the moments analysis. *)
Record mom_res_t : Type := mk_mom_res {
  mom_n_eta : nat;
  mom_eta_ind_t : option (list nat);
  mom_eta_ind_p : option (list nat);
  mom_eta_n : option (list Q);
  mom_eta_v : option (list Q);
  mom_eta_w : option (list Q);
  mom_eta_t : option (list Q);
  mom_corr_pears : option Q;
  mom_corr_spear : option Q;
  mom_n : option Q;
  mom_v : option Q;
  mom_w : option Q;
  mom_t : option Q;
  mom_r : option Q;
  mom_v_vec : option (list Q);
  mom_w_per : option Q;
  mom_w_par : option Q;
  mom_t_per : option Q;
  mom_t_par : option Q;
  mom_cur : option (list (list (list Q)))
}.

(** [var_nln_gss], as far as the fit reads it: the populations to fit and
    the guess vector. *)
Record nln_gss_t : Type := mk_nln_gss {
  nln_gss_pop : list nat;
  nln_gss_prm : list Q
}.

(** [var_nln_sel]: the data selection for the non-linear analysis. *)
Record nln_sel_t : Type := mk_nln_sel {
  nln_sel : option (list (list (list bool)));
  nln_n_sel : nat;
  nln_min_sel : nat
}.

(** What [curve_fit] returns, with the uncertainties derived from it. *)
Record fit_t : Type := mk_fit {
  fit_prm : list Q;
  fit_covar : list (list Q);
  fit_sigma : list Q
}.

(** The result object [nln_res_plas]: either the fresh [plas( enforce=False )]
    or that object filled in from the spectrum's time stamp and a fit.  Its
    layout belongs to [janus_pyon]. *)
Inductive plas : Type :=
  | plas_new
  | plas_fit (time : option Z) (f : fit_t).

(** [var_nln_res]: the results of the non-linear analysis. *)
Record nln_res_t : Type := mk_nln_res {
  nln_res_plas : plas;
  nln_res_sel : option (list (list (list bool)));
  nln_res_cur_tot : option (list (list (list Q)));
  nln_res_cur_ion : option (list (list (list (list Q))))
}.

(** [var_dsp]: ['mom'], ['gsl'] or ['nln']; the attribute [dsp] may also be
    [None]. *)
Inductive dsp_t : Type := dsp_mom | dsp_gsl | dsp_nln.

(** [var_dyn]: the dynamic flags. *)
Record dyn_t : Type := mk_dyn {
  dyn_mom : bool;
  dyn_gss : bool;
  dyn_sel : bool;
  dyn_nln : bool
}.

(** The signals emitted by the modelled functions.  [janus_mesg] always has
    the source ['core']; its type and object are kept. *)
Inductive mesg_typ : Type := m_begin | m_end | m_fail | m_norun.
Inductive mesg_obj : Type := o_mom | o_nln.

Inductive signal : Type :=
  | janus_mesg (typ : mesg_typ) (obj : mesg_obj)
  | janus_chng_mom_sel_cur (t p v : Z)
  | janus_chng_mom_sel_azm (t p : nat)
  | janus_chng_mom_sel_all
  | janus_chng_mom_res
  | janus_chng_nln_gss
  | janus_chng_nln_sel_cur (t p v : Z)
  | janus_chng_nln_sel_all
  | janus_chng_nln_res
  | janus_chng_dsp
  | janus_chng_dyn.

Record core : Type := mk_core {
  swe : swe_t;
  n_mfi : nat;
  win : mom_win_t;
  sel : mom_sel_t;
  mom : mom_res_t;
  gss : nln_gss_t;
  nsel : nln_sel_t;
  nres : nln_res_t;
  dsp : option dsp_t;
  dyn : dyn_t;
  series : list plas;
  signals : list signal
}.

Definition with_win (s : core) (x : mom_win_t) : core :=
  mk_core (swe s) (n_mfi s) x (sel s) (mom s) (gss s) (nsel s) (nres s)
          (dsp s) (dyn s) (series s) (signals s).

Definition with_sel (s : core) (x : mom_sel_t) : core :=
  mk_core (swe s) (n_mfi s) (win s) x (mom s) (gss s) (nsel s) (nres s)
          (dsp s) (dyn s) (series s) (signals s).

Definition with_mom (s : core) (x : mom_res_t) : core :=
  mk_core (swe s) (n_mfi s) (win s) (sel s) x (gss s) (nsel s) (nres s)
          (dsp s) (dyn s) (series s) (signals s).

Definition with_nsel (s : core) (x : nln_sel_t) : core :=
  mk_core (swe s) (n_mfi s) (win s) (sel s) (mom s) (gss s) x (nres s)
          (dsp s) (dyn s) (series s) (signals s).

Definition with_nres (s : core) (x : nln_res_t) : core :=
  mk_core (swe s) (n_mfi s) (win s) (sel s) (mom s) (gss s) (nsel s) x
          (dsp s) (dyn s) (series s) (signals s).

Definition with_dsp (s : core) (x : option dsp_t) : core :=
  mk_core (swe s) (n_mfi s) (win s) (sel s) (mom s) (gss s) (nsel s) (nres s)
          x (dyn s) (series s) (signals s).

Definition with_dyn (s : core) (x : dyn_t) : core :=
  mk_core (swe s) (n_mfi s) (win s) (sel s) (mom s) (gss s) (nsel s) (nres s)
          (dsp s) x (series s) (signals s).

Definition with_series (s : core) (x : list plas) : core :=
  mk_core (swe s) (n_mfi s) (win s) (sel s) (mom s) (gss s) (nsel s) (nres s)
          (dsp s) (dyn s) x (signals s).

(** [self.emit( SIGNAL(...) )]: the signal is appended to the log. *)
Definition emit (sg : signal) (s : core) : core :=
  mk_core (swe s) (n_mfi s) (win s) (sel s) (mom s) (gss s) (nsel s) (nres s)
          (dsp s) (dyn s) (series s) (signals s ++ [sg]).

(** ** [rset_var]: the values of freshly reset groups *)

Definition mom_win_reset : mom_win_t :=
  {| mom_win_azm_req := Some 7%Z; mom_win_cur_req := Some 7%Z;
     mom_win_azm := 7%Z; mom_win_cur := 7%Z |}.

Definition mom_sel_reset : mom_sel_t :=
  {| mom_n_sel_azm := 0; mom_n_sel_cur := None;
     mom_min_sel_azm := 5; mom_min_sel_cur := 3;
     mom_sel_azm := None; mom_sel_cur := None |}.

Definition mom_res_reset : mom_res_t :=
  {| mom_n_eta := 0;
     mom_eta_ind_t := None; mom_eta_ind_p := None;
     mom_eta_n := None; mom_eta_v := None; mom_eta_w := None; mom_eta_t := None;
     mom_corr_pears := None; mom_corr_spear := None;
     mom_n := None; mom_v := None; mom_w := None; mom_t := None; mom_r := None;
     mom_v_vec := None;
     mom_w_per := None; mom_w_par := None; mom_t_per := None; mom_t_par := None;
     mom_cur := None |}.

Definition nln_sel_reset : nln_sel_t :=
  {| nln_sel := None; nln_n_sel := 0; nln_min_sel := 30 |}.

Definition nln_res_reset : nln_res_t :=
  {| nln_res_plas := plas_new; nln_res_sel := None;
     nln_res_cur_tot := None; nln_res_cur_ion := None |}.

Definition dyn_reset : dyn_t :=
  {| dyn_mom := true; dyn_gss := true; dyn_sel := true; dyn_nln := false |}.

(** [rset_var( var_mom_res=True )], [rset_var( var_nln_sel=True )] and
    [rset_var( var_nln_res=True )]. *)
Definition rset_var_mom_res (s : core) : core := with_mom s mom_res_reset.
Definition rset_var_nln_sel (s : core) : core := with_nsel s nln_sel_reset.
Definition rset_var_nln_res (s : core) : core := with_nres s nln_res_reset.

(** ** Automatic selection of look directions, [auto_mom_sel_azm] *)

(** The larger of two floats as Python's [max] keeps it: the running value
    is replaced only by a strictly larger one. *)
Definition Qmaxb (x y : Q) : Q := if Qltb x y then y else x.

(** [max( a )] and [amax( a )]; both raise on an empty array. *)
Definition py_max (l : list Q) : option Q :=
  match l with
  | [] => None
  | x :: l' => Some (fold_left Qmaxb l' x)
  end.

(** [a[ where( mask )[0] ]], for [a] and [mask] of one length. *)
Definition take_where (a : list Q) (mask : list bool) : list Q :=
  map fst (filter snd (combine a mask)).

(** [where( cond )[0][0]]: the first index that satisfies [cond]. *)
Fixpoint first_index (cond : Q -> bool) (l : list Q) : option nat :=
  match l with
  | [] => None
  | x :: l' => if cond x then Some 0 else option_map S (first_index cond l')
  end.

(** [max_cur[t,p]]: the largest valid current of one look direction, or
    zero when it has no valid current. *)
Definition max_cur_dir (row : list Q) (vld : list bool) : Q :=
  match py_max (take_where row vld) with
  | Some m => m
  | None => 0%Q
  end.

(** [mm_cur[t,p]]: the sum of [max_cur] over the circular window of
    [win_azm] directions that starts at [p], accumulated with [+=] from
    zero. *)
Definition mm_cur_dir (A : arith) (max_row : list Q) (n_azm : nat) (win_azm : Z)
  (p : nat) : Q :=
  fold_left (fun acc w => f_add A acc (nth ((p + w) mod n_azm) max_row 0%Q))
            (seq 0 (Z.to_nat win_azm)) 0%Q.

(** One row of [mom_sel_azm]: the window that starts at the first maximum
    of [mm_cur[t,:]], wrapping around. *)
Definition sel_azm_row (A : arith) (s : swe_t) (win_azm : Z) (t : nat)
  : option (list bool) :=
  let max_row :=
    map (fun p => max_cur_dir (cube_row (cur s) t p) (cube_row (cur_vld s) t p))
        (seq 0 (n_azm s)) in
  let mm_row := map (mm_cur_dir A max_row (n_azm s) win_azm) (seq 0 (n_azm s)) in
  m <- py_max mm_row ;;
  p0 <- first_index (fun x => Qeq_bool x m) mm_row ;;
  Some (fold_left (fun row p => list_set row (p mod n_azm s) true)
                  (seq p0 (Z.to_nat win_azm)) (repeat false (n_azm s))).

(** [len( where( mask )[0] )] for a 2-D and a 3-D mask. *)
Definition count_true2 (g : list (list bool)) : nat := count_true (concat g).
Definition count_true3 (c : list (list (list bool))) : nat :=
  count_true (concat (concat c)).

Definition auto_mom_sel_azm (A : arith) (s : core) : option core :=
  rows <- omap (sel_azm_row A (swe s) (mom_win_azm (win s))) (seq 0 (n_alt (swe s))) ;;
  Some (with_sel s
    {| mom_n_sel_azm := count_true2 rows;
       mom_n_sel_cur := mom_n_sel_cur (sel s);
       mom_min_sel_azm := mom_min_sel_azm (sel s);
       mom_min_sel_cur := mom_min_sel_cur (sel s);
       mom_sel_azm := Some rows;
       mom_sel_cur := mom_sel_cur (sel s) |}).

(** ** Automatic selection of bins, [auto_mom_sel_cur] *)

(** [cur_v]: the sum of the valid currents of the window of [win_cur] bins
    that starts at [v].  In the source [tk] is the tuple returned by
    [where], whose length is always one, so the sum is taken even over an
    empty selection, where it is zero. *)
Definition window_sum (A : arith) (row : list Q) (vld : list bool) (n_vel : nat)
  (win_cur : Z) (v : nat) : Q :=
  f_sum A (map (fun i => nth i row 0%Q)
            (filter (fun i => (v <=? i)
                              && (Z.of_nat i <? Z.of_nat v + win_cur)%Z
                              && nth i vld false)
                    (seq 0 n_vel))).

(** One step of the search: the running pair [(v_0, cur_0)] is replaced
    when window [v] sums to strictly more. *)
Definition window_step (A : arith) (row : list Q) (vld : list bool) (n_vel : nat)
  (win_cur : Z) (acc : nat * Q) (v : nat) : nat * Q :=
  let cur_v := window_sum A row vld n_vel win_cur v in
  if Qltb (snd acc) cur_v then (v, cur_v) else acc.

(** The candidate starts are [range( n_vel - win_cur )]. *)
Definition window_starts (n_vel : nat) (win_cur : Z) : list nat :=
  seq 0 (Z.to_nat (Z.of_nat n_vel - win_cur)).

(** [v_0] after the loop, starting from [v_0 = 0] and [cur_0 = 0.]. *)
Definition pick_window (A : arith) (row : list Q) (vld : list bool) (n_vel : nat)
  (win_cur : Z) : nat :=
  fst (fold_left (window_step A row vld n_vel win_cur)
                 (window_starts n_vel win_cur) (0, 0%Q)).

(** The end of the slice [start:stop] of a sequence of length [n]. *)
Definition slice_stop (n : nat) (stop : Z) : nat :=
  if (stop <? 0)%Z then Z.to_nat (Z.max 0 (Z.of_nat n + stop))
  else Nat.min (Z.to_nat stop) n.

(** [row[start:stop] = True]. *)
Definition set_slice_true (row : list bool) (start : nat) (stop : Z) : list bool :=
  map (fun ib => if (start <=? fst ib) && (fst ib <? slice_stop (length row) stop)
                 then true else snd ib)
      (combine (seq 0 (length row)) row).

(** One row [mom_sel_cur[t,p,:]]. *)
Definition sel_cur_row (A : arith) (s : swe_t) (win_cur : Z) (azm : list (list bool))
  (t p : nat) : list bool :=
  if grid_get false azm t p then
    let v_0 := pick_window A (cube_row (cur s) t p) (cube_row (cur_vld s) t p)
                           (n_vel s) win_cur in
    set_slice_true (repeat false (n_vel s)) v_0 (Z.of_nat v_0 + win_cur)
  else repeat false (n_vel s).

(** [[[ len( where( c[t,p,:] )[0] ) for p in range(n_azm) ]
      for t in range(n_alt) ]]. *)
Definition count_grid (n_alt n_azm : nat) (c : list (list (list bool)))
  : list (list nat) :=
  map (fun t => map (fun p => count_true (cube_row c t p)) (seq 0 n_azm))
      (seq 0 n_alt).

(** [auto_mom_sel_cur] is only called right after [auto_mom_sel_azm], which
    has stored [mom_sel_azm]. *)
Definition auto_mom_sel_cur (A : arith) (s : core) : option core :=
  azm <- mom_sel_azm (sel s) ;;
  let c := map (fun t => map (sel_cur_row A (swe s) (mom_win_cur (win s)) azm t)
                             (seq 0 (n_azm (swe s))))
               (seq 0 (n_alt (swe s))) in
  Some (with_sel s
    {| mom_n_sel_azm := mom_n_sel_azm (sel s);
       mom_n_sel_cur := Some (count_grid (n_alt (swe s)) (n_azm (swe s)) c);
       mom_min_sel_azm := mom_min_sel_azm (sel s);
       mom_min_sel_cur := mom_min_sel_cur (sel s);
       mom_sel_azm := Some azm;
       mom_sel_cur := Some c |}).

(** ** Validation of the selection, [vldt_mom_sel] *)

(** [where( a != b )] for two masks of shape [[n_alt, n_azm]], in row-major
    order. *)
Definition where_differ (n_alt n_azm : nat) (a b : list (list bool))
  : list (nat * nat) :=
  flat_map (fun t =>
    flat_map (fun p => if xorb (grid_get false a t p) (grid_get false b t p)
                       then [(t, p)] else [])
             (seq 0 n_azm))
    (seq 0 n_alt).

(** Both selection arrays exist whenever the source calls [vldt_mom_sel];
    without them the call fails. *)
Definition vldt_mom_sel (s : core) : option core :=
  old_mom_sel_azm <- mom_sel_azm (sel s) ;;
  c <- mom_sel_cur (sel s) ;;
  let n_alt := n_alt (swe s) in
  let n_azm := n_azm (swe s) in
  let n_cur := count_grid n_alt n_azm c in
  let azm := map (fun t => map (fun p => mom_min_sel_cur (sel s) <=? grid_get 0 n_cur t p)
                               (seq 0 n_azm))
                 (seq 0 n_alt) in
  let n := count_true2 azm in
  let below := n <? mom_min_sel_azm (sel s) in
  let azm' := if below then tile2 false n_alt n_azm else azm in
  let s' := with_sel s
    {| mom_n_sel_azm := if below then 0 else n;
       mom_n_sel_cur := Some n_cur;
       mom_min_sel_azm := mom_min_sel_azm (sel s);
       mom_min_sel_cur := mom_min_sel_cur (sel s);
       mom_sel_azm := Some azm';
       mom_sel_cur := Some c |} in
  Some (fold_left (fun st tp => emit (janus_chng_mom_sel_azm (fst tp) (snd tp)) st)
                  (where_differ n_alt n_azm azm' old_mom_sel_azm) s').

(** ** Displayed analysis and dynamic flags *)

Definition dsp_eqb (a b : dsp_t) : bool :=
  match a, b with
  | dsp_mom, dsp_mom | dsp_gsl, dsp_gsl | dsp_nln, dsp_nln => true
  | _, _ => false
  end.

(** [chng_dsp( value )] for one of the three valid settings, as every call
    inside the class passes it. *)
Definition chng_dsp (value : dsp_t) (s : core) : core :=
  match dsp s with
  | Some d => if dsp_eqb d value then s
              else emit janus_chng_dsp (with_dsp s (Some value))
  | None => emit janus_chng_dsp (with_dsp s (Some value))
  end.

Inductive anal_t : Type := a_mom | a_gss | a_sel | a_nln.

(** [chng_dyn( anal, value, rerun=False )], the only way the modelled
    functions call it: the flag is stored and [janus_chng_dyn] emitted when
    the value changes, and nothing is re-run. *)
Definition chng_dyn (anal : anal_t) (value : bool) (s : core) : core :=
  let d := dyn s in
  match anal with
  | a_mom =>
      if eqb (dyn_mom d) value then s
      else emit janus_chng_dyn
             (with_dyn s (mk_dyn value (dyn_gss d) (dyn_sel d) (dyn_nln d)))
  | a_gss =>
      if eqb (dyn_gss d) value then s
      else emit janus_chng_dyn
             (with_dyn s (mk_dyn (dyn_mom d) value (dyn_sel d) (dyn_nln d)))
  | a_sel =>
      if eqb (dyn_sel d) value then s
      else emit janus_chng_dyn
             (with_dyn s (mk_dyn (dyn_mom d) (dyn_gss d) value (dyn_nln d)))
  | a_nln =>
      if eqb (dyn_nln d) value then s
      else emit janus_chng_dyn
             (with_dyn s (mk_dyn (dyn_mom d) (dyn_gss d) (dyn_sel d) value))
  end.

(** ** Numerical collaborators

    The closed-form moments inversion ([lstsq], [polyfit], the forward
    model), scipy's [curve_fit], the forward model of the fit and the guess
    stage built on [janus_pyon] are not embedded; they enter as functions of
    the state.  A result [None] is a raised exception. *)

(** Everything [auto_nln_gss] and the functions it calls ([make_nln_gss],
    [prop_nln_gss], [auto_nln_sel], [prop_nln_sel], [anls_nln], [chng_dsp],
    and [chng_dyn] for ['gss'] and ['sel'] without rerun) assign: the guess,
    the fit selection, the fit results, the results log, the displayed
    analysis, the flags [dyn_gss] and [dyn_sel], and the signals they emit.
    None of them assigns the spectrum, the moments selection, the moments
    results, [dyn_mom] or [dyn_nln]. *)
Record downstream : Type := mk_downstream {
  d_dyn_gss : bool;
  d_dyn_sel : bool;
  d_dsp : option dsp_t;
  d_gss : nln_gss_t;
  d_nsel : nln_sel_t;
  d_nres : nln_res_t;
  d_series : list plas;
  d_signals : list signal
}.

Record numerics : Type := mk_numerics {
  (** the arithmetic of doubles *)
  fl : arith;
  (** the values [anls_mom] stores once its computation is through *)
  mom_calc : core -> option mom_res_t;
  (** the [try] block of [anls_nln]: [curve_fit] and the square root of the
      covariance diagonal *)
  curve_fit : core -> option fit_t;
  (** [calc_nln_cur( pop, x, fit, ret_comp=True )] reshaped to
      [[n_alt, n_azm, n_vel, len( pop )]] *)
  calc_nln_cur : core -> fit_t -> option (list (list (list (list Q))));
  (** the effect of [auto_nln_gss] *)
  nln_chain : core -> option downstream
}.

Definition apply_downstream (s : core) (d : downstream) : core :=
  mk_core (swe s) (n_mfi s) (win s) (sel s) (mom s)
          (d_gss d) (d_nsel d) (d_nres d) (d_dsp d)
          (mk_dyn (dyn_mom (dyn s)) (d_dyn_gss d) (d_dyn_sel d) (dyn_nln (dyn s)))
          (d_series d) (signals s ++ d_signals d).

(** A window-width keyword of [auto_mom_sel]: absent ([None]), a value that
    [int] rejects, or a value that [int] accepts. *)
Inductive win_arg : Type :=
  | w_none
  | w_bad
  | w_int (z : Z).

Definition win_req (a : win_arg) (req : option Z) : option Z :=
  match a with
  | w_none => req
  | w_bad => None
  | w_int z => Some z
  end.

Definition win_eff (req : option Z) (w : Z) : Z :=
  match req with
  | Some z => z
  | None => w
  end.

(** The clamping of a window width: [min( max( w, lo ), hi )]. *)
Definition win_clamp (w : Z) (lo hi : nat) : Z :=
  Z.min (Z.max w (Z.of_nat lo)) (Z.of_nat hi).

(** [auto_mom_sel] up to and including the validation, that is, the call
    with [no_anls_mom=True]. *)
Definition auto_mom_sel_body (A : arith) (win_azm win_cur : win_arg) (s0 : core)
  : option core :=
  let s := rset_var_nln_sel s0 in
  let req_azm := win_req win_azm (mom_win_azm_req (win s)) in
  let req_cur := win_req win_cur (mom_win_cur_req (win s)) in
  let s := with_win s
    {| mom_win_azm_req := req_azm;
       mom_win_cur_req := req_cur;
       mom_win_azm := win_clamp (win_eff req_azm (mom_win_azm (win s)))
                                (mom_min_sel_azm (sel s)) (n_azm (swe s));
       mom_win_cur := win_clamp (win_eff req_cur (mom_win_cur (win s)))
                                (mom_min_sel_cur (sel s)) (n_vel (swe s)) |} in
  s <- auto_mom_sel_azm A s ;;
  s <- auto_mom_sel_cur A s ;;
  vldt_mom_sel (emit janus_chng_mom_sel_all s).

(** [a[t,p,v] = not a[t,p,v]] with Python indexing on each axis. *)
Definition cube_toggle (c : list (list (list bool))) (t p v : Z)
  : option (list (list (list bool))) :=
  it <- py_index (length c) t ;;
  plane <- nth_error c it ;;
  ip <- py_index (length plane) p ;;
  row <- nth_error plane ip ;;
  iv <- py_index (length row) v ;;
  b <- nth_error row iv ;;
  Some (list_set c it (list_set plane ip (list_set row iv (negb b)))).

(** The first steps of [anls_mom]: the results are reset and, if the
    selection arrays have not been populated, the automatic selection is
    run. *)
Definition anls_mom_sel (A : arith) (s0 : core) : option core :=
  let s := rset_var_mom_res s0 in
  match mom_sel_azm (sel s), mom_sel_cur (sel s) with
  | Some _, Some _ => Some s
  | _, _ => auto_mom_sel_body A w_none w_none s
  end.

(** The conditions under which [anls_mom] does not run. *)
Definition anls_mom_norun (s : core) : bool :=
  is_none (time_epc (swe s))
  || (n_vel (swe s) =? 0)
  || (mom_n_sel_azm (sel s) <? mom_min_sel_azm (sel s)).

(** The conditions under which [anls_nln] does not run. *)
Definition anls_nln_norun (s : core) : bool :=
  (n_vel (swe s) =? 0) || (n_mfi s =? 0)
  || (length (nln_gss_pop (gss s)) =? 0)
  || negb (existsb (Nat.eqb 0) (nln_gss_pop (gss s)))
  || (length (nln_gss_prm (gss s)) =? 0)
  || (nln_n_sel (nsel s) <? nln_min_sel (nsel s)).

(** The state of [anls_nln] on entry to its [try] block: the start has been
    announced and the selection [c] saved as [nln_res_sel]. *)
Definition anls_nln_setup (s : core) (c : list (list (list bool))) : core :=
  with_nres (emit (janus_mesg m_begin o_nln) s)
    {| nln_res_plas := nln_res_plas (nres s);
       nln_res_sel := Some c;
       nln_res_cur_tot := nln_res_cur_tot (nres s);
       nln_res_cur_ion := nln_res_cur_ion (nres s) |}.

Section Analyses.

Variable N : numerics.

(** *** The moments analysis, [anls_mom] *)

Definition anls_mom (s0 : core) : option core :=
  s <- anls_mom_sel (fl N) s0 ;;
  if anls_mom_norun s
  then Some (emit janus_chng_mom_res (emit (janus_mesg m_norun o_mom) s))
  else
    let s := emit (janus_mesg m_begin o_mom) s in
    r <- mom_calc N s ;;
    let s := emit janus_chng_mom_res
               (emit (janus_mesg m_end o_mom) (with_mom s r)) in
    if dyn_gss (dyn s) then option_map (apply_downstream s) (nln_chain N s)
    else Some (chng_dsp dsp_mom s).

(** [auto_mom_sel( win_azm, win_cur, no_anls_mom )]. *)
Definition auto_mom_sel (win_azm win_cur : win_arg) (no_anls_mom : bool)
  (s : core) : option core :=
  s <- auto_mom_sel_body (fl N) win_azm win_cur s ;;
  if no_anls_mom then Some s else anls_mom s.

(** *** Manual toggle of one bin of the moments selection, [chng_mom_sel] *)

Definition chng_mom_sel (t p v : Z) (s : core) : option core :=
  c <- mom_sel_cur (sel s) ;;
  c' <- cube_toggle c t p v ;;
  let s := with_sel s
    {| mom_n_sel_azm := mom_n_sel_azm (sel s);
       mom_n_sel_cur := mom_n_sel_cur (sel s);
       mom_min_sel_azm := mom_min_sel_azm (sel s);
       mom_min_sel_cur := mom_min_sel_cur (sel s);
       mom_sel_azm := mom_sel_azm (sel s);
       mom_sel_cur := Some c' |} in
  s <- vldt_mom_sel (emit (janus_chng_mom_sel_cur t p v) s) ;;
  anls_mom (chng_dyn a_mom true s).

(** *** The non-linear analysis, [anls_nln] *)

Definition anls_nln (s0 : core) : option core :=
  let s := rset_var_nln_res s0 in
  if anls_nln_norun s
  then Some (emit janus_chng_nln_res (emit (janus_mesg m_norun o_nln) s))
  else
    c <- nln_sel (nsel s) ;;
    let s := anls_nln_setup s c in
    match curve_fit N s with
    | None =>
        Some (emit janus_chng_nln_res
                (rset_var_nln_res (emit (janus_mesg m_fail o_nln) s)))
    | Some f =>
        ion <- calc_nln_cur N s f ;;
        let res := plas_fit (time_epc (swe s)) f in
        let s := with_nres s
          {| nln_res_plas := res;
             nln_res_sel := Some c;
             nln_res_cur_tot := Some (map (map (map (f_sum (fl N)))) ion);
             nln_res_cur_ion := Some ion |} in
        let s := with_series s (series s ++ [res]) in
        Some (emit janus_chng_nln_res (emit (janus_mesg m_end o_nln) s))
    end.

(** *** Propagation and manual toggle of the fit selection *)

(** [prop_nln_sel( pnt )]; [pnt] is [None] or the toggled point.
    [where( None )] selects nothing. *)
Definition prop_nln_sel (pnt : option (Z * Z * Z)) (s : core) : option core :=
  let s := with_nsel s
    {| nln_sel := nln_sel (nsel s);
       nln_n_sel := match nln_sel (nsel s) with
                    | Some c => count_true3 c
                    | None => 0
                    end;
       nln_min_sel := nln_min_sel (nsel s) |} in
  let s := match pnt with
           | None => emit janus_chng_nln_sel_all s
           | Some (t, p, v) => emit (janus_chng_nln_sel_cur t p v) s
           end in
  if dyn_nln (dyn s) then anls_nln s else Some (chng_dsp dsp_gsl s).

Definition chng_nln_sel (t p v : Z) (s0 : core) : option core :=
  let s := chng_dyn a_sel false s0 in
  let c := match nln_sel (nsel s) with
           | Some c => c
           | None => tile3 false (n_alt (swe s)) (n_azm (swe s)) (n_vel (swe s))
           end in
  c' <- cube_toggle c t p v ;;
  prop_nln_sel (Some (t, p, v))
    (with_nsel s {| nln_sel := Some c';
                    nln_n_sel := nln_n_sel (nsel s);
                    nln_min_sel := nln_min_sel (nsel s) |}).

End Analyses.

(** ** Effective thermal speed along a look direction

    Both the forward model and the fit selection reduce the two thermal
    speeds of an anisotropic population to one speed along the look
    direction [dlk], from the unit vector [dmg] of the magnetic field. *)

Definition vec3 : Type := (R * R * R)%type.

(** [dot( a, b )] for two 3-vectors. *)
Definition dot3 (a b : vec3) : R :=
  let '(ax, ay, az) := a in
  let '(bx, by_, bz) := b in
  (ax * bx + ay * by_ + az * bz)%R.

(** [deg2rad( x )]. *)
Definition deg2rad (x : R) : R := (x * PI / 180)%R.

(** [calc_dir_look( alt, azm )] for one look direction: the Cartesian unit
    vector of colatitude [90 - alt] and longitude [- azm]. *)
Definition calc_dir_look (alt azm : R) : vec3 :=
  let the := (- alt + 90)%R in
  let phi := (- azm)%R in
  ((sin (deg2rad the) * cos (deg2rad phi))%R,
   (sin (deg2rad the) * sin (deg2rad phi))%R,
   cos (deg2rad the)).

(** [calc_cur_bmx]: [prm_w], from [dmg_dlk = dot( dmg, dlk )]. *)
Definition calc_cur_bmx_w (dmg dlk : vec3) (prm_w_per prm_w_par : R) : R :=
  let dmg_dlk := dot3 dmg dlk in
  sqrt ((1 - dmg_dlk ^ 2) * prm_w_per ^ 2 + dmg_dlk ^ 2 * prm_w_par ^ 2)%R.

(** [auto_nln_sel]: [w] for an anisotropic population, from
    [ang = abs( dot( dlk, mfi_avg_nrm ) )]. *)
Definition auto_nln_sel_w (dlk mfi_avg_nrm : vec3) (w_per w_par : R) : R :=
  let ang := Rabs (dot3 dlk mfi_avg_nrm) in
  sqrt ((w_per * sin ang) ^ 2 + (w_par * cos ang) ^ 2)%R.


(** ** Consistency of the moments selection *)

(** The number of look directions whose count of selected bins reaches
    [min_sel_cur]. *)
Definition n_qualifying (n_alt n_azm min_sel_cur : nat) (n_cur : list (list nat)) : nat :=
  length (filter (fun tp => min_sel_cur <=? grid_get 0 n_cur (fst tp) (snd tp))
                 (list_prod (seq 0 n_alt) (seq 0 n_azm))).

(** The two selection arrays and the two counters agree: the counter of
    each look direction is its number of selected bins; a look direction is
    used only if that number reaches [mom_min_sel_cur]; and when fewer than
    [mom_min_sel_azm] look directions reach it, none is used and
    [mom_n_sel_azm] is zero. *)
Definition mom_sel_consistent (n_alt n_azm : nat) (m : mom_sel_t) : Prop :=
  exists azm c n_cur,
    mom_sel_azm m = Some azm /\
    mom_sel_cur m = Some c /\
    mom_n_sel_cur m = Some n_cur /\
    (forall t p, t < n_alt -> p < n_azm ->
       grid_get 0 n_cur t p = count_true (cube_row c t p)) /\
    (forall t p, t < n_alt -> p < n_azm ->
       grid_get false azm t p = true ->
       mom_min_sel_cur m <= grid_get 0 n_cur t p) /\
    (n_qualifying n_alt n_azm (mom_min_sel_cur m) n_cur < mom_min_sel_azm m ->
       azm = tile2 false n_alt n_azm /\ mom_n_sel_azm m = 0).

(** ** The loader's stored spectrum and sample data *)

Definition with_swe (s : core) (x : swe_t) : core :=
  mk_core x (n_mfi s) (win s) (sel s) (mom s) (gss s) (nsel s) (nres s)
          (dsp s) (dyn s) (series s) (signals s).

(** [rset_var( var_swe=True )], as far as modelled. *)
Definition swe_reset : swe_t :=
  {| time_epc := None; n_alt := 0; n_azm := 0; n_vel := 0;
     cur := []; cur_vld := []; cur_jmp := 100; cur_min := 1 |}.

(** The state that [init_var] leaves. *)
Definition core_init : core :=
  {| swe := swe_reset; n_mfi := 0; win := mom_win_reset; sel := mom_sel_reset;
     mom := mom_res_reset; gss := mk_nln_gss [] []; nsel := nln_sel_reset;
     nres := nln_res_reset; dsp := Some dsp_mom; dyn := dyn_reset;
     series := []; signals := [] |}.

(** The spectrum group as [load_spec] stores it for a spectrum found at
    [time]: two altitudes, twenty azimuths, the truncated arrays and the
    validity mask computed with the reset floor and jump factor. *)
Definition load_swe (time : Z) (r : raw_spec) : option swe_t :=
  let tr := load_trunc r in
  vld <- load_cur_vld arith_exact (cur_min swe_reset) (cur_jmp swe_reset) 2 20 (t_n_vel tr) (t_cur tr) ;;
  Some {| time_epc := Some time; n_alt := 2; n_azm := 20; n_vel := t_n_vel tr;
          cur := t_cur tr; cur_vld := vld;
          cur_jmp := cur_jmp swe_reset; cur_min := cur_min swe_reset |}.

(** A raw spectrum in which every look direction of both cups measures the
    same row of currents. *)
Definition raw_uniform (c_vel row : list Q) : raw_spec :=
  {| cup1_c_vel := c_vel; cup1_d_vel := repeat 1%Q (length c_vel);
     cup1_cur := repeat row 20;
     cup2_c_vel := c_vel; cup2_d_vel := repeat 1%Q (length c_vel);
     cup2_cur := repeat row 20 |}.


(** A spectrum whose second bin centre is already fill data, with a current
    below the floor in the one bin that is kept. *)
Definition raw_single : raw_spec :=
  raw_uniform [300; 200]%Q [0; 0]%Q.

(** Thirty ascending bin centres; the currents are 1 pA in the first
    twenty-three bins and 50 pA in the last seven. *)
Definition row_top : list Q := repeat 1%Q 23 ++ repeat 50%Q 7.

Definition raw_top : raw_spec :=
  raw_uniform (map (fun i => inject_Z (200 + 10 * Z.of_nat i)) (seq 0 30)) row_top.

(** The state right after [load_spec] has stored a spectrum, before any
    analysis. *)
Definition core_loaded (time : Z) (r : raw_spec) : core :=
  match load_swe time r with
  | Some w => with_swe core_init w
  | None => core_init
  end.

(** Sample results of the numerical collaborators. *)
Definition mom_res_sample : mom_res_t :=
  {| mom_n_eta := 14;
     mom_eta_ind_t := Some []; mom_eta_ind_p := Some [];
     mom_eta_n := Some []; mom_eta_v := Some []; mom_eta_w := Some [];
     mom_eta_t := Some [];
     mom_corr_pears := None; mom_corr_spear := None;
     mom_n := Some 5%Q; mom_v := Some 400%Q; mom_w := Some 30%Q;
     mom_t := Some 1%Q; mom_r := None;
     mom_v_vec := Some [(-400)%Q; 0%Q; 0%Q];
     mom_w_per := None; mom_w_par := None; mom_t_per := None; mom_t_par := None;
     mom_cur := Some [] |}.

(** Collaborators for the samples: the moments computation succeeds, the
    guess stage changes nothing, and the optimisation raises. *)
Definition numerics_sample : numerics :=
  {| fl := arith_exact;
     mom_calc := fun _ => Some mom_res_sample;
     curve_fit := fun _ => None;
     calc_nln_cur := fun _ _ => None;
     nln_chain := fun s =>
       Some {| d_dyn_gss := true; d_dyn_sel := dyn_sel (dyn s); d_dsp := dsp s;
               d_gss := gss s; d_nsel := nsel s; d_nres := nres s;
               d_series := series s; d_signals := [] |} |}.

(** The sample spectrum after the automatic selection. *)
Definition core_selected : core :=
  match auto_mom_sel_body arith_exact w_none w_none (core_loaded 0 raw_top) with
  | Some s => s
  | None => core_init
  end.

(** A state ready for the non-linear fit: field data, one population with
    its guess, and every bin selected. *)
Definition core_fit_ready : core :=
  let s := core_selected in
  mk_core (swe s) 10 (win s) (sel s) (mom s)
          (mk_nln_gss [0] [(-400)%Q; 0%Q; 0%Q; 5%Q; 30%Q; 30%Q])
          {| nln_sel := Some (tile3 true 2 20 30); nln_n_sel := 1200; nln_min_sel := 30 |}
          (nres s) (dsp s) (dyn s) (series s) (signals s).

(** The bins selected in the sample. *)
Definition sel_cur_selected : list (list (list bool)) :=
  match mom_sel_cur (sel core_selected) with
  | Some c => c
  | None => []
  end.

(** The selected sample with [mom_sel_azm] cleared behind the validation's
    back, and the state the validation makes of it. *)
Definition core_stale : core :=
  let m := sel core_selected in
  with_sel core_selected
    {| mom_n_sel_azm := mom_n_sel_azm m; mom_n_sel_cur := mom_n_sel_cur m;
       mom_min_sel_azm := mom_min_sel_azm m; mom_min_sel_cur := mom_min_sel_cur m;
       mom_sel_azm := Some (tile2 false 2 20); mom_sel_cur := mom_sel_cur m |}.

Definition core_validated : core :=
  match vldt_mom_sel core_stale with
  | Some s => s
  | None => core_init
  end.

(** The selected sample after the user has switched the dynamic moments
    analysis off. *)
Definition core_manual : core :=
  with_dyn core_selected (mk_dyn false true true false).

(** The states left by a manual toggle of the last bin of the first look
    direction, in the moments selection and in the fit selection. *)
Definition core_mom_toggled : core :=
  match chng_mom_sel numerics_sample 0 0 (-1) core_manual with
  | Some s => s
  | None => core_init
  end.

Definition core_nln_toggled : core :=
  match chng_nln_sel numerics_sample 0 0 (-1) core_fit_ready with
  | Some s => s
  | None => core_init
  end.

(** ** Dynamic flags: the full [chng_dyn] and the adjustment in [load_spec] *)

(** The flag that [chng_dyn( anal, ... )] addresses. *)
Definition dyn_flag (a : anal_t) (d : dyn_t) : bool :=
  match a with
  | a_mom => dyn_mom d
  | a_gss => dyn_gss d
  | a_sel => dyn_sel d
  | a_nln => dyn_nln d
  end.

(** [chng_dyn( anal, value, rerun )].  When the flag already has the value
    the function returns at once.  Otherwise the flag is stored and
    [janus_chng_dyn] emitted, and if [value] and [rerun] hold the analysis
    is re-run and the displayed analysis adjusted, reading the flags as they
    are after the re-run.  [auto_nln_gss] is the collaborator [nln_chain];
    [auto_nln_sel], which is not embedded, is the parameter of that name. *)
Definition chng_dyn_rerun (N : numerics) (auto_nln_sel : core -> option core)
  (anal : anal_t) (value rerun : bool) (s : core) : option core :=
  if eqb (dyn_flag anal (dyn s)) value then Some s
  else
    let s := chng_dyn anal value s in
    if value && rerun then
      match anal with
      | a_mom =>
          s <- anls_mom N s ;;
          Some (if negb (dyn_sel (dyn s)) && negb (dyn_gss (dyn s))
                then chng_dsp dsp_mom s
                else if dyn_nln (dyn s) then chng_dsp dsp_nln s
                else chng_dsp dsp_gsl s)
      | a_gss =>
          s <- option_map (apply_downstream s) (nln_chain N s) ;;
          Some (if dyn_nln (dyn s) then chng_dsp dsp_nln s else chng_dsp dsp_gsl s)
      | a_sel =>
          s <- auto_nln_sel s ;;
          Some (if dyn_nln (dyn s) then chng_dsp dsp_nln s else chng_dsp dsp_gsl s)
      | a_nln =>
          s <- anls_nln N s ;;
          Some (chng_dsp dsp_nln s)
      end
    else Some s.

(** ** [chng_dsp] for any argument *)

(** The argument of [chng_dsp]: one of the three settings, [None], or any
    other value. *)
Inductive dsp_value : Type :=
  | dv_set (v : dsp_t)
  | dv_none
  | dv_other.

(** [self.dsp == value]; [dsp] holds a setting or [None], so a value of the
    third kind equals nothing it can hold. *)
Definition dsp_is (d : option dsp_t) (value : dsp_value) : bool :=
  match d, value with
  | Some a, dv_set b => dsp_eqb a b
  | None, dv_none => true
  | _, _ => false
  end.

(** [chng_dsp( value )]: nothing happens when [dsp] already equals [value];
    otherwise a valid setting is stored, any other value stores [None], and
    [janus_chng_dsp] is emitted. *)
Definition chng_dsp_value (value : dsp_value) (s : core) : core :=
  if dsp_is (dsp s) value then s
  else emit janus_chng_dsp
            (with_dsp s match value with
                        | dv_set v => Some v
                        | _ => None
                        end).

(** [load_spec], the step that makes [dsp] and the dynamic flags mutually
    consistent before a spectrum is loaded. *)
Definition load_spec_dsp_dyn (s : core) : core :=
  match dsp s with
  | Some dsp_gsl | Some dsp_nln =>
      let s1 := with_dyn s (mk_dyn true true true (dyn_nln (dyn s))) in
      let s2 := match dsp s1 with
                | Some dsp_nln =>
                    if negb (dyn_nln (dyn s1)) then with_dsp s1 (Some dsp_gsl) else s1
                | _ => s1
                end in
      emit janus_chng_dsp (emit janus_chng_dyn s2)
  | _ => s
  end.

(** ** The parameter vector of the non-linear fit *)

(** One ion population as [make_nln_gss] reads it from [nln_pyon]: the two
    flags and the guess values. *)
Record pop_t : Type := mk_pop {
  pop_drift : bool;
  pop_aniso : bool;
  pop_n : Q;
  pop_dv : Q;
  pop_w : Q;
  pop_w_per : Q;
  pop_w_par : Q
}.

(** The entries that [make_nln_gss] appends for one population. *)
Definition pop_prm (p : pop_t) : list Q :=
  [pop_n p]
  ++ (if pop_drift p then [pop_dv p] else [])
  ++ (if pop_aniso p then [pop_w_per p; pop_w_par p] else [pop_w p]).

(** [make_nln_gss]: [prm = list( vec_v0 )], then the entries of each
    population of [nln_gss_pop] in turn. *)
Definition make_nln_gss_prm (vec_v0 : list Q) (pops : list pop_t) : list Q :=
  fold_left (fun prm p => prm ++ pop_prm p) pops vec_v0.

(** What is read back for one population; a value that is not part of the
    vector is [None], as [anls_nln] stores it. *)
Record pop_val_t : Type := mk_pop_val {
  val_n : Q;
  val_dv : option Q;
  val_w : option Q;
  val_w_per : option Q;
  val_w_par : option Q
}.

(** The traversal of a parameter vector that [calc_nln_cur] (on [prm]) and
    [anls_nln] (on [fit] and on [sigma]) share: a counter [c] runs through
    the vector, guided by the flags of each population.  Reading past the
    end raises [IndexError]. *)
Fixpoint read_prm (flags : list (bool * bool)) (prm : list Q) (c : nat)
  : option (list pop_val_t) :=
  match flags with
  | [] => Some []
  | (drift, aniso) :: flags' =>
      n <- nth_error prm c ;;
      let c := c + 1 in
      dv_c <- (if drift : bool
               then dv <- nth_error prm c ;; Some (Some dv, c + 1)
               else Some (None, c)) ;;
      let c := snd dv_c in
      if aniso : bool then
        w_per <- nth_error prm c ;;
        w_par <- nth_error prm (c + 1) ;;
        rest <- read_prm flags' prm (c + 2) ;;
        Some (mk_pop_val n (fst dv_c) None (Some w_per) (Some w_par) :: rest)
      else
        w <- nth_error prm c ;;
        rest <- read_prm flags' prm (c + 1) ;;
        Some (mk_pop_val n (fst dv_c) (Some w) None None :: rest)
  end.

(** The flags and the values of a population that are part of the vector. *)
Definition pop_flags (p : pop_t) : bool * bool := (pop_drift p, pop_aniso p).

Definition pop_val (p : pop_t) : pop_val_t :=
  mk_pop_val (pop_n p)
             (if pop_drift p then Some (pop_dv p) else None)
             (if pop_aniso p then None else Some (pop_w p))
             (if pop_aniso p then Some (pop_w_per p) else None)
             (if pop_aniso p then Some (pop_w_par p) else None).

(** ** Python floats *)

(** A value of type [float]: a finite double (a rational number), an
    infinity or NaN. *)
Inductive pyfloat : Type :=
  | f_fin (q : Q)
  | f_inf (positive : bool)
  | f_nan.

(** [x <= y] on floats; a comparison with NaN is false. *)
Definition f_leb (x y : pyfloat) : bool :=
  match x, y with
  | f_nan, _ => false
  | _, f_nan => false
  | f_fin a, f_fin b => Qle_bool a b
  | f_inf false, _ => true
  | _, f_inf true => true
  | _, _ => false
  end.

(** [x < y], [x >= y] and [x > y]. *)
Definition f_ltb (x y : pyfloat) : bool := f_leb x y && negb (f_leb y x).
Definition f_geb (x y : pyfloat) : bool := f_leb y x.
Definition f_gtb (x y : pyfloat) : bool := f_ltb y x.

Definition f_zero : pyfloat := f_fin 0.

(** ** Settings of the guess and of the selection window, [chng_nln_set] *)

(** [var_nln_set]: per population, the factors for the guess, the window
    in thermal speeds, and the two validity flags. *)
Record nln_set_t : Type := mk_nln_set {
  nln_set_gss_n : list (option pyfloat);
  nln_set_gss_d : list (option pyfloat);
  nln_set_gss_w : list (option pyfloat);
  nln_set_gss_vld : list bool;
  nln_set_sel_a : list (option pyfloat);
  nln_set_sel_b : list (option pyfloat);
  nln_set_sel_vld : list bool
}.

(** The argument pair [param], [val]; each value is the result of
    [float( ... )], [None] when the conversion raises.  ['sel'] carries the
    conversions of [val[0]] and [val[1]]. *)
Inductive set_param : Type :=
  | p_gss_n (val : option pyfloat)
  | p_gss_d (val : option pyfloat)
  | p_gss_w (val : option pyfloat)
  | p_sel (val0 val1 : option pyfloat)
  | p_other.

(** A value that becomes [None] when it is [<= 0]. *)
Definition positive_or_none (x : option pyfloat) : option pyfloat :=
  match x with
  | Some v => if f_leb v f_zero then None else Some v
  | None => None
  end.

(** The validation of the settings of population [k]. *)
Definition vldt_nln_set (drift : nat -> bool) (k : nat) (st : nln_set_t) : nln_set_t :=
  let gss_vld :=
    if is_none (nth k (nln_set_gss_n st) None) || is_none (nth k (nln_set_gss_w st) None)
    then false
    else if drift k && is_none (nth k (nln_set_gss_d st) None) then false
    else true in
  let sel_vld :=
    if is_none (nth k (nln_set_sel_a st) None) || is_none (nth k (nln_set_sel_b st) None)
    then false else true in
  mk_nln_set (nln_set_gss_n st) (nln_set_gss_d st) (nln_set_gss_w st)
             (list_set (nln_set_gss_vld st) k gss_vld)
             (nln_set_sel_a st) (nln_set_sel_b st)
             (list_set (nln_set_sel_vld st) k sel_vld).

(** [chng_nln_set( i, param, val )] up to the call of [prop_nln_set]; the
    result is [None] when the function returns without having changed
    anything (index out of range, unknown parameter).  [drift k] is the
    truth value of [nln_pyon.arr_pop[k]['drift']]. *)
Definition chng_nln_set (n_pop : nat) (drift : nat -> bool) (i : Z)
  (prm : set_param) (st : nln_set_t) : option nln_set_t :=
  if (i <? 0)%Z || (i >=? Z.of_nat n_pop)%Z then None
  else
    let k := Z.to_nat i in
    match prm with
    | p_gss_n val =>
        Some (vldt_nln_set drift k
          (mk_nln_set (list_set (nln_set_gss_n st) k (positive_or_none val))
                      (nln_set_gss_d st) (nln_set_gss_w st) (nln_set_gss_vld st)
                      (nln_set_sel_a st) (nln_set_sel_b st) (nln_set_sel_vld st)))
    | p_gss_d val =>
        Some (vldt_nln_set drift k
          (mk_nln_set (nln_set_gss_n st)
                      (list_set (nln_set_gss_d st) k val)
                      (nln_set_gss_w st) (nln_set_gss_vld st)
                      (nln_set_sel_a st) (nln_set_sel_b st) (nln_set_sel_vld st)))
    | p_gss_w val =>
        Some (vldt_nln_set drift k
          (mk_nln_set (nln_set_gss_n st) (nln_set_gss_d st)
                      (list_set (nln_set_gss_w st) k (positive_or_none val))
                      (nln_set_gss_vld st)
                      (nln_set_sel_a st) (nln_set_sel_b st) (nln_set_sel_vld st)))
    | p_sel val0 val1 =>
        let ab := match val0, val1 with
                  | Some a, Some b => if f_geb a b then (None, None) else (val0, val1)
                  | _, _ => (val0, val1)
                  end in
        Some (vldt_nln_set drift k
          (mk_nln_set (nln_set_gss_n st) (nln_set_gss_d st) (nln_set_gss_w st)
                      (nln_set_gss_vld st)
                      (list_set (nln_set_sel_a st) k (fst ab))
                      (list_set (nln_set_sel_b st) k (snd ab))
                      (nln_set_sel_vld st)))
    | p_other => None
    end.

(** The settings that [rset_var( var_nln_set=True )] stores for the five
    populations. *)
Definition nln_set_reset : nln_set_t :=
  let f := fun q => Some (f_fin q) in
  {| nln_set_gss_n := [f 1%Q; f (1 # 5)%Q; f (1 # 50)%Q; f (1 # 100)%Q; None];
     nln_set_gss_d := [None; f (3 # 100)%Q; f (1 # 100)%Q; f (1 # 20)%Q; None];
     nln_set_gss_w := [f 1%Q; f (5 # 4)%Q; f 1%Q; f (5 # 4)%Q; None];
     nln_set_gss_vld := [true; true; true; true; false];
     nln_set_sel_a := repeat (f (-3)%Q) 5;
     nln_set_sel_b := repeat (f 3%Q) 5;
     nln_set_sel_vld := repeat true 5 |}.

(** The drift flags that [rset_var( var_nln_ion=True )] gives the five
    populations; the fifth is added by [add_pop( None )] with no flag, taken
    here as [False]. *)
Definition drift_reset (k : nat) : bool :=
  match k with
  | 1 | 2 | 3 => true
  | _ => false
  end.

(** The settings are coherent for the [n_pop] populations: every array has
    one entry per population; a density factor or a width factor that is
    set does not compare [<= 0], and a window that is set does not compare
    [a >= b] (so the values are in order unless one of them is NaN); and the
    two flags say exactly whether the guess values, respectively the window,
    are set. *)
Definition nln_set_ok (n_pop : nat) (drift : nat -> bool) (st : nln_set_t) : Prop :=
  (length (nln_set_gss_n st) = n_pop /\ length (nln_set_gss_d st) = n_pop /\
   length (nln_set_gss_w st) = n_pop /\ length (nln_set_gss_vld st) = n_pop /\
   length (nln_set_sel_a st) = n_pop /\ length (nln_set_sel_b st) = n_pop /\
   length (nln_set_sel_vld st) = n_pop) /\
  forall k, k < n_pop ->
    (forall v, nth k (nln_set_gss_n st) None = Some v -> f_leb v f_zero = false) /\
    (forall v, nth k (nln_set_gss_w st) None = Some v -> f_leb v f_zero = false) /\
    (forall a b, nth k (nln_set_sel_a st) None = Some a ->
                 nth k (nln_set_sel_b st) None = Some b -> f_geb a b = false) /\
    nth k (nln_set_gss_vld st) false
    = negb (is_none (nth k (nln_set_gss_n st) None)
            || is_none (nth k (nln_set_gss_w st) None)
            || (drift k && is_none (nth k (nln_set_gss_d st) None))) /\
    nth k (nln_set_sel_vld st) false
    = negb (is_none (nth k (nln_set_sel_a st) None)
            || is_none (nth k (nln_set_sel_b st) None)).

(** The number of entries of the parameter vector that one population with
    the given flags takes, and that a list of populations takes. *)
Definition pop_size (fl : bool * bool) : nat :=
  1 + (if fst fl then 1 else 0) + (if snd fl then 2 else 1).

Definition prm_size (flags : list (bool * bool)) : nat :=
  fold_right (fun fl n => pop_size fl + n) 0 flags.

(** ** Clipping and normalising *)

(** [calc_arr_clp( a, lwr, upr )] for a scalar:
    [min( [ max( [ a, lwr ] ), upr ] )].  The built-in [max] of a list
    keeps its first element unless the second is greater, and [min] unless
    the second is smaller. *)
Definition py_max2 (x y : pyfloat) : pyfloat := if f_gtb y x then y else x.
Definition py_min2 (x y : pyfloat) : pyfloat := if f_ltb y x then y else x.

Definition calc_arr_clp (a lwr upr : pyfloat) : pyfloat :=
  py_min2 (py_max2 a lwr) upr.


(** ** The average magnetic field, [load_mfi] *)

(** [mfi_avg_nrm = mfi_avg_vec / mfi_avg_mag], with [mfi_avg_mag] the square
    root of the sum of the squared components. *)
Definition mfi_avg_nrm (mfi_avg_vec : vec3) : vec3 :=
  let '(bx, by_, bz) := mfi_avg_vec in
  let mfi_avg_mag := sqrt (bx ^ 2 + by_ ^ 2 + bz ^ 2) in
  ((bx / mfi_avg_mag)%R, (by_ / mfi_avg_mag)%R, (bz / mfi_avg_mag)%R).


(** ** Names for intermediate arrays of [auto_mom_sel_azm] *)

(** The row [max_cur[t,:]]. *)
Definition max_cur_row (w : swe_t) (t : nat) : list Q :=
  map (fun p => max_cur_dir (cube_row (cur w) t p) (cube_row (cur_vld w) t p))
      (seq 0 (n_azm w)).

(** The entry [mm_cur[t,p]]. *)
Definition mm_cur_at (A : arith) (w : swe_t) (win_azm : Z) (t p : nat) : Q :=
  mm_cur_dir A (max_cur_row w t) (n_azm w) win_azm p.

(** ** Further sample data *)

(** The sample spectrum after the selection of look directions alone. *)
Definition core_azm_selected : core :=
  match auto_mom_sel_azm arith_exact (core_loaded 0 raw_top) with
  | Some s => s
  | None => core_init
  end.

(** Collaborators whose optimisation succeeds: the fit returns the guess of
    the sample, and the forward model a zero current for every bin. *)
Definition fit_sample : fit_t :=
  {| fit_prm := [(-400)%Q; 0%Q; 0%Q; 5%Q; 30%Q; 30%Q];
     fit_covar := []; fit_sigma := [1%Q; 1%Q; 1%Q; 1%Q; 1%Q; 1%Q] |}.

Definition numerics_fit : numerics :=
  {| fl := arith_exact;
     mom_calc := mom_calc numerics_sample;
     curve_fit := fun _ => Some fit_sample;
     calc_nln_cur := fun _ _ => Some (tile3 [0%Q] 2 20 30);
     nln_chain := nln_chain numerics_sample |}.

(** The state after a successful fit of the sample. *)
Definition core_fitted : core :=
  match anls_nln numerics_fit core_fit_ready with
  | Some s => s
  | None => core_init
  end.

(** The sample after its fit selection has been propagated. *)
Definition core_propagated : core :=
  match prop_nln_sel numerics_sample None core_fit_ready with
  | Some s => s
  | None => core_init
  end.

(** The selected sample with only the moments analysis dynamic and the
    guess displayed; the state after the first steps of [anls_mom] and after
    the whole of it. *)
Definition core_mom_only : core :=
  with_dsp (with_dyn core_selected (mk_dyn true false false false)) (Some dsp_gsl).

Definition core_mom_only_sel : core :=
  match anls_mom_sel arith_exact core_mom_only with
  | Some s => s
  | None => core_init
  end.

Definition core_mom_only_run : core :=
  match anls_mom numerics_sample core_mom_only with
  | Some s => s
  | None => core_init
  end.

(** An anisotropic population without drift and a drifting isotropic one. *)
Definition pops_sample : list pop_t :=
  [ {| pop_drift := false; pop_aniso := true; pop_n := 5; pop_dv := 0;
       pop_w := 0; pop_w_per := 30; pop_w_par := 35 |};
    {| pop_drift := true; pop_aniso := false; pop_n := 1; pop_dv := 20;
       pop_w := 40; pop_w_per := 0; pop_w_par := 0 |} ]%Q.

(** The reset settings after a negative density factor has been entered for
    the second population. *)
Definition nln_set_sample : nln_set_t :=
  match chng_nln_set 5 drift_reset 1 (p_gss_n (Some (f_fin (-1)))) nln_set_reset with
  | Some st => st
  | None => nln_set_reset
  end.

(** The reset settings after NaN has been entered as the density factor of
    the second population. *)
Definition nln_set_nan : nln_set_t :=
  match chng_nln_set 5 drift_reset 1 (p_gss_n (Some f_nan)) nln_set_reset with
  | Some st => st
  | None => nln_set_reset
  end.

(** Six ascending bin centres; in every look direction the first bin jumps
    above its neighbour, the third lies below the floor and the fifth
    jumps above both neighbours. *)
Definition raw_spikes : raw_spec :=
  raw_uniform [200; 210; 220; 230; 240; 250]%Q [500; 2; 0; 2; 300; 2]%Q.

(** * Properties *)

(** ** Generic lemmas *)

Lemma omap_ext_some {A B : Type} (f : A -> option B) (g : A -> B) (l : list A) :
  (forall a, In a l -> f a = Some (g a)) -> omap f l = Some (map g l).
Proof.
  induction l as [|a l IH]; intros H; simpl; [reflexivity|].
  rewrite (H a (or_introl eq_refl)); simpl.
  rewrite IH; [reflexivity|].
  intros b Hb. apply H. right. exact Hb.
Qed.

Lemma py_index_nat (n i : nat) :
  i < n -> py_index n (Z.of_nat i) = Some i.
Proof.
  intros H. unfold py_index.
  assert (H0 : (0 <=? Z.of_nat i)%Z = true) by (apply Z.leb_le; lia).
  assert (H1 : (Z.of_nat i <? Z.of_nat n)%Z = true) by (apply Z.ltb_lt; lia).
  rewrite H0, H1. simpl. rewrite Nat2Z.id. reflexivity.
Qed.

Lemma py_get_nat {A : Type} (d : A) (l : list A) (i : nat) :
  i < length l -> py_get l (Z.of_nat i) = Some (nth i l d).
Proof.
  intros H. unfold py_get. rewrite py_index_nat by exact H. simpl.
  apply nth_error_nth'. exact H.
Qed.

(** ** Truncation at the first decreasing bin centre *)


(** The loop never runs out of fuel: beyond [length c1 - n_vel] iterations
    more fuel changes nothing. *)
Lemma scan_n_vel_fuel (c1 c2 : list Q) :
  forall fuel n, length c1 <= fuel + n ->
    scan_n_vel (S fuel) c1 c2 n = scan_n_vel fuel c1 c2 n.
Proof.
  induction fuel as [|fuel IH]; intros n Hn.
  - simpl. assert (E : (n <? length c1) = false) by (apply Nat.ltb_ge; lia).
    rewrite E. reflexivity.
  - change (scan_n_vel (S (S fuel)) c1 c2 n)
      with (if (n <? length c1) && (n <? length c2) then
              if Qltb (nth n c1 0%Q) (nth (n - 1) c1 0%Q)
                 || Qltb (nth n c2 0%Q) (nth (n - 1) c2 0%Q)
              then n else scan_n_vel (S fuel) c1 c2 (S n)
            else n).
    rewrite IH by lia. reflexivity.
Qed.


(** ** Validity flagging *)

Lemma py_get_last {A : Type} (d : A) (l : list A) :
  0 < length l -> py_get l (-1)%Z = Some (nth (length l - 1) l d).
Proof.
  intros H. unfold py_get, py_index.
  assert (H1 : (- Z.of_nat (length l) <=? -1)%Z = true) by (apply Z.leb_le; lia).
  simpl ((0 <=? -1)%Z). simpl ((-1 <? 0)%Z). rewrite H1. simpl.
  replace (Z.to_nat (Z.of_nat (length l) + -1)) with (length l - 1) by lia.
  apply nth_error_nth'. lia.
Qed.

(** With at least two bins, the loop body leaves in [cur_vld[t,p,v]] the
    negation of what the specification calls invalid. *)
Lemma vld_bin_spec (A : arith) (cur_min cur_jmp : Q) (row : list Q) (v : nat) :
  2 <= length row -> v < length row ->
  vld_bin A cur_min cur_jmp (length row) row v
  = Some (negb (spec_invalid A cur_min cur_jmp row v)).
Proof.
  intros Hn Hv. unfold vld_bin, spec_invalid.
  rewrite (py_get_nat 0%Q row v) by exact Hv. unfold obind at 1.
  destruct (Qltb (nth v row 0%Q) cur_min); [reflexivity|].
  rewrite orb_false_l.
  destruct (Nat.eq_dec v 0) as [Hv0|Hv0].
  - (* first bin *)
    assert (E0 : (Z.of_nat v =? 0)%Z = true) by (apply Z.eqb_eq; lia).
    assert (E0' : (v =? 0) = true) by (apply Nat.eqb_eq; lia).
    assert (E : (Z.of_nat v =? Z.of_nat (length row) - 1)%Z = false)
      by (apply Z.eqb_neq; lia).
    rewrite E0, E0', E.
    replace (Z.of_nat v + 1)%Z with (Z.of_nat 1) by lia.
    replace (Z.of_nat v - 1)%Z with (-1)%Z by lia.
    rewrite (py_get_nat 0%Q row 1) by lia.
    rewrite (py_get_last 0%Q) by lia.
    unfold obind.
    destruct (Qltb (f_mul A cur_jmp (nth 1 row 0%Q)) (nth v row 0%Q)) eqn:E1; [reflexivity|].
    destruct (Qltb (f_mul A cur_jmp (nth (length row - 1) row 0%Q)) (nth v row 0%Q));
      reflexivity.
  - assert (E0 : (Z.of_nat v =? 0)%Z = false) by (apply Z.eqb_neq; lia).
    assert (E0' : (v =? 0) = false) by (apply Nat.eqb_neq; lia).
    rewrite E0, E0'.
    replace (Z.of_nat v - 1)%Z with (Z.of_nat (v - 1)) by lia.
    rewrite (py_get_nat 0%Q row (v - 1)) by lia. unfold obind.
    destruct (Nat.eq_dec v (length row - 1)) as [Hl|Hl].
    + (* last bin *)
      assert (E : (Z.of_nat v =? Z.of_nat (length row) - 1)%Z = true)
        by (apply Z.eqb_eq; lia).
      assert (E' : (v =? length row - 1) = true) by (apply Nat.eqb_eq; lia).
      rewrite E, E'.
      destruct (Qltb (f_mul A cur_jmp (nth (v - 1) row 0%Q)) (nth v row 0%Q)); reflexivity.
    + (* interior bin *)
      assert (E : (Z.of_nat v =? Z.of_nat (length row) - 1)%Z = false)
        by (apply Z.eqb_neq; lia).
      assert (E' : (v =? length row - 1) = false) by (apply Nat.eqb_neq; lia).
      rewrite E, E'.
      destruct (Qltb (f_mul A cur_jmp (nth (v - 1) row 0%Q)) (nth v row 0%Q)); [|reflexivity].
      replace (Z.of_nat v + 1)%Z with (Z.of_nat (v + 1)) by lia.
      rewrite (py_get_nat 0%Q row (v + 1)) by lia. reflexivity.
Qed.

Lemma shape3_row {A : Type} (n1 n2 n3 : nat) (c : list (list (list A))) (t p : nat) :
  shape3 n1 n2 n3 c -> t < n1 -> p < n2 ->
  (plane <- nth_error c t ;; nth_error plane p) = Some (cube_row c t p)
  /\ length (cube_row c t p) = n3.
Proof.
  intros (Hl & Hf) Ht Hp. unfold cube_row.
  assert (Ht' : t < length c) by lia.
  rewrite (nth_error_nth' c [] Ht'). simpl.
  rewrite Forall_forall in Hf.
  destruct (Hf (nth t c []) (nth_In c [] Ht')) as (Hl2 & Hf2).
  assert (Hp' : p < length (nth t c [])) by lia.
  rewrite (nth_error_nth' _ [] Hp'). split; [reflexivity|].
  rewrite Forall_forall in Hf2. apply Hf2. apply nth_In. exact Hp'.
Qed.

Lemma nth_map_seq {A : Type} (d : A) (f : nat -> A) (n i : nat) :
  i < n -> nth i (map f (seq 0 n)) d = f i.
Proof.
  intros H.
  rewrite (nth_indep _ d (f 0)) by (rewrite length_map, length_seq; exact H).
  rewrite (map_nth f (seq 0 n) 0 i), seq_nth by exact H. reflexivity.
Qed.

Lemma map_const_repeat {A B : Type} (x : B) (l : list A) :
  map (fun _ => x) l = repeat x (length l).
Proof.
  induction l as [|a l IH]; simpl; [reflexivity|]. rewrite IH. reflexivity.
Qed.

(** C3, as the loader does it.  For a spectrum with at least two velocity
    bins the validity mask marks invalid exactly the bins below the floor,
    the first or last bin above the jump factor times its single neighbour,
    and the interior bins above the jump factor times both neighbours; all
    other bins are valid.  For a spectrum with fewer than two bins the
    flagging is skipped and every bin stays valid. *)
Theorem load_cur_vld_spec (A : arith) (cur_min cur_jmp : Q) (n_alt n_azm n_vel : nat)
  (cur : list (list (list Q))) :
  shape3 n_alt n_azm n_vel cur ->
  exists m,
    load_cur_vld A cur_min cur_jmp n_alt n_azm n_vel cur = Some m /\
    forall t p v, t < n_alt -> p < n_azm -> v < n_vel ->
      nth v (cube_row m t p) true
      = if n_vel <? 2 then true
        else negb (spec_invalid A cur_min cur_jmp (cube_row cur t p) v).
Proof.
  intros Hs.
  set (g := fun t : nat =>
         map (fun p => map (fun v =>
           if n_vel <? 2 then true
           else negb (spec_invalid A cur_min cur_jmp (cube_row cur t p) v))
           (seq 0 n_vel)) (seq 0 n_azm)).
  exists (map g (seq 0 n_alt)). split.
  - unfold load_cur_vld. apply omap_ext_some. intros t Ht.
    apply in_seq in Ht. unfold g.
    destruct (n_vel <? 2) eqn:E.
    + rewrite !map_const_repeat, !length_seq. reflexivity.
    + apply omap_ext_some. intros p Hp. apply in_seq in Hp.
      destruct (shape3_row _ _ _ cur t p Hs) as (Hrow & Hlen); [lia|lia|].
      rewrite Hrow. simpl obind.
      apply omap_ext_some. intros v Hv. apply in_seq in Hv.
      rewrite <- Hlen at 1. apply vld_bin_spec.
      * apply Nat.ltb_ge in E. lia.
      * lia.
  - intros t p v Ht Hp Hv. unfold cube_row.
    rewrite (nth_map_seq [] g) by exact Ht. unfold g.
    rewrite (nth_map_seq []) by exact Hp.
    rewrite nth_map_seq by exact Hv. reflexivity.
Qed.

(** ** Validation of the moments selection *)

Lemma emit_all_frame (l : list (nat * nat)) (s : core) :
  let s' := fold_left (fun st tp => emit (janus_chng_mom_sel_azm (fst tp) (snd tp)) st) l s in
  swe s' = swe s /\ n_mfi s' = n_mfi s /\ win s' = win s /\ sel s' = sel s /\
  mom s' = mom s /\ gss s' = gss s /\ nsel s' = nsel s /\ nres s' = nres s /\
  dsp s' = dsp s /\ dyn s' = dyn s /\ series s' = series s /\
  signals s' = signals s ++ map (fun tp => janus_chng_mom_sel_azm (fst tp) (snd tp)) l.
Proof.
  revert s. induction l as [|a l IH]; intros s; simpl.
  - rewrite app_nil_r. repeat split.
  - specialize (IH (emit (janus_chng_mom_sel_azm (fst a) (snd a)) s)).
    simpl in IH. destruct IH as (?&?&?&?&?&?&?&?&?&?&?&Hs).
    repeat split; try assumption.
    rewrite Hs. simpl. rewrite <- app_assoc. reflexivity.
Qed.

Lemma count_true_map {A : Type} (f : A -> bool) (l : list A) :
  count_true (map f l) = length (filter f l).
Proof.
  unfold count_true. induction l as [|a l IH]; simpl; [reflexivity|].
  destruct (f a); simpl; rewrite IH; reflexivity.
Qed.

Lemma concat_grid_prod {A B C : Type} (g : A -> B -> C) (l1 : list A) (l2 : list B) :
  concat (map (fun t => map (fun p => g t p) l2) l1)
  = map (fun tp => g (fst tp) (snd tp)) (list_prod l1 l2).
Proof.
  induction l1 as [|a l1 IH]; simpl; [reflexivity|].
  rewrite map_app, map_map, IH. reflexivity.
Qed.

Lemma count_true2_grid (f : nat -> nat -> bool) (n1 n2 : nat) :
  count_true2 (map (fun t => map (fun p => f t p) (seq 0 n2)) (seq 0 n1))
  = length (filter (fun tp => f (fst tp) (snd tp)) (list_prod (seq 0 n1) (seq 0 n2))).
Proof.
  unfold count_true2. rewrite concat_grid_prod. apply count_true_map.
Qed.

Lemma grid_get_map_seq {A : Type} (d : A) (f : nat -> nat -> A) (n1 n2 t p : nat) :
  t < n1 -> p < n2 ->
  grid_get d (map (fun t => map (fun p => f t p) (seq 0 n2)) (seq 0 n1)) t p = f t p.
Proof.
  intros Ht Hp. unfold grid_get.
  rewrite (nth_map_seq [] (fun t => map (fun p => f t p) (seq 0 n2))) by exact Ht.
  apply nth_map_seq. exact Hp.
Qed.

(** What [vldt_mom_sel] leaves in the selection group, and that it touches
    nothing else but the signal log. *)
Lemma vldt_mom_sel_result (s s' : core) :
  vldt_mom_sel s = Some s' ->
  exists old c,
    mom_sel_azm (sel s) = Some old /\ mom_sel_cur (sel s) = Some c /\
    let n_cur := count_grid (n_alt (swe s)) (n_azm (swe s)) c in
    let azm := map (fun t => map (fun p => mom_min_sel_cur (sel s) <=? grid_get 0 n_cur t p)
                                 (seq 0 (n_azm (swe s)))) (seq 0 (n_alt (swe s))) in
    let below := count_true2 azm <? mom_min_sel_azm (sel s) in
    let azm' := if below then tile2 false (n_alt (swe s)) (n_azm (swe s)) else azm in
    sel s' = {| mom_n_sel_azm := if below then 0 else count_true2 azm;
                mom_n_sel_cur := Some n_cur;
                mom_min_sel_azm := mom_min_sel_azm (sel s);
                mom_min_sel_cur := mom_min_sel_cur (sel s);
                mom_sel_azm := Some azm';
                mom_sel_cur := Some c |} /\
    swe s' = swe s /\ n_mfi s' = n_mfi s /\ win s' = win s /\ mom s' = mom s /\
    gss s' = gss s /\ nsel s' = nsel s /\ nres s' = nres s /\ dsp s' = dsp s /\
    dyn s' = dyn s /\ series s' = series s /\
    signals s' = signals s ++ map (fun tp => janus_chng_mom_sel_azm (fst tp) (snd tp))
                                  (where_differ (n_alt (swe s)) (n_azm (swe s)) azm' old).
Proof.
  unfold vldt_mom_sel. intros H.
  destruct (mom_sel_azm (sel s)) as [old|] eqn:Eo; [|discriminate].
  destruct (mom_sel_cur (sel s)) as [c|] eqn:Ec; [|discriminate].
  simpl in H. injection H as <-.
  exists old, c. split; [reflexivity|]. split; [reflexivity|].
  cbv zeta.
  match goal with
  | |- context [fold_left ?f ?l ?s0] =>
      pose proof (emit_all_frame l s0) as F
  end.
  cbv zeta in F. destruct F as (?&?&?&?&?&?&?&?&?&?&?&?).
  repeat split; assumption.
Qed.

Lemma vldt_mom_sel_consistent (s s' : core) :
  vldt_mom_sel s = Some s' ->
  mom_sel_consistent (n_alt (swe s')) (n_azm (swe s')) (sel s').
Proof.
  intros H. destruct (vldt_mom_sel_result s s' H) as (old & c & _ & _ & R).
  cbv zeta in R. destruct R as (Hsel & Hswe & _).
  rewrite Hsel, Hswe. clear Hsel Hswe H s'.
  set (na := n_alt (swe s)). set (nz := n_azm (swe s)).
  set (n_cur := count_grid na nz c).
  set (azm := map (fun t => map (fun p => mom_min_sel_cur (sel s) <=? grid_get 0 n_cur t p)
                               (seq 0 nz)) (seq 0 na)).
  assert (Hn : forall t p, t < na -> p < nz ->
             grid_get 0 n_cur t p = count_true (cube_row c t p)).
  { intros t p Ht Hp. unfold n_cur, count_grid.
    apply (grid_get_map_seq 0 (fun t p => count_true (cube_row c t p))); assumption. }
  assert (Hq : count_true2 azm = n_qualifying na nz (mom_min_sel_cur (sel s)) n_cur).
  { unfold azm, n_qualifying.
    apply (count_true2_grid (fun t p => mom_min_sel_cur (sel s) <=? grid_get 0 n_cur t p)). }
  eexists _, c, n_cur. simpl.
  split; [reflexivity|]. split; [reflexivity|]. split; [reflexivity|].
  split; [exact Hn|]. split.
  - intros t p Ht Hp. destruct (count_true2 azm <? mom_min_sel_azm (sel s)).
    + unfold tile2, grid_get. intros Hf. exfalso.
      rewrite (nth_indep _ [] (repeat false nz)) in Hf by (rewrite repeat_length; exact Ht).
      rewrite nth_repeat in Hf. rewrite nth_repeat in Hf. discriminate.
    + unfold azm.
      rewrite (grid_get_map_seq false
                 (fun t p => mom_min_sel_cur (sel s) <=? grid_get 0 n_cur t p))
        by assumption.
      intros Hf. apply Nat.leb_le in Hf. exact Hf.
  - intros Hlt. rewrite <- Hq in Hlt. apply Nat.ltb_lt in Hlt. rewrite Hlt.
    split; reflexivity.
Qed.

Lemma where_differ_same (n1 n2 : nat) (a : list (list bool)) :
  where_differ n1 n2 a a = [].
Proof.
  unfold where_differ.
  assert (E : forall t, flat_map (fun p => if xorb (grid_get false a t p) (grid_get false a t p)
                                            then [(t, p)] else []) (seq 0 n2) = []).
  { intros t. induction (seq 0 n2) as [|p l IH]; simpl; [reflexivity|].
    rewrite xorb_nilpotent. exact IH. }
  induction (seq 0 n1) as [|t l IH]; simpl; [reflexivity|].
  rewrite E, IH. reflexivity.
Qed.

Lemma with_sel_same (s : core) (x : mom_sel_t) : sel s = x -> with_sel s x = s.
Proof. intros <-. destruct s. reflexivity. Qed.

(** A state left by the validation is a fixed point of the validation. *)
Lemma vldt_mom_sel_fixpoint (s s1 : core) :
  vldt_mom_sel s = Some s1 ->
  vldt_mom_sel s1 = Some s1.
Proof.
  intros H. destruct (vldt_mom_sel_result s s1 H) as (old & c & _ & _ & R).
  cbv zeta in R. destruct R as (Hsel & Hswe & _).
  unfold vldt_mom_sel. rewrite Hsel. cbn [mom_sel_azm mom_sel_cur obind].
  rewrite Hswe. cbn [mom_min_sel_cur mom_min_sel_azm].
  set (na := n_alt (swe s)) in *. set (nz := n_azm (swe s)) in *.
  set (n_cur := count_grid na nz c) in *.
  set (azm := map (fun t => map (fun p => mom_min_sel_cur (sel s) <=? grid_get 0 n_cur t p)
                               (seq 0 nz)) (seq 0 na)) in *.
  destruct (count_true2 azm <? mom_min_sel_azm (sel s)) eqn:E;
    rewrite where_differ_same; simpl; f_equal; apply with_sel_same; exact Hsel.
Qed.

(** ** Automatic selection *)

(** The effective window widths stored by [auto_mom_sel]. *)
Lemma win_clamp_range (w : Z) (lo hi : nat) :
  (0 <= win_clamp w lo hi <= Z.of_nat hi)%Z.
Proof. unfold win_clamp. lia. Qed.

Lemma auto_mom_sel_body_result (A : arith) (wa wc : win_arg) (s s' : core) :
  auto_mom_sel_body A wa wc s = Some s' ->
  exists azm0 s2,
    let na := n_alt (swe s) in
    let nz := n_azm (swe s) in
    let w_azm := win_clamp (win_eff (win_req wa (mom_win_azm_req (win s))) (mom_win_azm (win s)))
                           (mom_min_sel_azm (sel s)) nz in
    let w_cur := win_clamp (win_eff (win_req wc (mom_win_cur_req (win s))) (mom_win_cur (win s)))
                           (mom_min_sel_cur (sel s)) (n_vel (swe s)) in
    omap (sel_azm_row A (swe s) w_azm) (seq 0 na) = Some azm0 /\
    vldt_mom_sel s2 = Some s' /\
    mom_sel_azm (sel s2) = Some azm0 /\
    mom_sel_cur (sel s2)
      = Some (map (fun t => map (sel_cur_row A (swe s) w_cur azm0 t) (seq 0 nz)) (seq 0 na)) /\
    mom_min_sel_azm (sel s2) = mom_min_sel_azm (sel s) /\
    mom_min_sel_cur (sel s2) = mom_min_sel_cur (sel s) /\
    swe s2 = swe s /\ n_mfi s2 = n_mfi s /\
    mom_win_cur (win s2) = w_cur /\ mom_win_azm (win s2) = w_azm /\
    mom s2 = mom s /\ gss s2 = gss s /\ nsel s2 = nln_sel_reset /\ nres s2 = nres s /\
    dsp s2 = dsp s /\ dyn s2 = dyn s /\ series s2 = series s /\
    signals s2 = signals s ++ [janus_chng_mom_sel_all].
Proof.
  unfold auto_mom_sel_body. intros H.
  destruct (auto_mom_sel_azm A _) as [s1|] eqn:E1; [|discriminate].
  cbn [obind] in H.
  destruct (auto_mom_sel_cur A s1) as [s2|] eqn:E2; [|discriminate].
  cbn [obind] in H.
  unfold auto_mom_sel_azm in E1.
  destruct (omap _ _) as [azm0|] eqn:E in E1; [|discriminate].
  cbn in E, E1. injection E1 as <-.
  unfold auto_mom_sel_cur in E2. cbn in E2. injection E2 as <-.
  eexists azm0, _. cbv zeta.
  split; [exact E|]. split; [exact H|]. cbn. repeat split.
Qed.

(** After [auto_mom_sel] up to the validation, the selection is consistent
    and everything but the selection, the window widths, the fit selection
    and the signal log is as before. *)
Lemma auto_mom_sel_body_frame (A : arith) (wa wc : win_arg) (s s' : core) :
  auto_mom_sel_body A wa wc s = Some s' ->
  mom_sel_consistent (n_alt (swe s')) (n_azm (swe s')) (sel s') /\
  swe s' = swe s /\ n_mfi s' = n_mfi s /\ mom s' = mom s /\ gss s' = gss s /\
  nres s' = nres s /\ dsp s' = dsp s /\ dyn s' = dyn s /\ series s' = series s /\
  mom_min_sel_azm (sel s') = mom_min_sel_azm (sel s) /\
  mom_min_sel_cur (sel s') = mom_min_sel_cur (sel s) /\
  (exists a c, mom_sel_azm (sel s') = Some a /\ mom_sel_cur (sel s') = Some c).
Proof.
  intros H. destruct (auto_mom_sel_body_result A wa wc s s' H) as (azm0 & s2 & R).
  cbv zeta in R.
  destruct R as (_ & Hv & _ & _ & Hma & Hmc & Hswe & Hmfi & _ & _ & Hmom & Hgss & _ &
                 Hnres & Hdsp & Hdyn & Hser & _).
  split; [exact (vldt_mom_sel_consistent s2 s' Hv)|].
  destruct (vldt_mom_sel_result s2 s' Hv) as (old & c & _ & _ & R).
  cbv zeta in R.
  destruct R as (Hsel & Hswe' & Hmfi' & _ & Hmom' & Hgss' & _ & Hnres' & Hdsp' & Hdyn' &
                 Hser' & _).
  rewrite Hsel. cbn.
  repeat split; try congruence.
  eexists _, _. split; reflexivity.
Qed.

(** ** The moments analysis and the manual toggle *)

Lemma anls_mom_sel_populated (A : arith) (s : core) (a : list (list bool))
  (c : list (list (list bool))) :
  mom_sel_azm (sel s) = Some a -> mom_sel_cur (sel s) = Some c ->
  anls_mom_sel A s = Some (rset_var_mom_res s).
Proof.
  intros Ha Hc. unfold anls_mom_sel. cbn. rewrite Ha, Hc. reflexivity.
Qed.

(** [anls_mom] assigns neither the spectrum, nor the selection, nor the
    window widths, nor [dyn_mom] or [dyn_nln], once its selection step is
    through. *)
Lemma anls_mom_frame (N : numerics) (s s' : core) :
  anls_mom N s = Some s' ->
  exists s1,
    anls_mom_sel (fl N) s = Some s1 /\
    swe s' = swe s1 /\ n_mfi s' = n_mfi s1 /\ win s' = win s1 /\ sel s' = sel s1 /\
    dyn_mom (dyn s') = dyn_mom (dyn s1) /\ dyn_nln (dyn s') = dyn_nln (dyn s1).
Proof.
  unfold anls_mom. intros H.
  destruct (anls_mom_sel (fl N) s) as [s1|]; [|discriminate]. cbn [obind] in H.
  exists s1. split; [reflexivity|].
  destruct (anls_mom_norun s1).
  - injection H as <-. cbn. repeat split.
  - destruct (mom_calc N _) as [r|]; [|discriminate]. cbn [obind] in H.
    cbn in H. destruct (dyn_gss (dyn s1)).
    + destruct (nln_chain N _) as [d|]; [|discriminate].
      cbn in H. injection H as <-. cbn. repeat split.
    + injection H as <-. unfold chng_dsp. cbn.
      destruct (dsp s1) as [d|]; [destruct (dsp_eqb d dsp_mom)|]; cbn; repeat split.
Qed.

Lemma anls_mom_sel_consistent (A : arith) (s s1 : core) :
  anls_mom_sel A s = Some s1 ->
  (forall a c, mom_sel_azm (sel s) = Some a -> mom_sel_cur (sel s) = Some c ->
     mom_sel_consistent (n_alt (swe s)) (n_azm (swe s)) (sel s)) ->
  mom_sel_consistent (n_alt (swe s1)) (n_azm (swe s1)) (sel s1)
  /\ swe s1 = swe s /\ dyn s1 = dyn s.
Proof.
  unfold anls_mom_sel. cbn. intros H Hc.
  destruct (mom_sel_azm (sel s)) as [a|] eqn:Ea;
    [destruct (mom_sel_cur (sel s)) as [c|] eqn:Ec|].
  - injection H as <-. cbn. repeat split. exact (Hc a c eq_refl eq_refl).
  - destruct (auto_mom_sel_body_frame A _ _ _ _ H) as (Hcons & Hswe & _ & _ & _ & _ & _ & Hdyn & _).
    repeat split; assumption.
  - destruct (auto_mom_sel_body_frame A _ _ _ _ H) as (Hcons & Hswe & _ & _ & _ & _ & _ & Hdyn & _).
    repeat split; assumption.
Qed.

Lemma anls_mom_consistent (N : numerics) (s s' : core) :
  anls_mom N s = Some s' ->
  mom_sel_consistent (n_alt (swe s)) (n_azm (swe s)) (sel s) ->
  mom_sel_consistent (n_alt (swe s')) (n_azm (swe s')) (sel s')
  /\ dyn_mom (dyn s') = dyn_mom (dyn s).
Proof.
  intros H Hc.
  destruct (anls_mom_frame N s s' H) as (s1 & H1 & Hswe & _ & _ & Hsel & Hdm & _).
  destruct (anls_mom_sel_consistent (fl N) s s1 H1 (fun _ _ _ _ => Hc)) as (Hc1 & _ & Hdyn).
  rewrite Hswe, Hsel, Hdm, Hdyn. split; [exact Hc1|reflexivity].
Qed.

Lemma chng_dyn_frame (a : anal_t) (b : bool) (s : core) :
  swe (chng_dyn a b s) = swe s /\ sel (chng_dyn a b s) = sel s /\
  nsel (chng_dyn a b s) = nsel s.
Proof.
  unfold chng_dyn. destruct a;
    match goal with |- context [eqb ?x ?y] => destruct (eqb x y) end;
    cbn; repeat split.
Qed.

Lemma chng_dyn_mom (b : bool) (s : core) :
  dyn_mom (dyn (chng_dyn a_mom b s)) = b.
Proof.
  unfold chng_dyn. destruct (eqb (dyn_mom (dyn s)) b) eqn:E.
  - apply eqb_prop. exact E.
  - reflexivity.
Qed.

Lemma chng_dyn_sel (b : bool) (s : core) :
  dyn_sel (dyn (chng_dyn a_sel b s)) = b.
Proof.
  unfold chng_dyn. destruct (eqb (dyn_sel (dyn s)) b) eqn:E.
  - apply eqb_prop. exact E.
  - reflexivity.
Qed.

(** The state in which [chng_mom_sel] runs the moments analysis: the bin
    has been toggled, the selection validated and [dyn_mom] switched on. *)
Lemma chng_mom_sel_steps (N : numerics) (t p v : Z) (s s' : core) :
  chng_mom_sel N t p v s = Some s' ->
  exists s1,
    mom_sel_consistent (n_alt (swe s1)) (n_azm (swe s1)) (sel s1) /\
    dyn_mom (dyn s1) = true /\
    anls_mom N s1 = Some s'.
Proof.
  unfold chng_mom_sel. intros H.
  destruct (mom_sel_cur (sel s)) as [c|]; [|discriminate]. cbn [obind] in H.
  destruct (cube_toggle c t p v) as [c'|]; [|discriminate]. cbn [obind] in H.
  destruct (vldt_mom_sel _) as [s1|] eqn:Ev; [|discriminate]. cbn [obind] in H.
  exists (chng_dyn a_mom true s1).
  destruct (chng_dyn_frame a_mom true s1) as (Hswe & Hsel & _).
  rewrite Hswe, Hsel. split; [exact (vldt_mom_sel_consistent _ _ Ev)|].
  split; [apply chng_dyn_mom|exact H].
Qed.

(** C1.  After the validation routine, after the automatic selection and
    after a manual toggle of one bin, the selection is consistent: a look
    direction is used only if its count of selected bins is at least
    [mom_min_sel_cur], and if fewer than [mom_min_sel_azm] look directions
    reach that count, no look direction is used and [mom_n_sel_azm] is
    zero. *)
Theorem mom_sel_consistent_after (N : numerics) (s s' : core) :
  vldt_mom_sel s = Some s'
  \/ (exists wa wc b, auto_mom_sel N wa wc b s = Some s')
  \/ (exists t p v, chng_mom_sel N t p v s = Some s') ->
  mom_sel_consistent (n_alt (swe s')) (n_azm (swe s')) (sel s').
Proof.
  intros [H|[(wa & wc & b & H)|(t & p & v & H)]].
  - exact (vldt_mom_sel_consistent s s' H).
  - unfold auto_mom_sel in H.
    destruct (auto_mom_sel_body (fl N) wa wc s) as [s1|] eqn:E; [|discriminate].
    cbn [obind] in H.
    destruct (auto_mom_sel_body_frame (fl N) _ _ _ _ E) as (Hc & _).
    destruct b.
    + injection H as <-. exact Hc.
    + exact (proj1 (anls_mom_consistent N s1 s' H Hc)).
  - destruct (chng_mom_sel_steps N t p v s s' H) as (s1 & Hc & _ & Ha).
    exact (proj1 (anls_mom_consistent N s1 s' Ha Hc)).
Qed.

Lemma anls_nln_dyn (N : numerics) (s s' : core) :
  anls_nln N s = Some s' -> dyn s' = dyn s.
Proof.
  unfold anls_nln. destruct (anls_nln_norun _).
  - intros H. injection H as <-. reflexivity.
  - destruct (nln_sel (nsel (rset_var_nln_res s))) as [c|]; [|discriminate].
    cbn [obind]. destruct (curve_fit N _) as [f|].
    + destruct (calc_nln_cur N _ f) as [ion|]; [|discriminate].
      cbn [obind]. intros H. injection H as <-. reflexivity.
    + intros H. injection H as <-. reflexivity.
Qed.

Lemma prop_nln_sel_dyn (N : numerics) (pnt : option (Z * Z * Z)) (s s' : core) :
  prop_nln_sel N pnt s = Some s' -> dyn s' = dyn s.
Proof.
  unfold prop_nln_sel.
  set (s1 := match pnt with
             | Some (t, p, v) => emit (janus_chng_nln_sel_cur t p v) _
             | None => emit janus_chng_nln_sel_all _
             end).
  assert (E : dyn s1 = dyn s) by (unfold s1; destruct pnt as [[[t p] v]|]; reflexivity).
  destruct (dyn_nln (dyn s1)).
  - intros H. rewrite (anls_nln_dyn N s1 s' H). exact E.
  - intros H. injection H as <-. rewrite <- E. unfold chng_dsp.
    destruct (dsp s1) as [d|]; [destruct (dsp_eqb d dsp_gsl)|]; reflexivity.
Qed.

(** C9, as the code does it.  A manual toggle of one bin of the moments
    selection switches [dyn_mom] on before the moments analysis is re-run
    once, and [dyn_mom] is [True] afterwards; a manual toggle of one bin of
    the fit selection switches [dyn_sel] off before the selection is
    propagated once, and [dyn_sel] is [False] afterwards. *)
Theorem chng_sel_dyn (N : numerics) (t p v : Z) (s s' : core) :
  (chng_mom_sel N t p v s = Some s' ->
     dyn_mom (dyn s') = true /\
     exists s1, dyn_mom (dyn s1) = true /\ anls_mom N s1 = Some s') /\
  (chng_nln_sel N t p v s = Some s' ->
     dyn_sel (dyn s') = false /\
     exists s1, dyn_sel (dyn s1) = false /\
                prop_nln_sel N (Some (t, p, v)) s1 = Some s').
Proof.
  split; intros H.
  - destruct (chng_mom_sel_steps N t p v s s' H) as (s1 & Hc & Hd & Ha).
    split; [|exists s1; split; assumption].
    rewrite (proj2 (anls_mom_consistent N s1 s' Ha Hc)). exact Hd.
  - unfold chng_nln_sel in H.
    destruct (cube_toggle _ t p v) as [c'|]; [|discriminate]. cbn [obind] in H.
    pose proof (chng_dyn_sel false s) as Hd.
    split.
    + rewrite (prop_nln_sel_dyn N _ _ s' H). exact Hd.
    + eexists. split; [|exact H]. exact Hd.
Qed.

(** ** The selection step always returns *)

Lemma omap_total {A B : Type} (f : A -> option B) (l : list A) :
  (forall a, In a l -> exists b, f a = Some b) -> exists bs, omap f l = Some bs.
Proof.
  induction l as [|a l IH]; intros H; simpl; [eexists; reflexivity|].
  destruct (H a (or_introl eq_refl)) as (b & ->).
  destruct IH as (bs & ->); [intros x Hx; apply H; right; exact Hx|].
  eexists. reflexivity.
Qed.

Lemma fold_Qmaxb_in (l : list Q) (x : Q) :
  In (fold_left Qmaxb l x) (x :: l).
Proof.
  revert x. induction l as [|y l IH]; intros x; simpl; [left; reflexivity|].
  destruct (IH (Qmaxb x y)) as [H|H].
  - unfold Qmaxb in H at 1. destruct (Qltb x y); [right; left|left]; exact H.
  - right. right. exact H.
Qed.

Lemma py_max_in (l : list Q) (m : Q) : py_max l = Some m -> In m l.
Proof.
  destruct l as [|x l]; simpl; [discriminate|].
  intros H. injection H as <-. apply fold_Qmaxb_in.
Qed.

Lemma first_index_exists (cond : Q -> bool) (l : list Q) (y : Q) :
  In y l -> cond y = true -> exists i, first_index cond l = Some i.
Proof.
  induction l as [|x l IH]; simpl; [intros []|].
  intros Hin Hc. destruct (cond x) eqn:E; [eexists; reflexivity|].
  destruct Hin as [->|Hin]; [congruence|].
  destruct (IH Hin Hc) as (i & ->). eexists. reflexivity.
Qed.

Lemma sel_azm_row_total (A : arith) (w : swe_t) (win_azm : Z) (t : nat) :
  0 < n_azm w -> exists r, sel_azm_row A w win_azm t = Some r.
Proof.
  intros Hz. unfold sel_azm_row. cbv zeta.
  set (mm_row := map (mm_cur_dir A _ (n_azm w) win_azm) (seq 0 (n_azm w))).
  destruct (py_max mm_row) as [m|] eqn:Em.
  - cbn [obind].
    destruct (first_index_exists (fun x => Qeq_bool x m) mm_row m (py_max_in _ _ Em))
      as (i & ->); [apply Qeq_bool_refl|].
    cbn [obind]. eexists. reflexivity.
  - exfalso. unfold mm_row in Em. destruct (n_azm w); [lia|]. discriminate.
Qed.

Lemma vldt_mom_sel_total (s : core) (a : list (list bool)) (c : list (list (list bool))) :
  mom_sel_azm (sel s) = Some a -> mom_sel_cur (sel s) = Some c ->
  exists s', vldt_mom_sel s = Some s'.
Proof.
  intros Ha Hc. unfold vldt_mom_sel. rewrite Ha, Hc. cbn [obind].
  eexists. reflexivity.
Qed.

(** C2.  Whatever the selection arrays hold, the validation returns, and
    validating a second time changes nothing: the second call returns the
    state the first one left, so [mom_sel_azm], [mom_n_sel_azm] and
    [mom_n_sel_cur] are the same and no signal is emitted. *)
Theorem vldt_mom_sel_idempotent (s : core) (a : list (list bool))
  (c : list (list (list bool))) :
  mom_sel_azm (sel s) = Some a -> mom_sel_cur (sel s) = Some c ->
  exists s1,
    vldt_mom_sel s = Some s1 /\
    vldt_mom_sel s1 = Some s1 /\
    forall s2, vldt_mom_sel s1 = Some s2 ->
      mom_sel_azm (sel s2) = mom_sel_azm (sel s1) /\
      mom_n_sel_azm (sel s2) = mom_n_sel_azm (sel s1) /\
      mom_n_sel_cur (sel s2) = mom_n_sel_cur (sel s1) /\
      signals s2 = signals s1.
Proof.
  intros Ha Hc. destruct (vldt_mom_sel_total s a c Ha Hc) as (s1 & H1).
  exists s1. split; [exact H1|].
  pose proof (vldt_mom_sel_fixpoint s s1 H1) as H2.
  split; [exact H2|].
  intros s2 H3. rewrite H2 in H3. injection H3 as <-. repeat split.
Qed.

Lemma auto_mom_sel_body_total (A : arith) (wa wc : win_arg) (s : core) :
  n_alt (swe s) = 0 \/ 0 < n_azm (swe s) ->
  exists s', auto_mom_sel_body A wa wc s = Some s'.
Proof.
  intros Hd. unfold auto_mom_sel_body.
  match goal with
  | |- context [auto_mom_sel_azm A ?x] => set (s0 := x)
  end.
  assert (Hrows : exists rows,
            omap (sel_azm_row A (swe s0) (mom_win_azm (win s0))) (seq 0 (n_alt (swe s0)))
            = Some rows).
  { apply omap_total. intros t Ht. apply in_seq in Ht.
    apply sel_azm_row_total. change (swe s0) with (swe s) in *. lia. }
  destruct Hrows as (rows & Hrows).
  unfold auto_mom_sel_azm. rewrite Hrows. cbn [obind].
  unfold auto_mom_sel_cur. cbn [obind sel with_sel mom_sel_azm].
  eapply vldt_mom_sel_total; reflexivity.
Qed.

Lemma anls_mom_sel_total (A : arith) (s : core) :
  n_alt (swe s) = 0 \/ 0 < n_azm (swe s) ->
  exists s1, anls_mom_sel A s = Some s1.
Proof.
  intros Hd. unfold anls_mom_sel.
  destruct (mom_sel_azm (sel (rset_var_mom_res s)));
    [destruct (mom_sel_cur (sel (rset_var_mom_res s)))|];
    try (eexists; reflexivity); apply auto_mom_sel_body_total; exact Hd.
Qed.

Lemma anls_mom_sel_frame (A : arith) (s s1 : core) :
  anls_mom_sel A s = Some s1 ->
  swe s1 = swe s /\ mom s1 = mom_res_reset /\ gss s1 = gss s /\ nres s1 = nres s /\
  dsp s1 = dsp s /\ dyn s1 = dyn s /\ series s1 = series s /\
  (forall a c, mom_sel_azm (sel s) = Some a -> mom_sel_cur (sel s) = Some c ->
     sel s1 = sel s /\ signals s1 = signals s).
Proof.
  unfold anls_mom_sel. intros H.
  destruct (mom_sel_azm (sel (rset_var_mom_res s))) as [a|] eqn:Ea;
    [destruct (mom_sel_cur (sel (rset_var_mom_res s))) as [c|] eqn:Ec|].
  - injection H as <-. cbn. repeat split.
  - destruct (auto_mom_sel_body_frame A _ _ _ _ H)
      as (_ & Hswe & _ & Hmom & Hgss & Hnres & Hdsp & Hdyn & Hser & _).
    cbn in Hswe, Hmom, Hgss, Hnres, Hdsp, Hdyn, Hser.
    repeat split; try assumption; cbn in Ec; congruence.
  - destruct (auto_mom_sel_body_frame A _ _ _ _ H)
      as (_ & Hswe & _ & Hmom & Hgss & Hnres & Hdsp & Hdyn & Hser & _).
    cbn in Hswe, Hmom, Hgss, Hnres, Hdsp, Hdyn, Hser.
    repeat split; try assumption; cbn in Ea; congruence.
Qed.

(** C7, as the code does it.  [anls_mom] first resets the moments results
    and, if the selection arrays are not populated, runs the automatic
    selection; this step always returns.  If then no spectrum is loaded
    ([time_epc] is [None] or [n_vel = 0]) or fewer than [mom_min_sel_azm]
    look directions are selected, [anls_mom] returns with every moments
    result at its reset value after emitting the did-not-run and the
    results-changed notifications, and computes nothing: guess, fit results,
    results log, displayed analysis and dynamic flags are as before.  When
    the selection arrays are populated on entry, the selection tested is the
    one [anls_mom] was called with. *)
Theorem anls_mom_norun_resets (N : numerics) (s : core) :
  n_alt (swe s) = 0 \/ 0 < n_azm (swe s) ->
  exists s1,
    anls_mom_sel (fl N) s = Some s1 /\
    (forall a c, mom_sel_azm (sel s) = Some a -> mom_sel_cur (sel s) = Some c ->
       sel s1 = sel s /\ signals s1 = signals s) /\
    (time_epc (swe s) = None \/ n_vel (swe s) = 0
     \/ mom_n_sel_azm (sel s1) < mom_min_sel_azm (sel s1) ->
     exists s',
       anls_mom N s = Some s' /\
       mom s' = mom_res_reset /\
       signals s' = signals s1 ++ [janus_mesg m_norun o_mom; janus_chng_mom_res] /\
       sel s' = sel s1 /\
       gss s' = gss s /\ nres s' = nres s /\ series s' = series s /\
       dsp s' = dsp s /\ dyn s' = dyn s).
Proof.
  intros Hd. destruct (anls_mom_sel_total (fl N) s Hd) as (s1 & H1).
  exists s1. split; [exact H1|].
  destruct (anls_mom_sel_frame (fl N) s s1 H1)
    as (Hswe & Hmom & Hgss & Hnres & Hdsp & Hdyn & Hser & Hpop).
  split; [exact Hpop|]. intros Hgate.
  assert (G : anls_mom_norun s1 = true).
  { unfold anls_mom_norun. rewrite Hswe.
    destruct Hgate as [Ht|[Hv|Hn]].
    - rewrite Ht. reflexivity.
    - rewrite Hv. apply orb_true_iff. left. apply orb_true_r.
    - apply orb_true_iff. right. apply Nat.ltb_lt. exact Hn. }
  exists (emit janus_chng_mom_res (emit (janus_mesg m_norun o_mom) s1)).
  split.
  - unfold anls_mom. rewrite H1. cbn [obind]. rewrite G. reflexivity.
  - cbn. rewrite <- app_assoc. repeat split; assumption.
Qed.

(** ** The non-linear analysis *)

(** C6.  If the optimisation raises, [anls_nln] returns with every
    fit-result variable at its freshly reset value, the failure notification
    emitted between the begin and the results-changed notifications, and
    nothing appended to the results log. *)
Theorem anls_nln_fail_resets (N : numerics) (s : core) (c : list (list (list bool))) :
  anls_nln_norun (rset_var_nln_res s) = false ->
  nln_sel (nsel s) = Some c ->
  curve_fit N (anls_nln_setup (rset_var_nln_res s) c) = None ->
  exists s',
    anls_nln N s = Some s' /\
    nres s' = nln_res_reset /\
    nln_res_plas (nres s') = plas_new /\ nln_res_sel (nres s') = None /\
    nln_res_cur_tot (nres s') = None /\ nln_res_cur_ion (nres s') = None /\
    series s' = series s /\
    signals s' = signals s ++ [janus_mesg m_begin o_nln; janus_mesg m_fail o_nln;
                               janus_chng_nln_res] /\
    swe s' = swe s /\ sel s' = sel s /\ mom s' = mom s /\ gss s' = gss s /\
    nsel s' = nsel s /\ dsp s' = dsp s /\ dyn s' = dyn s.
Proof.
  intros Hgate Hc Hfit. eexists. split.
  - unfold anls_nln. rewrite Hgate.
    change (nsel (rset_var_nln_res s)) with (nsel s). rewrite Hc. cbn [obind].
    rewrite Hfit. reflexivity.
  - cbn. rewrite <- !app_assoc. repeat split.
Qed.

(** ** The window chosen in each look direction *)

Lemma filter_all {A : Type} (f : A -> bool) (l : list A) :
  (forall x, In x l -> f x = true) -> filter f l = l.
Proof.
  induction l as [|a l IH]; intros H; simpl; [reflexivity|].
  rewrite (H a (or_introl eq_refl)), IH; [reflexivity|].
  intros x Hx. apply H. right. exact Hx.
Qed.

Lemma filter_none {A : Type} (f : A -> bool) (l : list A) :
  (forall x, In x l -> f x = false) -> filter f l = [].
Proof.
  induction l as [|a l IH]; intros H; simpl; [reflexivity|].
  rewrite (H a (or_introl eq_refl)). apply IH.
  intros x Hx. apply H. right. exact Hx.
Qed.

Lemma map_combine_seq_repeat {B : Type} (f : nat * bool -> B) (b : bool) (n a : nat) :
  map f (combine (seq a n) (repeat b n)) = map (fun i => f (i, b)) (seq a n).
Proof.
  revert a. induction n as [|n IH]; intros a; simpl; [reflexivity|].
  rewrite IH. reflexivity.
Qed.

Lemma set_slice_true_repeat (n start : nat) (stop : Z) :
  set_slice_true (repeat false n) start stop
  = map (fun i => (start <=? i) && (i <? slice_stop n stop)) (seq 0 n).
Proof.
  unfold set_slice_true. rewrite repeat_length, map_combine_seq_repeat.
  apply map_ext. intros i. simpl.
  destruct ((start <=? i) && (i <? slice_stop n stop)); reflexivity.
Qed.

Lemma count_true_window (v_0 w n : nat) :
  v_0 + w <= n ->
  count_true (map (fun i => (v_0 <=? i) && (i <? v_0 + w)) (seq 0 n)) = w.
Proof.
  intros H. rewrite count_true_map.
  replace n with (v_0 + (w + (n - v_0 - w))) by lia.
  rewrite seq_app, (seq_app w), !filter_app, !length_app.
  rewrite (filter_none _ (seq 0 v_0)), (filter_all _ (seq (0 + v_0) w)), filter_none.
  - simpl. rewrite length_seq. lia.
  - intros x Hx. apply in_seq in Hx. apply andb_false_iff. right.
    apply Nat.ltb_ge. lia.
  - intros x Hx. apply in_seq in Hx. apply andb_true_iff. split.
    + apply Nat.leb_le. lia.
    + apply Nat.ltb_lt. lia.
  - intros x Hx. apply in_seq in Hx. apply andb_false_iff. left.
    apply Nat.leb_gt. lia.
Qed.

Lemma Qltb_lt (x y : Q) : Qltb x y = true <-> (x < y)%Q.
Proof.
  unfold Qltb. rewrite negb_true_iff. split.
  - intros H. apply Qnot_le_lt. intros Hle.
    apply Qle_bool_iff in Hle. congruence.
  - intros H. destruct (Qle_bool y x) eqn:E; [|reflexivity].
    apply Qle_bool_iff in E. exfalso. exact (Qlt_not_le _ _ H E).
Qed.

Lemma Qltb_ge (x y : Q) : Qltb x y = false <-> (y <= x)%Q.
Proof.
  unfold Qltb. rewrite negb_false_iff. apply Qle_bool_iff.
Qed.

(** The start found by the search is zero or one of the candidates. *)
Lemma pick_window_range (A : arith) (row : list Q) (vld : list bool) (n_vel : nat) (win_cur : Z) :
  pick_window A row vld n_vel win_cur = 0
  \/ In (pick_window A row vld n_vel win_cur) (window_starts n_vel win_cur).
Proof.
  unfold pick_window.
  assert (G : forall l acc,
             fst acc = 0 \/ In (fst acc) (window_starts n_vel win_cur) ->
             incl l (window_starts n_vel win_cur) ->
             fst (fold_left (window_step A row vld n_vel win_cur) l acc) = 0
             \/ In (fst (fold_left (window_step A row vld n_vel win_cur) l acc))
                   (window_starts n_vel win_cur)).
  { induction l as [|v l IH]; intros acc Hacc Hl; simpl; [exact Hacc|].
    apply IH.
    - unfold window_step. destruct (Qltb _ _); [|exact Hacc].
      right. apply Hl. left. reflexivity.
    - intros x Hx. apply Hl. right. exact Hx. }
  apply G; [left; reflexivity|apply incl_refl].
Qed.

(** When no candidate window of a look direction holds a valid current,
    every candidate sums to the sum of an empty array, which is zero, and
    the search stays at bin 0. *)
Lemma pick_window_all_invalid (A : arith) (row : list Q) (vld : list bool) (n_vel : nat)
  (win_cur : Z) :
  (f_sum A [] == 0)%Q ->
  (forall v i, In v (window_starts n_vel win_cur) ->
     v <= i -> (Z.of_nat i < Z.of_nat v + win_cur)%Z -> i < n_vel ->
     nth i vld false = false) ->
  pick_window A row vld n_vel win_cur = 0.
Proof.
  intros H0 H. unfold pick_window.
  assert (S0 : forall v, In v (window_starts n_vel win_cur) ->
             window_sum A row vld n_vel win_cur v = f_sum A []).
  { intros v Hv. unfold window_sum. rewrite filter_none; [reflexivity|].
    intros i Hi. apply in_seq in Hi.
    destruct (v <=? i) eqn:E1; [|reflexivity].
    destruct (Z.of_nat i <? Z.of_nat v + win_cur)%Z eqn:E2; [|reflexivity].
    apply Nat.leb_le in E1. apply Z.ltb_lt in E2.
    rewrite (H v i Hv E1 E2) by lia. reflexivity. }
  assert (L0 : Qltb 0 (f_sum A []) = false).
  { apply Qltb_ge. rewrite H0. apply Qle_refl. }
  revert S0. generalize (window_starts n_vel win_cur) as l.
  induction l as [|v l IH]; intros S0; simpl; [reflexivity|].
  unfold window_step at 2. rewrite S0 by (left; reflexivity). cbn [snd]. rewrite L0.
  apply IH. intros v' Hv'. apply S0. right. exact Hv'.
Qed.

Lemma grid_get_tile2_false (n1 n2 t p : nat) :
  grid_get false (tile2 false n1 n2) t p = false.
Proof.
  unfold grid_get, tile2. destruct (Nat.lt_ge_cases t n1) as [Ht|Ht].
  - rewrite (nth_indep _ [] (repeat false n2)) by (rewrite repeat_length; exact Ht).
    rewrite nth_repeat. apply nth_repeat.
  - rewrite (nth_overflow (repeat (repeat false n2) n1) [])
      by (rewrite repeat_length; exact Ht).
    destruct p; reflexivity.
Qed.

Lemma count_true_repeat_false (n : nat) : count_true (repeat false n) = 0.
Proof. unfold count_true. induction n as [|n IH]; simpl; [reflexivity|exact IH]. Qed.

(** The selection left by [auto_mom_sel] up to the validation.  [azm0] is
    the mask of look directions that [auto_mom_sel_azm] computes with the
    clamped width.  In every look direction of [azm0] the bins selected are
    exactly the window of [mom_win_cur] bins that the search picked, and in
    every other look direction no bin is selected; the validation that
    follows changes no bin. *)
Lemma auto_mom_sel_body_window (A : arith) (wa wc : win_arg) (s s' : core) :
  auto_mom_sel_body A wa wc s = Some s' ->
  exists sa azm0 azm c w,
    auto_mom_sel_azm A (with_win s (win s')) = Some sa /\
    mom_sel_azm (sel sa) = Some azm0 /\
    mom_sel_azm (sel s') = Some azm /\
    mom_sel_cur (sel s') = Some c /\
    mom_win_cur (win s') = Z.of_nat w /\
    w <= n_vel (swe s') /\
    (forall t p, t < n_alt (swe s') -> p < n_azm (swe s') ->
       let v_0 := pick_window A (cube_row (cur (swe s')) t p)
                              (cube_row (cur_vld (swe s')) t p)
                              (n_vel (swe s')) (Z.of_nat w) in
       v_0 + w <= n_vel (swe s') /\
       cube_row c t p
       = (if grid_get false azm0 t p
          then map (fun v => (v_0 <=? v) && (v <? v_0 + w)) (seq 0 (n_vel (swe s')))
          else repeat false (n_vel (swe s'))) /\
       count_true (cube_row c t p) = (if grid_get false azm0 t p then w else 0)) /\
    (0 < mom_min_sel_cur (sel s) ->
     forall t p, t < n_alt (swe s') -> p < n_azm (swe s') ->
       grid_get false azm t p = true -> grid_get false azm0 t p = true).
Proof.
  intros H.
  destruct (auto_mom_sel_body_result A wa wc s s' H) as (azm0 & s2 & R).
  cbv zeta in R.
  destruct R as (Hrows & Hv & Ha2 & Hc2 & _ & Hmc & Hswe2 & _ & Hw & Hwa & _).
  destruct (vldt_mom_sel_result s2 s' Hv) as (old & c & Ho & Hc & R).
  cbv zeta in R. destruct R as (Hsel & Hswe & _ & Hwin & _).
  rewrite Hc2 in Hc. injection Hc as <-.
  rewrite Hsel, Hswe, !Hswe2, Hwin, Hw, !Hmc. cbn [mom_sel_azm mom_sel_cur].
  set (na := n_alt (swe s)). set (nz := n_azm (swe s)). set (nv := n_vel (swe s)).
  set (w_cur := win_clamp _ (mom_min_sel_cur (sel s)) nv).
  set (c := map (fun t => map (sel_cur_row A (swe s) w_cur azm0 t) (seq 0 nz)) (seq 0 na)).
  set (n_cur := count_grid na nz c).
  pose proof (win_clamp_range
                (win_eff (win_req wc (mom_win_cur_req (win s))) (mom_win_cur (win s)))
                (mom_min_sel_cur (sel s)) nv) as Hr.
  fold w_cur in Hr.
  assert (Hrow : forall t p, t < na -> p < nz ->
            cube_row c t p = sel_cur_row A (swe s) w_cur azm0 t p).
  { intros t p Ht Hp. unfold cube_row, c.
    rewrite (nth_map_seq [] (fun t => map (sel_cur_row A (swe s) w_cur azm0 t) (seq 0 nz)))
      by exact Ht.
    apply nth_map_seq. exact Hp. }
  assert (Hwindow : forall t p, t < na -> p < nz ->
            let v_0 := pick_window A (cube_row (cur (swe s)) t p)
                                   (cube_row (cur_vld (swe s)) t p) nv
                                   (Z.of_nat (Z.to_nat w_cur)) in
            v_0 + Z.to_nat w_cur <= nv /\
            cube_row c t p
            = (if grid_get false azm0 t p
               then map (fun v => (v_0 <=? v) && (v <? v_0 + Z.to_nat w_cur)) (seq 0 nv)
               else repeat false nv) /\
            count_true (cube_row c t p)
            = (if grid_get false azm0 t p then Z.to_nat w_cur else 0)).
  { intros t p Ht Hp. cbv zeta. rewrite Z2Nat.id by lia.
    set (v_0 := pick_window A _ _ nv w_cur).
    assert (Hv0 : v_0 + Z.to_nat w_cur <= nv).
    { destruct (pick_window_range A (cube_row (cur (swe s)) t p)
                  (cube_row (cur_vld (swe s)) t p) nv w_cur) as [E|E];
        fold v_0 in E.
      - lia.
      - unfold window_starts in E. apply in_seq in E. lia. }
    assert (Hstop : slice_stop nv (Z.of_nat v_0 + w_cur) = v_0 + Z.to_nat w_cur).
    { unfold slice_stop.
      destruct (Z.ltb_spec (Z.of_nat v_0 + w_cur) 0); lia. }
    split; [exact Hv0|].
    rewrite (Hrow t p Ht Hp). unfold sel_cur_row.
    destruct (grid_get false azm0 t p).
    - fold nv v_0. rewrite set_slice_true_repeat, Hstop.
      split; [reflexivity|]. apply count_true_window. exact Hv0.
    - split; [reflexivity|]. apply count_true_repeat_false. }
  eexists _, azm0, _, c, (Z.to_nat w_cur).
  split.
  { unfold auto_mom_sel_azm. cbn [swe win with_win mom_win_azm].
    rewrite Hwa, Hrows. reflexivity. }
  split; [reflexivity|]. split; [reflexivity|]. split; [reflexivity|].
  split; [lia|]. split; [lia|]. split; [exact Hwindow|].
  intros Hmin t p Ht Hp Hsel'.
  destruct (Hwindow t p Ht Hp) as (_ & _ & Hcnt).
  destruct (grid_get false azm0 t p); [reflexivity|].
  exfalso.
  destruct (count_true2 _ <? mom_min_sel_azm (sel s2)) in Hsel'.
  - rewrite grid_get_tile2_false in Hsel'. discriminate.
  - fold na nz n_cur in Hsel'.
    rewrite (grid_get_map_seq false
               (fun t p => mom_min_sel_cur (sel s) <=? grid_get 0 n_cur t p))
      in Hsel' by assumption.
    apply Nat.leb_le in Hsel'. unfold n_cur, count_grid in Hsel'.
    rewrite (grid_get_map_seq 0 (fun t p => count_true (cube_row c t p)))
      in Hsel' by assumption.
    lia.
Qed.

(** C10.  After the automatic selection, every look direction that
    [auto_mom_sel_azm] selected has exactly [mom_win_cur] contiguous bins
    selected in [mom_sel_cur]: the whole window that the search picked,
    whatever the validity of its bins; every other look direction has no
    bin selected; and when no candidate window of the look direction holds
    a valid current, the window starts at bin 0.  [azm0] is the mask that [auto_mom_sel_azm]
    computes with the clamped width; a look direction that is still marked
    after the validation is one of [azm0].  The sum of an empty array is
    taken to be zero, as numpy returns it. *)
Theorem auto_mom_sel_whole_window (N : numerics) (wa wc : win_arg) (b : bool)
  (s s' : core) :
  auto_mom_sel N wa wc b s = Some s' ->
  (f_sum (fl N) [] == 0)%Q ->
  exists sa azm0 azm c w,
    auto_mom_sel_azm (fl N) (with_win s (win s')) = Some sa /\
    mom_sel_azm (sel sa) = Some azm0 /\
    mom_sel_azm (sel s') = Some azm /\
    mom_sel_cur (sel s') = Some c /\
    mom_win_cur (win s') = Z.of_nat w /\
    w <= n_vel (swe s') /\
    (forall t p, t < n_alt (swe s') -> p < n_azm (swe s') ->
       let v_0 := pick_window (fl N) (cube_row (cur (swe s')) t p)
                              (cube_row (cur_vld (swe s')) t p)
                              (n_vel (swe s')) (Z.of_nat w) in
       v_0 + w <= n_vel (swe s') /\
       cube_row c t p
       = (if grid_get false azm0 t p
          then map (fun v => (v_0 <=? v) && (v <? v_0 + w)) (seq 0 (n_vel (swe s')))
          else repeat false (n_vel (swe s'))) /\
       count_true (cube_row c t p) = (if grid_get false azm0 t p then w else 0) /\
       ((forall v i, v + w < n_vel (swe s') -> v <= i < v + w ->
           nth i (cube_row (cur_vld (swe s')) t p) false = false) ->
        v_0 = 0)) /\
    (0 < mom_min_sel_cur (sel s) ->
     forall t p, t < n_alt (swe s') -> p < n_azm (swe s') ->
       grid_get false azm t p = true -> grid_get false azm0 t p = true).
Proof.
  intros H H0. unfold auto_mom_sel in H.
  destruct (auto_mom_sel_body (fl N) wa wc s) as [s1|] eqn:E; [|discriminate].
  cbn [obind] in H.
  destruct (auto_mom_sel_body_window (fl N) wa wc s s1 E)
    as (sa & azm0 & azm & c & w & Hsa & Ha0 & Ha & Hc & Hw & Hle & Hwin & Hsub).
  assert (F : swe s' = swe s1 /\ win s' = win s1 /\ sel s' = sel s1).
  { destruct b.
    - injection H as <-. repeat split.
    - destruct (anls_mom_frame N s1 s' H) as (s1' & H1 & Hswe & _ & Hwi & Hsel & _).
      rewrite (anls_mom_sel_populated (fl N) s1 azm c Ha Hc) in H1. injection H1 as <-.
      repeat split; assumption. }
  destruct F as (-> & -> & ->).
  exists sa, azm0, azm, c, w.
  split; [exact Hsa|]. split; [exact Ha0|]. split; [exact Ha|]. split; [exact Hc|].
  split; [exact Hw|]. split; [exact Hle|]. split; [|exact Hsub].
  intros t p Ht Hp. cbv zeta.
  destruct (Hwin t p Ht Hp) as (Hv0 & Hrow & Hcnt).
  split; [exact Hv0|]. split; [exact Hrow|]. split; [exact Hcnt|].
  intros Hinv. apply pick_window_all_invalid; [exact H0|].
  intros v i Hv Hvi Hiw Hi. unfold window_starts in Hv. apply in_seq in Hv.
  apply (Hinv v i); lia.
Qed.

(** ** What the search returns *)

(** X7.  Among the candidate starts [0 .. n_vel - win_cur - 1] the search returns
    the first one whose sum of valid currents, as numpy computes it, is the
    largest, provided that sum is positive; when no candidate has a positive
    sum it returns 0.  This holds whatever the rounding of the sums. *)
Lemma pick_window_first_max (A : arith) (row : list Q) (vld : list bool) (n_vel : nat)
  (win_cur : Z) :
  let sum := window_sum A row vld n_vel win_cur in
  let m := Z.to_nat (Z.of_nat n_vel - win_cur) in
  let v_0 := pick_window A row vld n_vel win_cur in
  (v_0 = 0 /\ forall v, v < m -> (sum v <= 0)%Q)
  \/ (v_0 < m /\ (0 < sum v_0)%Q /\
      (forall v, v < m -> (sum v <= sum v_0)%Q) /\
      (forall v, v < v_0 -> (sum v < sum v_0)%Q)).
Proof.
  cbv zeta. unfold pick_window, window_starts.
  set (sum := window_sum A row vld n_vel win_cur).
  set (step := window_step A row vld n_vel win_cur).
  generalize (Z.to_nat (Z.of_nat n_vel - win_cur)) as m.
  assert (G : forall m,
    let acc := fold_left step (seq 0 m) (0, 0%Q) in
    (fst acc = 0 /\ snd acc = 0%Q /\ forall v, v < m -> (sum v <= 0)%Q)
    \/ (fst acc < m /\ snd acc = sum (fst acc) /\ (0 < sum (fst acc))%Q /\
        (forall v, v < m -> (sum v <= sum (fst acc))%Q) /\
        (forall v, v < fst acc -> (sum v < sum (fst acc))%Q))).
  { induction m as [|m IH]; cbv zeta.
    - left. simpl. split; [reflexivity|]. split; [reflexivity|]. intros v Hv. lia.
    - rewrite seq_S, fold_left_app. simpl.
      set (acc := fold_left step (seq 0 m) (0, 0%Q)) in *.
      assert (Es : step acc m = if Qltb (snd acc) (sum m) then (m, sum m) else acc)
        by reflexivity.
      rewrite Es. clear Es.
      destruct (Qltb (snd acc) (sum m)) eqn:E.
      + apply Qltb_lt in E. right. simpl.
        assert (Hm : forall v, v < m -> (sum v <= snd acc)%Q).
        { cbv zeta in IH.
          destruct IH as [(H0 & Hc & Hall)|(Hlt & Hc & Hpos & Hall & Hfirst)];
            rewrite Hc; intros v Hv; apply Hall; exact Hv. }
        assert (Hp : (0 <= snd acc)%Q).
        { cbv zeta in IH.
          destruct IH as [(H0 & Hc & Hall)|(Hlt & Hc & Hpos & Hall & Hfirst)];
            rewrite Hc; [apply Qle_refl|apply Qlt_le_weak; exact Hpos]. }
        split; [lia|]. split; [reflexivity|].
        split; [apply Qle_lt_trans with (snd acc); assumption|].
        split.
        * intros v Hv. destruct (Nat.eq_dec v m) as [->|Hne]; [apply Qle_refl|].
          apply Qle_trans with (snd acc); [apply Hm; lia|apply Qlt_le_weak; exact E].
        * intros v Hv. apply Qle_lt_trans with (snd acc); [apply Hm; exact Hv|exact E].
      + apply Qltb_ge in E.
        cbv zeta in IH. destruct IH as [(H0 & Hc & Hall)|(Hlt & Hc & Hpos & Hall & Hfirst)].
        * left. rewrite Hc in E.
          split; [exact H0|]. split; [exact Hc|].
          intros v Hv. destruct (Nat.eq_dec v m) as [->|Hne]; [exact E|apply Hall; lia].
        * right. rewrite Hc in E.
          split; [lia|]. split; [exact Hc|]. split; [exact Hpos|].
          split; [|exact Hfirst].
          intros v Hv. destruct (Nat.eq_dec v m) as [->|Hne]; [exact E|apply Hall; lia]. }
  intros m. specialize (G m). cbv zeta in G.
  destruct G as [(H0 & _ & Hall)|(Hlt & _ & Hpos & Hall & Hfirst)].
  - left. split; assumption.
  - right. split; [exact Hlt|]. split; [exact Hpos|]. split; assumption.
Qed.

(** ** The search skips the last window *)

(** C5, the code at a failing input.  Thirty valid bins, 1 pA in the first
    twenty-three and 50 pA in the last seven, window width 7: the window
    that starts at bin 23 lies within the spectrum and has the largest sum,
    350 pA, but it is not among the candidates; the search returns the
    window that starts at bin 22, whose sum is 301 pA, and the automatic
    selection leaves bin 29 unselected.  The currents are small integers,
    whose sums double precision computes without rounding. *)
Theorem pick_window_skips_last_start :
  pick_window arith_exact row_top (repeat true 30) 30 7 = 22 /\
  window_sum arith_exact row_top (repeat true 30) 30 7 22 = 301%Q /\
  window_sum arith_exact row_top (repeat true 30) 30 7 23 = 350%Q /\
  23 + 7 <= 30 /\
  window_starts 30 7 = seq 0 23 /\
  option_map (fun c => cube_row c 0 0) (mom_sel_cur (sel core_selected))
  = Some (map (fun v => (22 <=? v) && (v <? 29)) (seq 0 30)).
Proof.
  split; [vm_compute; reflexivity|].
  split; [vm_compute; reflexivity|].
  split; [vm_compute; reflexivity|].
  split; [lia|].
  split; vm_compute; reflexivity.
Qed.

(** ** Thermal speed along the look direction *)


(** C8, the code at a failing input.  For any look direction and a unit
    magnetic-field vector perpendicular to it, with thermal speeds 1
    (perpendicular) and 2 (parallel), the forward model's effective thermal
    speed is the perpendicular one, 1, while the fit selection computes 2:
    it takes the sine and cosine of the dot product itself rather than of
    the angle. *)
Theorem auto_nln_sel_w_differs (alt azm : R) :
  let dlk := calc_dir_look alt azm in
  let dmg := (- sin (deg2rad (- azm)), cos (deg2rad (- azm)), 0)%R in
  dot3 dmg dmg = 1%R /\
  calc_cur_bmx_w dmg dlk 1 2 = 1%R /\
  auto_nln_sel_w dlk dmg 1 2 = 2%R /\
  auto_nln_sel_w dlk dmg 1 2 <> calc_cur_bmx_w dmg dlk 1 2.
Proof.
  cbv zeta. unfold calc_dir_look. cbv zeta.
  set (st := sin (deg2rad (- alt + 90))). set (ct := cos (deg2rad (- alt + 90))).
  set (sp := sin (deg2rad (- azm))). set (cp := cos (deg2rad (- azm))).
  assert (E0 : dot3 (- sp, cp, 0)%R (- sp, cp, 0)%R = 1%R).
  { unfold dot3. pose proof (sin2_cos2 (deg2rad (- azm))) as H.
    unfold Rsqr in H. fold sp cp in H. rewrite <- H. ring. }
  assert (E1 : calc_cur_bmx_w (- sp, cp, 0)%R (st * cp, st * sp, ct)%R 1 2 = 1%R).
  { unfold calc_cur_bmx_w, dot3. cbv zeta.
    replace (- sp * (st * cp) + cp * (st * sp) + 0 * ct)%R with 0%R by ring.
    replace ((1 - 0 ^ 2) * 1 ^ 2 + 0 ^ 2 * 2 ^ 2)%R with 1%R by ring.
    apply sqrt_1. }
  assert (E2 : auto_nln_sel_w (st * cp, st * sp, ct)%R (- sp, cp, 0)%R 1 2 = 2%R).
  { unfold auto_nln_sel_w, dot3. cbv zeta.
    replace (st * cp * - sp + st * sp * cp + ct * 0)%R with 0%R by ring.
    rewrite Rabs_R0, sin_0, cos_0.
    replace ((1 * 0) ^ 2 + (2 * 1) ^ 2)%R with (2 * 2)%R by ring.
    apply sqrt_square. lra. }
  split; [exact E0|]. split; [exact E1|]. split; [exact E2|].
  rewrite E1, E2. lra.
Qed.

(** * The properties on sample spectra *)

(** ** Truncation *)



(** ** Validity flagging *)

(** A spectrum cut down to one bin whose current, 0 pA, is below the floor
    of 1 pA: the bin is marked valid. *)
Lemma load_cur_vld_single_bin :
  option_map (fun w => (n_vel w, cube_row (cur w) 0 0, cube_row (cur_vld w) 0 0))
             (load_swe 0 raw_single)
  = Some (1, [0%Q], [true]) /\
  Qltb 0 (cur_min swe_reset) = true /\
  spec_invalid arith_exact (cur_min swe_reset) (cur_jmp swe_reset) [0%Q] 0 = true.
Proof.
  split; [vm_compute; reflexivity|]. split; reflexivity.
Qed.

(** A spectrum of six bins whose currents are 500, 2, 0, 2, 300 and 2 pA in
    every look direction, with the floor 1 pA and the jump factor 100: the
    first bin (above 100 times its neighbour), the third (below the floor)
    and the fifth (above 100 times both neighbours) are invalid; the fourth
    is valid although it is above 100 times its left neighbour. *)
Lemma load_cur_vld_spec_sample :
  shape3 2 20 6 (t_cur (load_trunc raw_spikes)) /\
  option_map (fun m => cube_row m 0 0)
             (load_cur_vld arith_exact 1 100 2 20 6 (t_cur (load_trunc raw_spikes)))
  = Some [false; true; false; true; false; true] /\
  exists m,
    load_cur_vld arith_exact 1 100 2 20 6 (t_cur (load_trunc raw_spikes)) = Some m /\
    forall t p v, t < 2 -> p < 20 -> v < 6 ->
      nth v (cube_row m t p) true
      = if 6 <? 2 then true
        else negb (spec_invalid arith_exact 1 100
                     (cube_row (t_cur (load_trunc raw_spikes)) t p) v).
Proof.
  assert (S : shape3 2 20 6 (t_cur (load_trunc raw_spikes))).
  { split; [reflexivity|]. vm_compute. repeat constructor. }
  split; [exact S|]. split; [vm_compute; reflexivity|].
  exact (load_cur_vld_spec arith_exact 1 100 2 20 6 (t_cur (load_trunc raw_spikes)) S).
Defined.

(** ** Validation, automatic selection and manual toggle *)

Lemma mom_sel_consistent_after_sample :
  chng_mom_sel numerics_sample 0 0 (-1) core_manual = Some core_mom_toggled /\
  mom_sel_consistent (n_alt (swe core_mom_toggled)) (n_azm (swe core_mom_toggled))
                     (sel core_mom_toggled).
Proof.
  assert (H : chng_mom_sel numerics_sample 0 0 (-1) core_manual = Some core_mom_toggled)
    by (vm_compute; reflexivity).
  split; [exact H|].
  apply (mom_sel_consistent_after numerics_sample core_manual core_mom_toggled).
  right. right. exists 0%Z, 0%Z, (-1)%Z. exact H.
Defined.

Lemma vldt_mom_sel_idempotent_sample :
  mom_sel_azm (sel core_stale) = Some (tile2 false 2 20) /\
  mom_sel_cur (sel core_stale) = Some sel_cur_selected /\
  exists s1,
    vldt_mom_sel core_stale = Some s1 /\
    vldt_mom_sel s1 = Some s1 /\
    forall s2, vldt_mom_sel s1 = Some s2 ->
      mom_sel_azm (sel s2) = mom_sel_azm (sel s1) /\
      mom_n_sel_azm (sel s2) = mom_n_sel_azm (sel s1) /\
      mom_n_sel_cur (sel s2) = mom_n_sel_cur (sel s1) /\
      signals s2 = signals s1.
Proof.
  assert (H1 : mom_sel_azm (sel core_stale) = Some (tile2 false 2 20))
    by (vm_compute; reflexivity).
  assert (H2 : mom_sel_cur (sel core_stale) = Some sel_cur_selected)
    by (vm_compute; reflexivity).
  split; [exact H1|]. split; [exact H2|].
  exact (vldt_mom_sel_idempotent core_stale (tile2 false 2 20) sel_cur_selected H1 H2).
Defined.

(** The sample spectrum: the look direction (0, 0) is selected and has the
    seven bins 22 to 28 marked; the look direction (0, 7) is not selected and
    has no bin marked. *)
Lemma auto_mom_sel_whole_window_sample :
  (auto_mom_sel numerics_sample w_none w_none true (core_loaded 0 raw_top)
   = Some core_selected /\
   (f_sum (fl numerics_sample) [] == 0)%Q) /\
  option_map (fun c => (cube_row c 0 0, cube_row c 0 7)) (mom_sel_cur (sel core_selected))
  = Some (map (fun v => (22 <=? v) && (v <? 29)) (seq 0 30), repeat false 30) /\
  exists sa azm0 azm c w,
    auto_mom_sel_azm (fl numerics_sample)
                     (with_win (core_loaded 0 raw_top) (win core_selected)) = Some sa /\
    mom_sel_azm (sel sa) = Some azm0 /\
    mom_sel_azm (sel core_selected) = Some azm /\
    mom_sel_cur (sel core_selected) = Some c /\
    mom_win_cur (win core_selected) = Z.of_nat w /\
    w <= n_vel (swe core_selected) /\
    (forall t p, t < n_alt (swe core_selected) -> p < n_azm (swe core_selected) ->
       let v_0 := pick_window (fl numerics_sample)
                              (cube_row (cur (swe core_selected)) t p)
                              (cube_row (cur_vld (swe core_selected)) t p)
                              (n_vel (swe core_selected)) (Z.of_nat w) in
       v_0 + w <= n_vel (swe core_selected) /\
       cube_row c t p
       = (if grid_get false azm0 t p
          then map (fun v => (v_0 <=? v) && (v <? v_0 + w))
                   (seq 0 (n_vel (swe core_selected)))
          else repeat false (n_vel (swe core_selected))) /\
       count_true (cube_row c t p) = (if grid_get false azm0 t p then w else 0) /\
       ((forall v i, v + w < n_vel (swe core_selected) -> v <= i < v + w ->
           nth i (cube_row (cur_vld (swe core_selected)) t p) false = false) ->
        v_0 = 0)) /\
    (0 < mom_min_sel_cur (sel (core_loaded 0 raw_top)) ->
     forall t p, t < n_alt (swe core_selected) -> p < n_azm (swe core_selected) ->
       grid_get false azm t p = true -> grid_get false azm0 t p = true).
Proof.
  assert (H : auto_mom_sel numerics_sample w_none w_none true (core_loaded 0 raw_top)
              = Some core_selected) by (vm_compute; reflexivity).
  assert (M : (f_sum (fl numerics_sample) [] == 0)%Q) by reflexivity.
  split; [exact (conj H M)|]. split; [vm_compute; reflexivity|].
  exact (auto_mom_sel_whole_window numerics_sample w_none w_none true
           (core_loaded 0 raw_top) core_selected H M).
Defined.

(** ** Dynamic flags *)

(** With the dynamic moments analysis switched off, a manual toggle of one
    bin of the moments selection switches it on again. *)
Lemma chng_mom_sel_sets_dyn_mom :
  dyn_mom (dyn core_manual) = false /\
  option_map (fun s => dyn_mom (dyn s))
             (chng_mom_sel numerics_sample 0 0 (-1) core_manual)
  = Some true.
Proof.
  split; vm_compute; reflexivity.
Qed.

Lemma chng_sel_dyn_sample :
  (chng_mom_sel numerics_sample 0 0 (-1) core_manual = Some core_mom_toggled /\
   dyn_mom (dyn core_mom_toggled) = true) /\
  (chng_nln_sel numerics_sample 0 0 (-1) core_fit_ready = Some core_nln_toggled /\
   dyn_sel (dyn core_nln_toggled) = false).
Proof.
  assert (H1 : chng_mom_sel numerics_sample 0 0 (-1) core_manual = Some core_mom_toggled)
    by (vm_compute; reflexivity).
  assert (H2 : chng_nln_sel numerics_sample 0 0 (-1) core_fit_ready = Some core_nln_toggled)
    by (vm_compute; reflexivity).
  split.
  - split; [exact H1|].
    exact (proj1 (proj1 (chng_sel_dyn numerics_sample 0 0 (-1) core_manual
                           core_mom_toggled) H1)).
  - split; [exact H2|].
    exact (proj1 (proj2 (chng_sel_dyn numerics_sample 0 0 (-1) core_fit_ready
                           core_nln_toggled) H2)).
Defined.

(** ** When the analyses do not run *)

(** Right after a spectrum is loaded no look direction is selected yet,
    fewer than [mom_min_sel_azm]; [anls_mom] nevertheless selects, computes
    and stores results, and never emits the did-not-run notification. *)
Lemma anls_mom_runs_after_load :
  mom_n_sel_azm (sel (core_loaded 0 raw_top))
  < mom_min_sel_azm (sel (core_loaded 0 raw_top)) /\
  option_map (fun s => (mom s, signals s))
             (anls_mom numerics_sample (core_loaded 0 raw_top))
  = Some (mom_res_sample,
          [janus_chng_mom_sel_all; janus_mesg m_begin o_mom;
           janus_mesg m_end o_mom; janus_chng_mom_res]).
Proof.
  split; [vm_compute; lia|vm_compute; reflexivity].
Qed.

Lemma anls_mom_norun_resets_sample :
  (n_alt (swe core_init) = 0 \/ 0 < n_azm (swe core_init)) /\
  time_epc (swe core_init) = None /\
  exists s1,
    anls_mom_sel arith_exact core_init = Some s1 /\
    (forall a c, mom_sel_azm (sel core_init) = Some a ->
       mom_sel_cur (sel core_init) = Some c ->
       sel s1 = sel core_init /\ signals s1 = signals core_init) /\
    (time_epc (swe core_init) = None \/ n_vel (swe core_init) = 0
     \/ mom_n_sel_azm (sel s1) < mom_min_sel_azm (sel s1) ->
     exists s',
       anls_mom numerics_sample core_init = Some s' /\
       mom s' = mom_res_reset /\
       signals s' = signals s1 ++ [janus_mesg m_norun o_mom; janus_chng_mom_res] /\
       sel s' = sel s1 /\
       gss s' = gss core_init /\ nres s' = nres core_init /\
       series s' = series core_init /\
       dsp s' = dsp core_init /\ dyn s' = dyn core_init).
Proof.
  split; [left; reflexivity|]. split; [reflexivity|].
  exact (anls_mom_norun_resets numerics_sample core_init (or_introl eq_refl)).
Defined.

Lemma anls_nln_fail_resets_sample :
  anls_nln_norun (rset_var_nln_res core_fit_ready) = false /\
  nln_sel (nsel core_fit_ready) = Some (tile3 true 2 20 30) /\
  curve_fit numerics_sample
            (anls_nln_setup (rset_var_nln_res core_fit_ready) (tile3 true 2 20 30))
  = None /\
  exists s',
    anls_nln numerics_sample core_fit_ready = Some s' /\
    nres s' = nln_res_reset /\
    nln_res_plas (nres s') = plas_new /\ nln_res_sel (nres s') = None /\
    nln_res_cur_tot (nres s') = None /\ nln_res_cur_ion (nres s') = None /\
    series s' = series core_fit_ready /\
    signals s' = signals core_fit_ready
                 ++ [janus_mesg m_begin o_nln; janus_mesg m_fail o_nln;
                     janus_chng_nln_res] /\
    swe s' = swe core_fit_ready /\ sel s' = sel core_fit_ready /\
    mom s' = mom core_fit_ready /\ gss s' = gss core_fit_ready /\
    nsel s' = nsel core_fit_ready /\ dsp s' = dsp core_fit_ready /\
    dyn s' = dyn core_fit_ready.
Proof.
  assert (H1 : anls_nln_norun (rset_var_nln_res core_fit_ready) = false)
    by (vm_compute; reflexivity).
  assert (H2 : nln_sel (nsel core_fit_ready) = Some (tile3 true 2 20 30))
    by reflexivity.
  assert (H3 : curve_fit numerics_sample
                 (anls_nln_setup (rset_var_nln_res core_fit_ready) (tile3 true 2 20 30))
               = None) by reflexivity.
  split; [exact H1|]. split; [exact H2|]. split; [exact H3|].
  exact (anls_nln_fail_resets numerics_sample core_fit_ready (tile3 true 2 20 30)
           H1 H2 H3).
Defined.

(** * Further properties of the modelled functions *)

(** ** Dynamic flags and displayed analysis *)

Lemma chng_dyn_flag (a : anal_t) (b : bool) (s : core) :
  dyn_flag a (dyn (chng_dyn a b s)) = b.
Proof.
  unfold chng_dyn. destruct a; cbn [dyn_flag];
    match goal with |- context [eqb ?x ?y] => destruct (eqb x y) eqn:E end;
    try (apply eqb_prop; exact E); reflexivity.
Qed.

Lemma chng_dyn_same (a : anal_t) (b : bool) (s : core) :
  dyn_flag a (dyn s) = b -> chng_dyn a b s = s.
Proof.
  intros H. unfold chng_dyn.
  destruct a; cbn [dyn_flag] in H; rewrite H, eqb_reflx; reflexivity.
Qed.

(** X1.  [chng_dyn] without rerun stores the value in the flag it addresses and
    leaves the three other flags alone; it emits [janus_chng_dyn] exactly
    when the flag changes, and a second identical call changes nothing. *)
Theorem chng_dyn_effect (a : anal_t) (b : bool) (s : core) :
  let s' := chng_dyn a b s in
  dyn_flag a (dyn s') = b /\
  (forall a', a' <> a -> dyn_flag a' (dyn s') = dyn_flag a' (dyn s)) /\
  signals s' = signals s ++ (if eqb (dyn_flag a (dyn s)) b then [] else [janus_chng_dyn]) /\
  (dyn_flag a (dyn s) = b -> s' = s) /\
  chng_dyn a b s' = s'.
Proof.
  cbv zeta. pose proof (chng_dyn_flag a b s) as E.
  split; [exact E|]. split; [|split; [|split]].
  - intros a' Ha. unfold chng_dyn.
    destruct a; cbn [dyn_flag];
      match goal with |- context [eqb ?x ?y] => destruct (eqb x y) end;
      destruct a'; try reflexivity; congruence.
  - unfold chng_dyn. destruct a; cbn [dyn_flag];
      match goal with |- context [eqb ?x ?y] => destruct (eqb x y) end;
      cbn; rewrite ?app_nil_r; reflexivity.
  - apply chng_dyn_same.
  - apply chng_dyn_same. exact E.
Qed.

Lemma chng_dsp_frame (v : dsp_t) (s : core) :
  dsp (chng_dsp v s) = Some v /\
  dyn (chng_dsp v s) = dyn s /\ nres (chng_dsp v s) = nres s /\
  series (chng_dsp v s) = series s /\ sel (chng_dsp v s) = sel s /\
  nsel (chng_dsp v s) = nsel s /\ mom (chng_dsp v s) = mom s.
Proof.
  unfold chng_dsp. destruct (dsp s) as [d|] eqn:Ed.
  - destruct (dsp_eqb d v) eqn:E.
    + assert (d = v) as -> by (destruct d, v; try discriminate; reflexivity).
      repeat split. exact Ed.
    + cbn. repeat split.
  - cbn. repeat split.
Qed.

Lemma chng_dsp_value_set (v : dsp_t) (s : core) :
  chng_dsp_value (dv_set v) s = chng_dsp v s.
Proof.
  unfold chng_dsp_value, chng_dsp, dsp_is.
  destruct (dsp s) as [d|]; [destruct (dsp_eqb d v)|]; reflexivity.
Qed.

(** X2.  [chng_dsp] for any argument.  It stores the requested setting when
    that is ['mom'], ['gsl'] or ['nln'], and [None] for every other value;
    it emits [janus_chng_dsp] exactly when [dsp] did not already equal the
    argument, and touches nothing else.  For a setting or [None] a second
    identical call changes nothing; for any other value every call emits
    the signal again. *)
Theorem chng_dsp_effect (value : dsp_value) (s : core) :
  let s' := chng_dsp_value value s in
  (forall v, value = dv_set v -> s' = chng_dsp v s /\ dsp s' = Some v) /\
  (value = dv_none \/ value = dv_other -> dsp s' = None) /\
  (dsp_is (dsp s) value = true -> s' = s) /\
  (dsp_is (dsp s) value = false -> signals s' = signals s ++ [janus_chng_dsp]) /\
  (value = dv_other -> dsp_is (dsp s) value = false) /\
  swe s' = swe s /\ dyn s' = dyn s /\ gss s' = gss s /\ nres s' = nres s /\
  series s' = series s /\ sel s' = sel s /\ nsel s' = nsel s /\ mom s' = mom s /\
  (value <> dv_other -> chng_dsp_value value s' = s') /\
  (value = dv_other ->
     signals (chng_dsp_value value s') = signals s ++ [janus_chng_dsp; janus_chng_dsp]).
Proof.
  cbv zeta.
  assert (Hrefl : forall v, dsp_eqb v v = true) by (intros v; destruct v; reflexivity).
  assert (Heq : forall a b, dsp_eqb a b = true -> a = b)
    by (intros a b; destruct a, b; try discriminate; reflexivity).
  split; [|split; [|split; [|split; [|split]]]].
  - intros v ->. rewrite chng_dsp_value_set. split; [reflexivity|].
    apply chng_dsp_frame.
  - unfold chng_dsp_value, dsp_is.
    intros [-> | ->]; destruct (dsp s) as [d|] eqn:Ed; cbn; try reflexivity; exact Ed.
  - intros H. unfold chng_dsp_value. rewrite H. reflexivity.
  - intros H. unfold chng_dsp_value. rewrite H. reflexivity.
  - intros ->. unfold dsp_is. destruct (dsp s); reflexivity.
  - unfold chng_dsp_value.
    destruct (dsp_is (dsp s) value) eqn:E.
    + repeat split.
      * intros _. rewrite E. reflexivity.
      * intros ->. unfold dsp_is in E. destruct (dsp s); discriminate.
    + cbn. repeat split.
      * intros Hv. destruct value as [v| |]; cbn; [rewrite Hrefl| |contradiction];
          reflexivity.
      * intros ->. cbn. rewrite <- app_assoc. reflexivity.
Qed.

(** ** The non-linear analysis *)

(** X16.  When [anls_nln] does not run (no spectrum, no field data, no
    population, the first population missing, no guess, or fewer selected
    bins than [nln_min_sel]), it returns with the fit results reset, the
    did-not-run and results-changed notifications emitted, and the results
    log and everything else as before; the optimiser is not consulted. *)
Theorem anls_nln_norun_resets (N : numerics) (s : core) :
  n_vel (swe s) = 0 \/ n_mfi s = 0 \/ nln_gss_pop (gss s) = []
  \/ ~ In 0 (nln_gss_pop (gss s)) \/ nln_gss_prm (gss s) = []
  \/ nln_n_sel (nsel s) < nln_min_sel (nsel s) ->
  anls_nln N s
  = Some (emit janus_chng_nln_res
            (emit (janus_mesg m_norun o_nln) (rset_var_nln_res s))) /\
  forall s', anls_nln N s = Some s' ->
    nres s' = nln_res_reset /\ series s' = series s /\
    signals s' = signals s ++ [janus_mesg m_norun o_nln; janus_chng_nln_res] /\
    swe s' = swe s /\ sel s' = sel s /\ mom s' = mom s /\ gss s' = gss s /\
    nsel s' = nsel s /\ dsp s' = dsp s /\ dyn s' = dyn s.
Proof.
  intros H.
  assert (G : anls_nln_norun (rset_var_nln_res s) = true).
  { unfold anls_nln_norun.
    change (swe (rset_var_nln_res s)) with (swe s).
    change (n_mfi (rset_var_nln_res s)) with (n_mfi s).
    change (gss (rset_var_nln_res s)) with (gss s).
    change (nsel (rset_var_nln_res s)) with (nsel s).
    destruct H as [H|[H|[H|[H|[H|H]]]]].
    - rewrite H. reflexivity.
    - rewrite H. rewrite orb_true_r. reflexivity.
    - rewrite H. cbn. rewrite !orb_true_r. reflexivity.
    - assert (E : existsb (Nat.eqb 0) (nln_gss_pop (gss s)) = false).
      { destruct (existsb _ _) eqn:E; [|reflexivity].
        apply existsb_exists in E. destruct E as (x & Hx & Hx0).
        apply Nat.eqb_eq in Hx0. subst x. contradiction. }
      rewrite E. cbn. rewrite !orb_true_r. reflexivity.
    - rewrite H. cbn. rewrite !orb_true_r. reflexivity.
    - apply Nat.ltb_lt in H. rewrite H. rewrite !orb_true_r. reflexivity. }
  assert (E : anls_nln N s
              = Some (emit janus_chng_nln_res
                        (emit (janus_mesg m_norun o_nln) (rset_var_nln_res s)))).
  { unfold anls_nln. rewrite G. reflexivity. }
  split; [exact E|]. intros s' Hs. rewrite E in Hs. injection Hs as <-.
  cbn. rewrite <- app_assoc. repeat split.
Qed.

(** X17.  The results log is append-only: whatever [anls_nln] does, the log it
    leaves is the log it found, followed by at most one record; a record is
    appended exactly when the run ends with the end-of-fit notification, and
    it is then the very result object stored in [nln_res_plas], stamped with
    the time of the spectrum. *)
Theorem anls_nln_log (N : numerics) (s s' : core) :
  anls_nln N s = Some s' ->
  (series s' = series s /\ nres s' = nln_res_reset
   /\ ~ In (janus_mesg m_end o_nln) (skipn (length (signals s)) (signals s')))
  \/ (exists f,
        series s' = series s ++ [plas_fit (time_epc (swe s)) f] /\
        nln_res_plas (nres s') = plas_fit (time_epc (swe s)) f /\
        nln_res_sel (nres s') = nln_sel (nsel s) /\
        skipn (length (signals s)) (signals s')
        = [janus_mesg m_begin o_nln; janus_mesg m_end o_nln; janus_chng_nln_res]).
Proof.
  unfold anls_nln. destruct (anls_nln_norun _).
  - intros H. injection H as <-. left. cbn. rewrite <- app_assoc.
    rewrite skipn_app, skipn_all, Nat.sub_diag. cbn.
    repeat split. intros [H|[H|[]]]; discriminate.
  - change (nsel (rset_var_nln_res s)) with (nsel s).
    destruct (nln_sel (nsel s)) as [c|]; [|discriminate]. cbn [obind].
    destruct (curve_fit N _) as [f|].
    + destruct (calc_nln_cur N _ f) as [ion|]; [|discriminate]. cbn [obind].
      intros H. injection H as <-. right. exists f. cbn.
      rewrite <- !app_assoc. rewrite skipn_app, skipn_all, Nat.sub_diag.
      repeat split.
    + intros H. injection H as <-. left. cbn.
      rewrite <- !app_assoc. rewrite skipn_app, skipn_all, Nat.sub_diag. cbn.
      repeat split. intros [H|[H|[H|[]]]]; discriminate.
Qed.

(** ** Toggling one bin *)

Lemma list_set_length {A : Type} (l : list A) (k : nat) (x : A) :
  length (list_set l k x) = length l.
Proof.
  revert k. induction l as [|a l IH]; intros [|k]; simpl; try reflexivity.
  rewrite IH. reflexivity.
Qed.

Lemma nth_error_list_set {A : Type} (l : list A) (k : nat) (x : A) :
  k < length l -> nth_error (list_set l k x) k = Some x.
Proof.
  revert k. induction l as [|a l IH]; intros [|k] H; simpl in *; try lia.
  - reflexivity.
  - apply IH. lia.
Qed.

Lemma list_set_twice {A : Type} (l : list A) (k : nat) (x y : A) :
  list_set (list_set l k x) k y = list_set l k y.
Proof.
  revert k. induction l as [|a l IH]; intros [|k]; simpl; try reflexivity.
  rewrite IH. reflexivity.
Qed.

Lemma list_set_same {A : Type} (l : list A) (k : nat) (x : A) :
  nth_error l k = Some x -> list_set l k x = l.
Proof.
  revert k. induction l as [|a l IH]; intros [|k] H; simpl in *; try discriminate.
  - injection H as ->. reflexivity.
  - rewrite IH by exact H. reflexivity.
Qed.

(** X12.  Toggling the same bin twice gives the array back; an index that Python
    rejects on the array rejects it again on the toggled array. *)
Theorem cube_toggle_twice (c c' : list (list (list bool))) (t p v : Z) :
  cube_toggle c t p v = Some c' -> cube_toggle c' t p v = Some c.
Proof.
  unfold cube_toggle. intros H.
  destruct (py_index (length c) t) as [it|] eqn:Et; [|discriminate]. cbn [obind] in H.
  destruct (nth_error c it) as [plane|] eqn:Ep; [|discriminate]. cbn [obind] in H.
  destruct (py_index (length plane) p) as [ip|] eqn:Eip; [|discriminate]. cbn [obind] in H.
  destruct (nth_error plane ip) as [row|] eqn:Er; [|discriminate]. cbn [obind] in H.
  destruct (py_index (length row) v) as [iv|] eqn:Eiv; [|discriminate]. cbn [obind] in H.
  destruct (nth_error row iv) as [b|] eqn:Eb; [|discriminate]. cbn [obind] in H.
  injection H as <-.
  assert (Lt : it < length c) by (apply nth_error_Some; congruence).
  assert (Lp : ip < length plane) by (apply nth_error_Some; congruence).
  assert (Lv : iv < length row) by (apply nth_error_Some; congruence).
  rewrite list_set_length, Et. cbn [obind].
  rewrite nth_error_list_set by exact Lt. cbn [obind].
  rewrite list_set_length, Eip. cbn [obind].
  rewrite nth_error_list_set by exact Lp. cbn [obind].
  rewrite list_set_length, Eiv. cbn [obind].
  rewrite nth_error_list_set by exact Lv. cbn [obind].
  rewrite negb_involutive, !list_set_twice.
  rewrite (list_set_same row iv b Eb), (list_set_same plane ip row Er),
    (list_set_same c it plane Ep).
  reflexivity.
Qed.

Lemma count_true_app (l1 l2 : list bool) :
  count_true (l1 ++ l2) = count_true l1 + count_true l2.
Proof. unfold count_true. rewrite filter_app, length_app. reflexivity. Qed.

Lemma count_true_list_set (row : list bool) (k : nat) (b : bool) :
  nth_error row k = Some b ->
  count_true (list_set row k (negb b)) + (if b then 1 else 0)
  = count_true row + (if b then 0 else 1).
Proof.
  revert k. induction row as [|a row IH]; intros [|k] H; simpl in *; try discriminate.
  - injection H as ->. unfold count_true. destruct b; simpl; lia.
  - specialize (IH k H). unfold count_true in *. destruct a; simpl; lia.
Qed.

Lemma count_concat_list_set (l : list (list bool)) (k : nat) (x y : list bool) (d : nat) :
  nth_error l k = Some x ->
  count_true y + d = count_true x + (1 - d) -> d <= 1 ->
  count_true (concat (list_set l k y)) + d = count_true (concat l) + (1 - d).
Proof.
  revert k. induction l as [|a l IH]; intros [|k] H Hy Hd; simpl in *; try discriminate.
  - injection H as ->. rewrite !count_true_app. lia.
  - rewrite !count_true_app. specialize (IH k H Hy Hd). lia.
Qed.

(** A toggle changes the number of selected bins by exactly one: it is one
    more when the bin was not selected and one less when it was. *)
Lemma cube_toggle_count (c c' : list (list (list bool))) (t p v : Z) :
  cube_toggle c t p v = Some c' ->
  count_true3 c' = S (count_true3 c) \/ S (count_true3 c') = count_true3 c.
Proof.
  unfold cube_toggle. intros H.
  destruct (py_index (length c) t) as [it|] eqn:Et; [|discriminate]. cbn [obind] in H.
  destruct (nth_error c it) as [plane|] eqn:Ep; [|discriminate]. cbn [obind] in H.
  destruct (py_index (length plane) p) as [ip|] eqn:Eip; [|discriminate]. cbn [obind] in H.
  destruct (nth_error plane ip) as [row|] eqn:Er; [|discriminate]. cbn [obind] in H.
  destruct (py_index (length row) v) as [iv|] eqn:Eiv; [|discriminate]. cbn [obind] in H.
  destruct (nth_error row iv) as [b|] eqn:Eb; [|discriminate]. cbn [obind] in H.
  injection H as <-.
  pose proof (count_true_list_set row iv b Eb) as H1.
  set (d := if b then 1 else 0) in *.
  assert (Hd : d <= 1) by (unfold d; destruct b; lia).
  assert (H1' : count_true (list_set row iv (negb b)) + d = count_true row + (1 - d))
    by (unfold d in *; destruct b; lia).
  pose proof (count_concat_list_set plane ip row _ d Er H1' Hd) as H2.
  unfold count_true3.
  assert (H3 : count_true (concat (concat (list_set c it
                 (list_set plane ip (list_set row iv (negb b)))))) + d
               = count_true (concat (concat c)) + (1 - d)).
  { clear - Ep H2 Hd. revert it Ep.
    induction c as [|a c IH]; intros [|it] Ep; simpl in *; try discriminate.
    - injection Ep as ->. rewrite !concat_app, !count_true_app. lia.
    - rewrite !concat_app, !count_true_app. specialize (IH it Ep). lia. }
  unfold d in *. destruct b; lia.
Qed.

(** ** Propagation of the fit selection *)

Lemma anls_nln_frame (N : numerics) (s s' : core) :
  anls_nln N s = Some s' ->
  swe s' = swe s /\ sel s' = sel s /\ mom s' = mom s /\ gss s' = gss s /\
  nsel s' = nsel s /\ dsp s' = dsp s /\ dyn s' = dyn s.
Proof.
  unfold anls_nln. destruct (anls_nln_norun _).
  - intros H. injection H as <-. cbn. repeat split.
  - destruct (nln_sel (nsel (rset_var_nln_res s))) as [c|]; [|discriminate].
    cbn [obind]. destruct (curve_fit N _) as [f|].
    + destruct (calc_nln_cur N _ f) as [ion|]; [|discriminate].
      cbn [obind]. intros H. injection H as <-. cbn. repeat split.
    + intros H. injection H as <-. cbn. repeat split.
Qed.

Lemma prop_nln_sel_nsel (N : numerics) (pnt : option (Z * Z * Z)) (s s' : core) :
  prop_nln_sel N pnt s = Some s' ->
  nln_sel (nsel s') = nln_sel (nsel s) /\
  nln_n_sel (nsel s') = match nln_sel (nsel s) with
                        | Some c => count_true3 c
                        | None => 0
                        end.
Proof.
  unfold prop_nln_sel.
  set (s1 := match pnt with
             | Some (t, p, v) => emit (janus_chng_nln_sel_cur t p v) _
             | None => emit janus_chng_nln_sel_all _
             end).
  assert (E : nln_sel (nsel s1) = nln_sel (nsel s)
              /\ nln_n_sel (nsel s1) = match nln_sel (nsel s) with
                                       | Some c => count_true3 c
                                       | None => 0
                                       end).
  { unfold s1. destruct pnt as [[[t p] v]|]; cbn; repeat split. }
  destruct (dyn_nln (dyn s1)).
  - intros H. destruct (anls_nln_frame N s1 s' H) as (_ & _ & _ & _ & Hn & _).
    rewrite Hn. exact E.
  - intros H. injection H as <-.
    destruct (chng_dsp_frame dsp_gsl s1) as (_ & _ & _ & _ & _ & Hns & _).
    rewrite Hns. exact E.
Qed.

(** X14.  [prop_nln_sel] first brings the counter [nln_n_sel] in line with
    the selection and emits the selection-changed signal, changing nothing
    else ([s1] below).  With the fit dynamic it then runs [anls_nln] on that
    state, and what [anls_nln] returns is the result, with the displayed
    analysis as it was; with the fit not dynamic it makes ['gsl'] the
    displayed analysis and leaves the fit results and the results log
    alone. *)
Theorem prop_nln_sel_rule (N : numerics) (pnt : option (Z * Z * Z)) (s s' : core) :
  prop_nln_sel N pnt s = Some s' ->
  exists s1,
    nsel s1 = {| nln_sel := nln_sel (nsel s);
                 nln_n_sel := match nln_sel (nsel s) with
                              | Some c => count_true3 c
                              | None => 0
                              end;
                 nln_min_sel := nln_min_sel (nsel s) |} /\
    signals s1 = signals s ++ [match pnt with
                               | Some (t, p, v) => janus_chng_nln_sel_cur t p v
                               | None => janus_chng_nln_sel_all
                               end] /\
    swe s1 = swe s /\ n_mfi s1 = n_mfi s /\ win s1 = win s /\ sel s1 = sel s /\
    mom s1 = mom s /\ gss s1 = gss s /\ nres s1 = nres s /\ dsp s1 = dsp s /\
    dyn s1 = dyn s /\ series s1 = series s /\
    (dyn_nln (dyn s) = true -> anls_nln N s1 = Some s' /\ dsp s' = dsp s) /\
    (dyn_nln (dyn s) = false ->
       s' = chng_dsp dsp_gsl s1 /\
       dsp s' = Some dsp_gsl /\ nres s' = nres s /\ series s' = series s) /\
    nsel s' = nsel s1.
Proof.
  unfold prop_nln_sel.
  set (s1 := match pnt with
             | Some (t, p, v) => emit (janus_chng_nln_sel_cur t p v) _
             | None => emit janus_chng_nln_sel_all _
             end).
  intros H. exists s1.
  assert (E : nsel s1 = {| nln_sel := nln_sel (nsel s);
                           nln_n_sel := match nln_sel (nsel s) with
                                        | Some c => count_true3 c
                                        | None => 0
                                        end;
                           nln_min_sel := nln_min_sel (nsel s) |} /\
              signals s1 = signals s ++ [match pnt with
                                         | Some (t, p, v) => janus_chng_nln_sel_cur t p v
                                         | None => janus_chng_nln_sel_all
                                         end] /\
              swe s1 = swe s /\ n_mfi s1 = n_mfi s /\ win s1 = win s /\ sel s1 = sel s /\
              mom s1 = mom s /\ gss s1 = gss s /\ nres s1 = nres s /\ dsp s1 = dsp s /\
              dyn s1 = dyn s /\ series s1 = series s).
  { unfold s1. destruct pnt as [[[t p] v]|]; cbn; repeat split. }
  destruct E as (E1 & E2 & E3 & E4 & E5 & E6 & E7 & E8 & E9 & E10 & E11 & E12).
  repeat (split; [assumption|]).
  rewrite E11 in H. destruct (dyn_nln (dyn s)).
  - destruct (anls_nln_frame N s1 s' H) as (_ & _ & _ & _ & Hn & Hdsp & _).
    split; [intros _; split; [exact H|congruence]|].
    split; [discriminate|exact Hn].
  - injection H as <-.
    destruct (chng_dsp_frame dsp_gsl s1) as (Hd & _ & Hnres & Hser & _ & Hns & _).
    split; [discriminate|].
    split; [intros _; repeat split; congruence|exact Hns].
Qed.

(** X13.  After a manual toggle of the fit selection the stored selection is the
    toggled array (the empty selection when none existed), the counter
    [nln_n_sel] is its number of selected bins, and that number differs by
    exactly one from the number before. *)
Theorem chng_nln_sel_count (N : numerics) (t p v : Z) (s s' : core) :
  chng_nln_sel N t p v s = Some s' ->
  let c := match nln_sel (nsel s) with
           | Some c => c
           | None => tile3 false (n_alt (swe s)) (n_azm (swe s)) (n_vel (swe s))
           end in
  exists c',
    cube_toggle c t p v = Some c' /\
    nln_sel (nsel s') = Some c' /\
    nln_n_sel (nsel s') = count_true3 c' /\
    (count_true3 c' = S (count_true3 c) \/ S (count_true3 c') = count_true3 c).
Proof.
  cbv zeta. unfold chng_nln_sel.
  destruct (chng_dyn_frame a_sel false s) as (Hswe & _ & Hnsel).
  rewrite Hswe, Hnsel.
  destruct (cube_toggle _ t p v) as [c'|] eqn:Et; [|discriminate]. cbn [obind].
  intros H. destruct (prop_nln_sel_nsel N _ _ s' H) as (Hs & Hc).
  cbn in Hs, Hc. exists c'. split; [reflexivity|]. split; [exact Hs|].
  split; [exact Hc|]. exact (cube_toggle_count _ c' t p v Et).
Qed.

(** ** The moments analysis when it runs *)

(** X15.  With the selection arrays populated (otherwise the automatic
    selection runs first, which also resets the fit selection), when
    [anls_mom] runs and guess generation is not dynamic, it stores the
    computed moments, makes ['mom'] the displayed analysis and leaves the
    spectrum, the selection, the guess, the fit selection, the fit results,
    the results log and the dynamic flags alone; the notifications it adds
    are begin, end and results-changed, followed by [janus_chng_dsp] when
    the displayed analysis changed. *)
Theorem anls_mom_run_display (N : numerics) (s s' : core)
  (azm : list (list bool)) (c : list (list (list bool))) :
  mom_sel_azm (sel s) = Some azm ->
  mom_sel_cur (sel s) = Some c ->
  anls_mom_norun s = false ->
  dyn_gss (dyn s) = false ->
  anls_mom N s = Some s' ->
  mom_calc N (emit (janus_mesg m_begin o_mom) (rset_var_mom_res s)) = Some (mom s') /\
  dsp s' = Some dsp_mom /\
  swe s' = swe s /\ sel s' = sel s /\ win s' = win s /\
  gss s' = gss s /\ nsel s' = nsel s /\ nres s' = nres s /\ series s' = series s /\
  dyn s' = dyn s /\
  signals s' = signals s
               ++ [janus_mesg m_begin o_mom; janus_mesg m_end o_mom; janus_chng_mom_res]
               ++ (match dsp s with
                   | Some dsp_mom => []
                   | _ => [janus_chng_dsp]
                   end).
Proof.
  intros Ha Hc Hrun Hg H. unfold anls_mom in H.
  rewrite (anls_mom_sel_populated (fl N) s azm c Ha Hc) in H. cbn [obind] in H.
  change (anls_mom_norun (rset_var_mom_res s)) with (anls_mom_norun s) in H.
  rewrite Hrun in H.
  destruct (mom_calc N _) as [r|]; [|discriminate]. cbn [obind] in H.
  cbn [dyn emit with_mom rset_var_mom_res] in H. rewrite Hg in H. injection H as <-.
  unfold chng_dsp. cbn [dsp emit with_mom rset_var_mom_res].
  destruct (dsp s) as [[| |]|] eqn:Ed; cbn; rewrite <- ?app_assoc, ?Ed; repeat split.
Qed.

(** ** Switching a dynamic flag with rerun *)

Lemma chng_dsp_dyn (v : dsp_t) (s : core) : dyn (chng_dsp v s) = dyn s.
Proof.
  unfold chng_dsp. destruct (dsp s) as [d|]; [destruct (dsp_eqb d v)|]; reflexivity.
Qed.

Lemma chng_dsp_dsp (v : dsp_t) (s : core) : dsp (chng_dsp v s) = Some v.
Proof. exact (proj1 (chng_dsp_frame v s)). Qed.

(** X3.  [chng_dyn] with rerun.  Setting a flag to the value it has does
    nothing at all; switching a flag off, or switching it without rerun,
    only stores the flag.  Switching a flag on with rerun stores the flag,
    runs the analysis of that name on the resulting state ([anls_mom],
    [auto_nln_gss], [auto_nln_sel] or [anls_nln]) and then calls [chng_dsp]
    on what the analysis returns: with ['nln'] after the fit; after the
    moments analysis with ['mom'] when neither guess nor selection is
    dynamic, else ['nln'] when the fit is dynamic, else ['gsl']; after the
    guess or the selection with ['nln'] when the fit is dynamic, else
    ['gsl'].  The flags are read as the analysis left them. *)
Theorem chng_dyn_rerun_rules (N : numerics) (auto_nln_sel : core -> option core)
  (a : anal_t) (value rerun : bool) (s : core) :
  (dyn_flag a (dyn s) = value ->
     chng_dyn_rerun N auto_nln_sel a value rerun s = Some s) /\
  (value = false \/ rerun = false ->
     chng_dyn_rerun N auto_nln_sel a value rerun s = Some (chng_dyn a value s)) /\
  (forall s', dyn_nln (dyn s) = false ->
     chng_dyn_rerun N auto_nln_sel a_nln true true s = Some s' ->
     exists s1, anls_nln N (chng_dyn a_nln true s) = Some s1 /\
                s' = chng_dsp dsp_nln s1 /\
                dyn_nln (dyn s') = true /\ dsp s' = Some dsp_nln /\
                nres s' = nres s1 /\ series s' = series s1) /\
  (forall s', dyn_mom (dyn s) = false ->
     chng_dyn_rerun N auto_nln_sel a_mom true true s = Some s' ->
     exists s1, anls_mom N (chng_dyn a_mom true s) = Some s1 /\
                s' = chng_dsp (if negb (dyn_sel (dyn s1)) && negb (dyn_gss (dyn s1))
                               then dsp_mom
                               else if dyn_nln (dyn s1) then dsp_nln else dsp_gsl) s1 /\
                dyn s' = dyn s1 /\ dyn_mom (dyn s') = true /\ mom s' = mom s1 /\
                dsp s' = Some (if negb (dyn_sel (dyn s')) && negb (dyn_gss (dyn s'))
                               then dsp_mom
                               else if dyn_nln (dyn s') then dsp_nln else dsp_gsl)) /\
  (forall s', dyn_gss (dyn s) = false ->
     chng_dyn_rerun N auto_nln_sel a_gss true true s = Some s' ->
     exists d, nln_chain N (chng_dyn a_gss true s) = Some d /\
               s' = chng_dsp (if dyn_nln (dyn s) then dsp_nln else dsp_gsl)
                             (apply_downstream (chng_dyn a_gss true s) d)) /\
  (forall s', dyn_sel (dyn s) = false ->
     chng_dyn_rerun N auto_nln_sel a_sel true true s = Some s' ->
     exists s1, auto_nln_sel (chng_dyn a_sel true s) = Some s1 /\
                s' = chng_dsp (if dyn_nln (dyn s1) then dsp_nln else dsp_gsl) s1).
Proof.
  split; [|split; [|split; [|split; [|split]]]].
  - intros H. unfold chng_dyn_rerun. rewrite H, eqb_reflx. reflexivity.
  - intros H. unfold chng_dyn_rerun.
    destruct (eqb (dyn_flag a (dyn s)) value) eqn:E.
    + apply eqb_prop in E.
      rewrite (chng_dyn_same a value s E).
      reflexivity.
    + destruct H as [-> | ->]; rewrite ?andb_false_r; reflexivity.
  - intros s' Hd H. unfold chng_dyn_rerun in H. cbn [dyn_flag] in H.
    rewrite Hd in H. cbn [eqb andb] in H.
    destruct (anls_nln N (chng_dyn a_nln true s)) as [s1|] eqn:E1; [|discriminate].
    cbn [obind] in H. injection H as <-.
    destruct (anls_nln_frame N _ s1 E1) as (_ & _ & _ & _ & _ & _ & Hdyn).
    exists s1. split; [reflexivity|]. split; [reflexivity|].
    rewrite chng_dsp_dyn, Hdyn.
    pose proof (chng_dyn_flag a_nln true s) as Hf. cbn [dyn_flag] in Hf.
    split; [exact Hf|]. split; [apply chng_dsp_dsp|].
    destruct (chng_dsp_frame dsp_nln s1) as (_ & _ & Hn & Hs & _).
    split; assumption.
  - intros s' Hd H. unfold chng_dyn_rerun in H. cbn [dyn_flag] in H.
    rewrite Hd in H. cbn [eqb andb] in H.
    destruct (anls_mom N (chng_dyn a_mom true s)) as [s1|] eqn:E1; [|discriminate].
    cbn [obind] in H.
    destruct (anls_mom_frame N _ s1 E1) as (s0 & H0 & _ & _ & _ & _ & Hdm & _).
    destruct (anls_mom_sel_frame (fl N) _ s0 H0) as (_ & _ & _ & _ & _ & Hdyn0 & _).
    assert (Hm : dyn_mom (dyn s1) = true).
    { rewrite Hdm, Hdyn0. exact (chng_dyn_flag a_mom true s). }
    exists s1. split; [reflexivity|].
    assert (Es : s' = chng_dsp (if negb (dyn_sel (dyn s1)) && negb (dyn_gss (dyn s1))
                                then dsp_mom
                                else if dyn_nln (dyn s1) then dsp_nln else dsp_gsl) s1).
    { destruct (negb (dyn_sel (dyn s1)) && negb (dyn_gss (dyn s1)));
        [|destruct (dyn_nln (dyn s1))]; injection H as <-; reflexivity. }
    split; [exact Es|]. rewrite Es.
    destruct (chng_dsp_frame
                (if negb (dyn_sel (dyn s1)) && negb (dyn_gss (dyn s1)) then dsp_mom
                 else if dyn_nln (dyn s1) then dsp_nln else dsp_gsl) s1)
      as (Hdsp & Hdyn & _ & _ & _ & _ & Hmom).
    rewrite Hdyn. repeat split; assumption.
  - intros s' Hd H. unfold chng_dyn_rerun in H. cbn [dyn_flag] in H.
    rewrite Hd in H. cbn [eqb andb] in H.
    destruct (nln_chain N (chng_dyn a_gss true s)) as [d|] eqn:E1; [|discriminate].
    cbn [option_map obind] in H. exists d. split; [reflexivity|].
    assert (Hn : dyn_nln (dyn (apply_downstream (chng_dyn a_gss true s) d))
                 = dyn_nln (dyn s)).
    { cbn [apply_downstream dyn dyn_nln]. unfold chng_dyn. rewrite Hd. reflexivity. }
    rewrite Hn in H. destruct (dyn_nln (dyn s)); injection H as <-; reflexivity.
  - intros s' Hd H. unfold chng_dyn_rerun in H. cbn [dyn_flag] in H.
    rewrite Hd in H. cbn [eqb andb] in H.
    destruct (auto_nln_sel (chng_dyn a_sel true s)) as [s1|] eqn:E1; [|discriminate].
    cbn [obind] in H. exists s1. split; [reflexivity|].
    destruct (dyn_nln (dyn s1)); injection H as <-; reflexivity.
Qed.

(** X4.  The adjustment at the start of [load_spec].  Afterwards, if the
    displayed analysis is ['gsl'] or ['nln'] then moments, guess and
    selection are all dynamic, and if it is ['nln'] then the fit is dynamic
    too; [dyn_nln] is never changed, and a state that displays ['mom'] is
    left as it is, without any signal. *)
Theorem load_spec_dsp_dyn_consistent (s : core) :
  let s' := load_spec_dsp_dyn s in
  (dsp s' = Some dsp_gsl \/ dsp s' = Some dsp_nln ->
     dyn_mom (dyn s') = true /\ dyn_gss (dyn s') = true /\ dyn_sel (dyn s') = true) /\
  (dsp s' = Some dsp_nln -> dyn_nln (dyn s') = true) /\
  dyn_nln (dyn s') = dyn_nln (dyn s) /\
  (dsp s = Some dsp_mom \/ dsp s = None -> s' = s) /\
  (dsp s = Some dsp_gsl \/ dsp s = Some dsp_nln ->
     signals s' = signals s ++ [janus_chng_dyn; janus_chng_dsp]) /\
  (dsp s = Some dsp_nln -> dyn_nln (dyn s) = false -> dsp s' = Some dsp_gsl).
Proof.
  cbv zeta. unfold load_spec_dsp_dyn.
  destruct (dsp s) as [[| |]|] eqn:Ed; cbn [with_dyn with_dsp dsp dyn]; rewrite ?Ed;
    [|
     |destruct (dyn_nln (dyn s)) eqn:En; cbn [negb]
     |];
    cbn; rewrite <- ?app_assoc; rewrite ?Ed; repeat split; intros;
    repeat match goal with H : _ \/ _ |- _ => destruct H end;
    try congruence; try reflexivity.
Qed.

(** ** The number of bins the loader keeps *)

Lemma scan_n_vel_inv (c1 c2 : list Q) :
  forall fuel n0, length c1 <= fuel + n0 ->
    let n := scan_n_vel fuel c1 c2 n0 in
    n0 <= n /\
    (forall j, n0 <= j < n ->
       j < length c1 /\ j < length c2 /\
       Qltb (nth j c1 0%Q) (nth (j - 1) c1 0%Q)
         || Qltb (nth j c2 0%Q) (nth (j - 1) c2 0%Q) = false) /\
    (n < length c1 -> n < length c2 ->
       Qltb (nth n c1 0%Q) (nth (n - 1) c1 0%Q)
         || Qltb (nth n c2 0%Q) (nth (n - 1) c2 0%Q) = true).
Proof.
  induction fuel as [|fuel IH]; intros n0 Hf; cbv zeta.
  - simpl. split; [lia|]. split; [intros j Hj; lia|]. intros H. lia.
  - simpl.
    destruct ((n0 <? length c1) && (n0 <? length c2)) eqn:Ec.
    + destruct (Qltb (nth n0 c1 0%Q) (nth (n0 - 1) c1 0%Q)
                || Qltb (nth n0 c2 0%Q) (nth (n0 - 1) c2 0%Q)) eqn:Ed.
      * split; [lia|]. split; [intros j Hj; lia|]. intros _ _. exact Ed.
      * specialize (IH (S n0)). cbv zeta in IH.
        destruct IH as (H1 & H2 & H3); [lia|].
        split; [lia|]. split; [|exact H3].
        intros j Hj. destruct (Nat.eq_dec j n0) as [->|Hne].
        -- apply andb_true_iff in Ec. destruct Ec as (E1 & E2).
           apply Nat.ltb_lt in E1, E2. repeat split; assumption.
        -- apply H2. lia.
    + split; [lia|]. split; [intros j Hj; lia|]. intros H1 H2.
      apply andb_false_iff in Ec. destruct Ec as [E|E]; apply Nat.ltb_ge in E; lia.
Qed.

(** X5.  The loader always keeps at least one bin, even when the arrays of bin
    centres are empty.  The bins it keeps exist in both cups and their
    centres never decrease from one bin to the next, in either cup; and it
    stops before the end of both arrays only where a centre does decrease. *)
Theorem find_n_vel_sorted (c1 c2 : list Q) :
  let n := find_n_vel c1 c2 in
  1 <= n /\
  (forall j, 1 <= j < n ->
     j < length c1 /\ j < length c2 /\
     (nth (j - 1) c1 0 <= nth j c1 0)%Q /\ (nth (j - 1) c2 0 <= nth j c2 0)%Q) /\
  (n < length c1 -> n < length c2 ->
     (nth n c1 0 < nth (n - 1) c1 0)%Q \/ (nth n c2 0 < nth (n - 1) c2 0)%Q).
Proof.
  cbv zeta. unfold find_n_vel.
  pose proof (scan_n_vel_inv c1 c2 (length c1) 1) as H. cbv zeta in H.
  destruct H as (H1 & H2 & H3); [lia|].
  split; [exact H1|]. split.
  - intros j Hj. destruct (H2 j Hj) as (L1 & L2 & E).
    apply orb_false_iff in E. destruct E as (E1 & E2).
    apply Qltb_ge in E1, E2. repeat split; assumption.
  - intros L1 L2. specialize (H3 L1 L2). apply orb_true_iff in H3.
    destruct H3 as [E|E]; apply Qltb_lt in E; [left|right]; exact E.
Qed.

(** X6.  When no bin centre of either cup is smaller than its predecessor,
    nothing is cut off: [n_vel] is the length of the shorter of the two
    arrays (and 1 if one of them is empty). *)
Theorem find_n_vel_no_fill (c1 c2 : list Q) :
  (forall j, 1 <= j -> j < length c1 -> j < length c2 ->
     (nth (j - 1) c1 0 <= nth j c1 0)%Q /\ (nth (j - 1) c2 0 <= nth j c2 0)%Q) ->
  find_n_vel c1 c2 = Nat.max 1 (Nat.min (length c1) (length c2)).
Proof.
  intros Hasc. unfold find_n_vel.
  pose proof (scan_n_vel_inv c1 c2 (length c1) 1) as H. cbv zeta in H.
  destruct H as (H1 & H2 & H3); [lia|].
  set (n := scan_n_vel (length c1) c1 c2 1) in *.
  destruct (Nat.lt_ge_cases n (Nat.min (length c1) (length c2))) as [Hlt|Hge].
  - exfalso. destruct (Hasc n) as (A1 & A2); try lia.
    assert (L1 : n < length c1) by lia. assert (L2 : n < length c2) by lia.
    specialize (H3 L1 L2). apply orb_true_iff in H3.
    destruct H3 as [E|E]; apply Qltb_lt in E.
    + exact (Qlt_not_le _ _ E A1).
    + exact (Qlt_not_le _ _ E A2).
  - destruct (Nat.eq_dec n 1) as [E|E]; [lia|].
    destruct (H2 (n - 1)) as (L1 & L2 & _); lia.
Qed.

(** ** The look directions chosen by the automatic selection *)

Lemma nth_list_set {A : Type} (d : A) (l : list A) (k q : nat) (x : A) :
  q < length l ->
  nth q (list_set l k x) d = if k =? q then x else nth q l d.
Proof.
  revert k q. induction l as [|a l IH]; intros [|k] [|q] H; simpl in *; try lia;
    try reflexivity.
  apply IH. lia.
Qed.

Lemma fold_list_set_length (f : nat -> nat) (l : list nat) (row : list bool) :
  length (fold_left (fun r p => list_set r (f p) true) l row) = length row.
Proof.
  revert row. induction l as [|p l IH]; intros row; simpl; [reflexivity|].
  rewrite IH. apply list_set_length.
Qed.

Lemma fold_list_set_nth (f : nat -> nat) (l : list nat) (row : list bool) (q : nat) :
  q < length row ->
  nth q (fold_left (fun r p => list_set r (f p) true) l row) false
  = nth q row false || existsb (fun p => f p =? q) l.
Proof.
  revert row. induction l as [|p l IH]; intros row H; simpl.
  - rewrite orb_false_r. reflexivity.
  - rewrite IH by (rewrite list_set_length; exact H).
    rewrite (nth_list_set false) by exact H.
    destruct (f p =? q); simpl.
    + rewrite orb_true_r. reflexivity.
    + reflexivity.
Qed.

Lemma count_true_set_true (row : list bool) (q : nat) :
  q < length row -> nth q row false = false ->
  count_true (list_set row q true) = S (count_true row).
Proof.
  revert q. induction row as [|a row IH]; intros [|q] H E; simpl in *; try lia.
  - subst a. reflexivity.
  - unfold count_true in *. simpl. destruct a; simpl; rewrite IH; try lia; auto.
Qed.

Lemma mod_distinct (n p q : nat) :
  p < q -> q - p < n -> p mod n <> q mod n.
Proof.
  intros H1 H2 E.
  assert (Hn : n <> 0) by lia.
  pose proof (Nat.div_mod_eq p n) as Ep.
  pose proof (Nat.div_mod_eq q n) as Eq.
  rewrite E in Ep.
  set (a := p / n) in *. set (b := q / n) in *. set (r := q mod n) in *.
  destruct (Nat.lt_ge_cases a b) as [Hab|Hab].
  - assert (n * (a + 1) <= n * b) by (apply Nat.mul_le_mono_l; lia). lia.
  - assert (n * b <= n * a) by (apply Nat.mul_le_mono_l; lia). lia.
Qed.

(** A circular window of [w <= n] directions selects [w] of them. *)
Lemma count_true_circular (n p0 w : nat) :
  w <= n ->
  count_true (fold_left (fun r p => list_set r (p mod n) true) (seq p0 w)
                        (repeat false n)) = w.
Proof.
  induction w as [|w IH]; intros H.
  - simpl. apply count_true_repeat_false.
  - rewrite seq_S, fold_left_app. simpl.
    assert (Hn : n <> 0) by lia.
    rewrite count_true_set_true.
    + rewrite IH by lia. reflexivity.
    + rewrite fold_list_set_length, repeat_length. apply Nat.mod_upper_bound; lia.
    + rewrite fold_list_set_nth
        by (rewrite repeat_length; apply Nat.mod_upper_bound; lia).
      rewrite nth_repeat. simpl.
      destruct (existsb _ _) eqn:E; [|reflexivity].
      apply existsb_exists in E. destruct E as (p & Hp & Hpe).
      apply in_seq in Hp. apply Nat.eqb_eq in Hpe.
      exfalso. apply (mod_distinct n p (p0 + w)); [lia|lia|exact Hpe].
Qed.

Lemma fold_Qmaxb_upper (l : list Q) (x : Q) :
  (x <= fold_left Qmaxb l x)%Q /\ forall y, In y l -> (y <= fold_left Qmaxb l x)%Q.
Proof.
  revert x. induction l as [|a l IH]; intros x; simpl.
  - split; [apply Qle_refl|intros y []].
  - destruct (IH (Qmaxb x a)) as (H1 & H2).
    assert (Hx : (x <= Qmaxb x a)%Q /\ (a <= Qmaxb x a)%Q).
    { unfold Qmaxb. destruct (Qltb x a) eqn:E.
      - apply Qltb_lt in E. split; [apply Qlt_le_weak; exact E|apply Qle_refl].
      - apply Qltb_ge in E. split; [apply Qle_refl|exact E]. }
    destruct Hx as (Hx & Ha). split.
    + apply Qle_trans with (Qmaxb x a); assumption.
    + intros y [<-|Hy]; [apply Qle_trans with (Qmaxb x a); assumption|apply H2; exact Hy].
Qed.

Lemma py_max_upper (l : list Q) (m : Q) :
  py_max l = Some m -> forall y, In y l -> (y <= m)%Q.
Proof.
  destruct l as [|x l]; simpl; [discriminate|].
  intros H. injection H as <-. destruct (fold_Qmaxb_upper l x) as (H1 & H2).
  intros y [<-|Hy]; [exact H1|apply H2; exact Hy].
Qed.

Lemma first_index_spec (cond : Q -> bool) (l : list Q) (i : nat) :
  first_index cond l = Some i ->
  i < length l /\ cond (nth i l 0%Q) = true /\
  forall j, j < i -> cond (nth j l 0%Q) = false.
Proof.
  revert i. induction l as [|x l IH]; intros i; simpl; [discriminate|].
  destruct (cond x) eqn:E.
  - intros H. injection H as <-. split; [lia|]. split; [exact E|]. intros j Hj. lia.
  - destruct (first_index cond l) as [k|]; [|discriminate]. simpl.
    intros H. injection H as <-. destruct (IH k eq_refl) as (H1 & H2 & H3).
    split; [lia|]. split; [exact H2|].
    intros [|j] Hj; [exact E|apply H3; lia].
Qed.

(** One altitude row of the automatic selection of look directions: with a
    window of [0 <= win_azm <= n_azm] directions, the row has [n_azm]
    entries of which exactly [win_azm] are selected; they are the circular
    window that starts at an azimuth [p0] whose window sum [mm_cur] is the
    largest of the row, and the first such azimuth. *)
Lemma sel_azm_row_spec (A : arith) (w : swe_t) (win_azm : Z) (t : nat) (row : list bool) :
  sel_azm_row A w win_azm t = Some row ->
  (0 <= win_azm <= Z.of_nat (n_azm w))%Z ->
  length row = n_azm w /\
  count_true row = Z.to_nat win_azm /\
  exists p0,
    p0 < n_azm w /\
    (forall p, p < n_azm w -> (mm_cur_at A w win_azm t p <= mm_cur_at A w win_azm t p0)%Q) /\
    (forall p, p < p0 -> (mm_cur_at A w win_azm t p < mm_cur_at A w win_azm t p0)%Q) /\
    (forall q, q < n_azm w ->
       (nth q row false = true
        <-> exists k, k < Z.to_nat win_azm /\ q = (p0 + k) mod n_azm w)).
Proof.
  unfold sel_azm_row. cbv zeta. fold (max_cur_row w t).
  set (mm_row := map (mm_cur_dir A (max_cur_row w t) (n_azm w) win_azm) (seq 0 (n_azm w))).
  intros H Hw.
  destruct (py_max mm_row) as [m|] eqn:Em; [|discriminate]. cbn [obind] in H.
  destruct (first_index _ mm_row) as [p0|] eqn:Ep; [|discriminate]. cbn [obind] in H.
  injection H as <-.
  destruct (first_index_spec _ _ _ Ep) as (Hp0 & Hm0 & Hfirst).
  unfold mm_row in Hp0. rewrite length_map, length_seq in Hp0.
  assert (Hmm : forall p, p < n_azm w -> nth p mm_row 0%Q = mm_cur_at A w win_azm t p).
  { intros p Hp. unfold mm_row. apply nth_map_seq. exact Hp. }
  assert (Hup : forall p, p < n_azm w -> (mm_cur_at A w win_azm t p <= m)%Q).
  { intros p Hp. rewrite <- Hmm by exact Hp. apply (py_max_upper mm_row m Em).
    apply nth_In. unfold mm_row. rewrite length_map, length_seq. exact Hp. }
  apply Qeq_bool_iff in Hm0. rewrite Hmm in Hm0 by exact Hp0.
  split; [rewrite fold_list_set_length; apply repeat_length|].
  split; [apply count_true_circular; lia|].
  exists p0. split; [exact Hp0|]. split; [|split].
  - intros p Hp. rewrite Hm0. apply Hup. exact Hp.
  - intros p Hp. rewrite Hm0. specialize (Hfirst p Hp).
    rewrite Hmm in Hfirst by lia.
    destruct (Qlt_le_dec (mm_cur_at A w win_azm t p) m) as [Hlt|Hle]; [exact Hlt|].
    exfalso. assert (E : (mm_cur_at A w win_azm t p == m)%Q)
      by (apply Qle_antisym; [apply Hup; lia|exact Hle]).
    apply Qeq_bool_iff in E. congruence.
  - intros q Hq.
    rewrite (fold_list_set_nth (fun p => p mod n_azm w)) by (rewrite repeat_length; exact Hq).
    rewrite nth_repeat. simpl. rewrite existsb_exists. split.
    + intros (p & Hp & Hpe). apply in_seq in Hp. apply Nat.eqb_eq in Hpe.
      exists (p - p0). split; [lia|]. replace (p0 + (p - p0)) with p by lia.
      symmetry. exact Hpe.
    + intros (k & Hk & ->). exists (p0 + k). split; [apply in_seq; lia|].
      apply Nat.eqb_refl.
Qed.

Lemma omap_nth {A B : Type} (f : A -> option B) (l : list A) (bs : list B)
  (da : A) (db : B) :
  omap f l = Some bs ->
  length bs = length l /\
  forall i, i < length l -> f (nth i l da) = Some (nth i bs db).
Proof.
  revert bs. induction l as [|a l IH]; intros bs; simpl.
  - intros H. injection H as <-. split; [reflexivity|]. intros i Hi. lia.
  - destruct (f a) as [b|] eqn:Ea; [|discriminate]. cbn [obind].
    destruct (omap f l) as [bs'|]; [|discriminate]. cbn [obind].
    intros H. injection H as <-. destruct (IH bs' eq_refl) as (Hl & Hn).
    split; [simpl; lia|]. intros [|i] Hi; [exact Ea|]. simpl. apply Hn. lia.
Qed.

Lemma count_true_concat_const (rows : list (list bool)) (w : nat) :
  (forall r, In r rows -> count_true r = w) ->
  count_true (concat rows) = length rows * w.
Proof.
  induction rows as [|r rows IH]; intros H; simpl; [reflexivity|].
  rewrite count_true_app, (H r (or_introl eq_refl)), IH; [reflexivity|].
  intros r' Hr. apply H. right. exact Hr.
Qed.

(** X8.  The automatic selection of look directions selects, in each of the
    [n_alt] altitude rows, exactly [mom_win_azm] of the [n_azm] look
    directions, so that [mom_n_sel_azm] is [n_alt * mom_win_azm]; the window
    width must lie between 0 and [n_azm], which the clamping of
    [auto_mom_sel] ensures. *)
Theorem auto_mom_sel_azm_count (A : arith) (s s' : core) :
  auto_mom_sel_azm A s = Some s' ->
  (0 <= mom_win_azm (win s) <= Z.of_nat (n_azm (swe s)))%Z ->
  exists azm,
    mom_sel_azm (sel s') = Some azm /\
    shape2 (n_alt (swe s)) (n_azm (swe s)) azm /\
    (forall t, t < n_alt (swe s) ->
       count_true (nth t azm []) = Z.to_nat (mom_win_azm (win s))) /\
    mom_n_sel_azm (sel s') = n_alt (swe s) * Z.to_nat (mom_win_azm (win s)).
Proof.
  unfold auto_mom_sel_azm. intros H Hw.
  destruct (omap _ _) as [rows|] eqn:E; [|discriminate]. cbn [obind] in H.
  injection H as <-. cbn [sel with_sel mom_sel_azm mom_n_sel_azm].
  destruct (omap_nth _ _ rows 0 [] E) as (Hl & Hn).
  rewrite length_seq in Hl, Hn.
  assert (Hrow : forall t, t < n_alt (swe s) ->
            length (nth t rows []) = n_azm (swe s) /\
            count_true (nth t rows []) = Z.to_nat (mom_win_azm (win s))).
  { intros t Ht. specialize (Hn t Ht). rewrite seq_nth in Hn by exact Ht.
    destruct (sel_azm_row_spec A _ _ _ _ Hn Hw) as (H1 & H2 & _). split; assumption. }
  assert (Hall : forall r, In r rows ->
            length r = n_azm (swe s) /\ count_true r = Z.to_nat (mom_win_azm (win s))).
  { intros r Hr. destruct (In_nth rows r [] Hr) as (t & Ht & <-).
    apply Hrow. lia. }
  exists rows. split; [reflexivity|]. split; [|split].
  - split; [exact Hl|]. apply Forall_forall. intros r Hr. apply (Hall r Hr).
  - intros t Ht. apply (Hrow t Ht).
  - unfold count_true2. rewrite (count_true_concat_const rows (Z.to_nat (mom_win_azm (win s)))).
    + rewrite Hl. reflexivity.
    + intros r Hr. apply (Hall r Hr).
Qed.

(** X9.  Where the window lies: in each altitude row the selected look
    directions are the [mom_win_azm] consecutive azimuths, wrapping around,
    that start at the first azimuth whose window sum of per-direction maximum
    valid currents, as accumulated in double precision, is the largest of
    the row.  This holds whatever the rounding of the additions. *)
Theorem auto_mom_sel_azm_window (A : arith) (s s' : core) :
  auto_mom_sel_azm A s = Some s' ->
  (0 <= mom_win_azm (win s) <= Z.of_nat (n_azm (swe s)))%Z ->
  exists azm,
    mom_sel_azm (sel s') = Some azm /\
    forall t, t < n_alt (swe s) ->
      exists p0,
        p0 < n_azm (swe s) /\
        (forall p, p < n_azm (swe s) ->
           (mm_cur_at A (swe s) (mom_win_azm (win s)) t p
            <= mm_cur_at A (swe s) (mom_win_azm (win s)) t p0)%Q) /\
        (forall p, p < p0 ->
           (mm_cur_at A (swe s) (mom_win_azm (win s)) t p
            < mm_cur_at A (swe s) (mom_win_azm (win s)) t p0)%Q) /\
        (forall q, q < n_azm (swe s) ->
           (grid_get false azm t q = true
            <-> exists k, k < Z.to_nat (mom_win_azm (win s))
                          /\ q = (p0 + k) mod n_azm (swe s))).
Proof.
  unfold auto_mom_sel_azm. intros H Hw.
  destruct (omap _ _) as [rows|] eqn:E; [|discriminate]. cbn [obind] in H.
  injection H as <-. cbn [sel with_sel mom_sel_azm].
  destruct (omap_nth _ _ rows 0 [] E) as (Hl & Hn).
  rewrite length_seq in Hl, Hn.
  exists rows. split; [reflexivity|]. intros t Ht.
  specialize (Hn t Ht). rewrite seq_nth in Hn by exact Ht.
  destruct (sel_azm_row_spec A _ _ _ _ Hn Hw) as (_ & _ & p0 & H1 & H2 & H3 & H4).
  exists p0. repeat split; try assumption; apply (H4 q); assumption.
Qed.

(** ** The window widths that [auto_mom_sel] stores *)

Lemma auto_mom_sel_body_win (A : arith) (wa wc : win_arg) (s s' : core) :
  auto_mom_sel_body A wa wc s = Some s' ->
  win s' =
  {| mom_win_azm_req := win_req wa (mom_win_azm_req (win s));
     mom_win_cur_req := win_req wc (mom_win_cur_req (win s));
     mom_win_azm := win_clamp (win_eff (win_req wa (mom_win_azm_req (win s)))
                                       (mom_win_azm (win s)))
                              (mom_min_sel_azm (sel s)) (n_azm (swe s));
     mom_win_cur := win_clamp (win_eff (win_req wc (mom_win_cur_req (win s)))
                                       (mom_win_cur (win s)))
                              (mom_min_sel_cur (sel s)) (n_vel (swe s)) |}.
Proof.
  unfold auto_mom_sel_body. intros H.
  destruct (auto_mom_sel_azm A _) as [s1|] eqn:E1; [|discriminate].
  cbn [obind] in H.
  destruct (auto_mom_sel_cur A s1) as [s2|] eqn:E2; [|discriminate].
  cbn [obind] in H.
  unfold auto_mom_sel_azm in E1.
  destruct (omap _ _) as [azm0|] eqn:E in E1; [|discriminate].
  cbn in E1. injection E1 as <-.
  unfold auto_mom_sel_cur in E2. cbn in E2. injection E2 as <-.
  destruct (vldt_mom_sel_result _ s' H) as (old & c & _ & _ & R).
  cbv zeta in R. destruct R as (_ & _ & _ & Hwin & _).
  rewrite Hwin. reflexivity.
Qed.

(** X10.  Whatever widths are requested, the widths that [auto_mom_sel] stores
    lie between 0 and the number of look directions (of bins) there are, and
    are at least the minimum count whenever that many exist.  For each of
    the two windows, a request that is an integer is recorded and used; a
    request that is not an integer clears the recorded request and the
    previous width is used again; no request leaves the recorded request as
    it is, and the recorded request, if any, is used. *)
Theorem auto_mom_sel_widths (A : arith) (wa wc : win_arg) (s s' : core) :
  auto_mom_sel_body A wa wc s = Some s' ->
  (0 <= mom_win_azm (win s') <= Z.of_nat (n_azm (swe s)))%Z /\
  (0 <= mom_win_cur (win s') <= Z.of_nat (n_vel (swe s)))%Z /\
  (mom_min_sel_azm (sel s) <= n_azm (swe s) ->
     (Z.of_nat (mom_min_sel_azm (sel s)) <= mom_win_azm (win s'))%Z) /\
  (mom_min_sel_cur (sel s) <= n_vel (swe s) ->
     (Z.of_nat (mom_min_sel_cur (sel s)) <= mom_win_cur (win s'))%Z) /\
  (forall z, wa = w_int z ->
     mom_win_azm_req (win s') = Some z /\
     mom_win_azm (win s')
     = Z.min (Z.max z (Z.of_nat (mom_min_sel_azm (sel s)))) (Z.of_nat (n_azm (swe s)))) /\
  (wa = w_bad ->
     mom_win_azm_req (win s') = None /\
     mom_win_azm (win s')
     = Z.min (Z.max (mom_win_azm (win s)) (Z.of_nat (mom_min_sel_azm (sel s))))
             (Z.of_nat (n_azm (swe s)))) /\
  (wa = w_none ->
     mom_win_azm_req (win s') = mom_win_azm_req (win s) /\
     mom_win_azm (win s')
     = Z.min (Z.max (match mom_win_azm_req (win s) with
                     | Some z => z
                     | None => mom_win_azm (win s)
                     end)
                    (Z.of_nat (mom_min_sel_azm (sel s))))
             (Z.of_nat (n_azm (swe s)))) /\
  (forall z, wc = w_int z ->
     mom_win_cur_req (win s') = Some z /\
     mom_win_cur (win s')
     = Z.min (Z.max z (Z.of_nat (mom_min_sel_cur (sel s)))) (Z.of_nat (n_vel (swe s)))) /\
  (wc = w_bad ->
     mom_win_cur_req (win s') = None /\
     mom_win_cur (win s')
     = Z.min (Z.max (mom_win_cur (win s)) (Z.of_nat (mom_min_sel_cur (sel s))))
             (Z.of_nat (n_vel (swe s)))) /\
  (wc = w_none ->
     mom_win_cur_req (win s') = mom_win_cur_req (win s) /\
     mom_win_cur (win s')
     = Z.min (Z.max (match mom_win_cur_req (win s) with
                     | Some z => z
                     | None => mom_win_cur (win s)
                     end)
                    (Z.of_nat (mom_min_sel_cur (sel s))))
             (Z.of_nat (n_vel (swe s)))).
Proof.
  intros H. rewrite (auto_mom_sel_body_win A wa wc s s' H).
  cbn [mom_win_azm mom_win_cur mom_win_azm_req mom_win_cur_req].
  split; [apply win_clamp_range|]. split; [apply win_clamp_range|].
  split; [unfold win_clamp; lia|]. split; [unfold win_clamp; lia|].
  split; [intros z ->; split; reflexivity|].
  split; [intros ->; split; reflexivity|].
  split; [intros ->; split; reflexivity|].
  split; [intros z ->; split; reflexivity|].
  split; [intros ->; split; reflexivity|].
  intros ->; split; reflexivity.
Qed.

(** ** The counters after the validation *)

Lemma count_true2_tile2_false (n1 n2 : nat) : count_true2 (tile2 false n1 n2) = 0.
Proof.
  unfold count_true2, tile2.
  rewrite (count_true_concat_const _ 0).
  - lia.
  - intros r Hr. apply repeat_spec in Hr. subst r. apply count_true_repeat_false.
Qed.

Lemma shape2_grid {A : Type} (f : nat -> nat -> A) (n1 n2 : nat) :
  shape2 n1 n2 (map (fun t => map (fun p => f t p) (seq 0 n2)) (seq 0 n1)).
Proof.
  split; [rewrite length_map, length_seq; reflexivity|].
  apply Forall_forall. intros r Hr. apply in_map_iff in Hr.
  destruct Hr as (t & <- & _). rewrite length_map, length_seq. reflexivity.
Qed.

Lemma shape2_tile2 {A : Type} (x : A) (n1 n2 : nat) : shape2 n1 n2 (tile2 x n1 n2).
Proof.
  split; [apply repeat_length|].
  apply Forall_forall. intros r Hr. apply repeat_spec in Hr. subst r.
  apply repeat_length.
Qed.

(** X11.  The validation never changes which bins are selected.  It leaves a mask
    of look directions of shape [[n_alt, n_azm]] and a counter
    [mom_n_sel_azm] that is the number of look directions used; that number
    is either zero or at least [mom_min_sel_azm]; and when it is not zero, a
    look direction is used exactly when its number of selected bins reaches
    [mom_min_sel_cur]. *)
Theorem vldt_mom_sel_counts (s s' : core) :
  vldt_mom_sel s = Some s' ->
  exists azm c,
    mom_sel_azm (sel s') = Some azm /\
    mom_sel_cur (sel s) = Some c /\ mom_sel_cur (sel s') = Some c /\
    shape2 (n_alt (swe s)) (n_azm (swe s)) azm /\
    mom_n_sel_azm (sel s') = count_true2 azm /\
    (mom_n_sel_azm (sel s') = 0
     \/ mom_min_sel_azm (sel s) <= mom_n_sel_azm (sel s')) /\
    (mom_n_sel_azm (sel s') <> 0 ->
     forall t p, t < n_alt (swe s) -> p < n_azm (swe s) ->
       grid_get false azm t p
       = (mom_min_sel_cur (sel s) <=? count_true (cube_row c t p))).
Proof.
  intros H. destruct (vldt_mom_sel_result s s' H) as (old & c & _ & Hc & R).
  cbv zeta in R. destruct R as (Hsel & _).
  rewrite Hsel. cbn [mom_sel_azm mom_sel_cur mom_n_sel_azm].
  set (na := n_alt (swe s)). set (nz := n_azm (swe s)).
  set (n_cur := count_grid na nz c).
  set (azm := map (fun t => map (fun p => mom_min_sel_cur (sel s) <=? grid_get 0 n_cur t p)
                               (seq 0 nz)) (seq 0 na)).
  eexists _, c. split; [reflexivity|]. split; [exact Hc|]. split; [reflexivity|].
  destruct (count_true2 azm <? mom_min_sel_azm (sel s)) eqn:E.
  - split; [apply shape2_tile2|]. split; [symmetry; apply count_true2_tile2_false|].
    split; [left; reflexivity|]. intros Hne. contradiction.
  - apply Nat.ltb_ge in E.
    split; [apply (shape2_grid (fun t p => mom_min_sel_cur (sel s) <=? grid_get 0 n_cur t p))|].
    split; [reflexivity|]. split; [right; exact E|].
    intros _ t p Ht Hp. unfold azm.
    rewrite (grid_get_map_seq false
               (fun t p => mom_min_sel_cur (sel s) <=? grid_get 0 n_cur t p))
      by assumption.
    unfold n_cur, count_grid.
    rewrite (grid_get_map_seq 0 (fun t p => count_true (cube_row c t p))) by assumption.
    reflexivity.
Qed.

(** ** The parameter vector *)

Lemma make_nln_gss_prm_flat (vec_v0 : list Q) (pops : list pop_t) :
  make_nln_gss_prm vec_v0 pops = vec_v0 ++ flat_map pop_prm pops.
Proof.
  unfold make_nln_gss_prm. revert vec_v0.
  induction pops as [|p pops IH]; intros v; simpl.
  - rewrite app_nil_r. reflexivity.
  - rewrite IH, <- app_assoc. reflexivity.
Qed.

Lemma nth_error_skip {A : Type} (pre l : list A) (k : nat) :
  nth_error (pre ++ l) (length pre + k) = nth_error l k.
Proof.
  rewrite nth_error_app2 by lia. f_equal. lia.
Qed.

Lemma read_prm_round (pops : list pop_t) :
  forall (pre : list Q),
    read_prm (map pop_flags pops) (pre ++ flat_map pop_prm pops) (length pre)
    = Some (map pop_val pops).
Proof.
  induction pops as [|p pops IH]; intros pre; [reflexivity|].
  cbn [map flat_map read_prm pop_flags].
  assert (E : forall l, pre ++ pop_prm p ++ l = (pre ++ pop_prm p) ++ l)
    by (intros l; apply app_assoc).
  specialize (IH (pre ++ pop_prm p)). rewrite <- E in IH. rewrite length_app in IH.
  unfold pop_prm in *. unfold pop_val.
  destruct (pop_drift p), (pop_aniso p); cbn [app length] in *.
  - replace (length pre) with (length pre + 0) at 1 by lia.
    rewrite nth_error_skip. cbn [nth_error obind].
    rewrite (nth_error_skip pre _ 1). cbn [nth_error obind snd fst].
    replace (length pre + 1 + 1) with (length pre + 2) by lia.
    rewrite (nth_error_skip pre _ 2). cbn [nth_error obind].
    replace (length pre + 2 + 1) with (length pre + 3) by lia.
    rewrite (nth_error_skip pre _ 3). cbn [nth_error obind].
    replace (length pre + 2 + 2) with (length pre + 4) by lia.
    rewrite IH. reflexivity.
  - replace (length pre) with (length pre + 0) at 1 by lia.
    rewrite nth_error_skip. cbn [nth_error obind].
    rewrite (nth_error_skip pre _ 1). cbn [nth_error obind snd fst].
    replace (length pre + 1 + 1) with (length pre + 2) by lia.
    rewrite (nth_error_skip pre _ 2). cbn [nth_error obind].
    replace (length pre + 2 + 1) with (length pre + 3) by lia.
    rewrite IH. reflexivity.
  - replace (length pre) with (length pre + 0) at 1 by lia.
    rewrite nth_error_skip. cbn [nth_error obind snd fst].
    rewrite (nth_error_skip pre _ 1). cbn [nth_error obind].
    replace (length pre + 1 + 1) with (length pre + 2) by lia.
    rewrite (nth_error_skip pre _ 2). cbn [nth_error obind].
    replace (length pre + 1 + 2) with (length pre + 3) by lia.
    rewrite IH. reflexivity.
  - replace (length pre) with (length pre + 0) at 1 by lia.
    rewrite nth_error_skip. cbn [nth_error obind snd fst].
    rewrite (nth_error_skip pre _ 1). cbn [nth_error obind].
    replace (length pre + 1 + 1) with (length pre + 2) by lia.
    rewrite IH. reflexivity.
Qed.

(** X18.  Round trip of the parameter vector: reading the vector that
    [make_nln_gss] builds from a bulk velocity of three components and a
    list of populations, with the counter starting at 3 as in
    [calc_nln_cur] and [anls_nln], gives back for every population exactly
    the values that were put in (density, drift if the population drifts,
    and one thermal speed or the perpendicular and parallel pair), and the
    bulk velocity is found at positions 0 to 2. *)
Theorem read_prm_make_nln_gss (vec_v0 : list Q) (pops : list pop_t) :
  length vec_v0 = 3 ->
  read_prm (map pop_flags pops) (make_nln_gss_prm vec_v0 pops) 3
  = Some (map pop_val pops) /\
  firstn 3 (make_nln_gss_prm vec_v0 pops) = vec_v0.
Proof.
  intros H. rewrite make_nln_gss_prm_flat. split.
  - rewrite <- H. apply read_prm_round.
  - rewrite <- H. rewrite firstn_app, Nat.sub_diag, firstn_all. simpl.
    apply app_nil_r.
Qed.

(** ** The settings of the non-linear analysis *)

Lemma positive_or_none_pos (x : option pyfloat) (v : pyfloat) :
  positive_or_none x = Some v -> f_leb v f_zero = false.
Proof.
  destruct x as [y|]; simpl; [|discriminate].
  destruct (f_leb y f_zero) eqn:E; [discriminate|].
  intros H. injection H as <-. exact E.
Qed.

Lemma chng_nln_set_index (n_pop : nat) (drift : nat -> bool) (i : Z)
  (prm : set_param) (st st' : nln_set_t) :
  chng_nln_set n_pop drift i prm st = Some st' ->
  (0 <= i)%Z /\ Z.to_nat i < n_pop.
Proof.
  unfold chng_nln_set.
  destruct ((i <? 0)%Z || (i >=? Z.of_nat n_pop)%Z) eqn:E; [discriminate|].
  intros _. apply orb_false_elim in E. destruct E as [E1 E2].
  apply Z.ltb_ge in E1. rewrite Z.geb_leb in E2. apply Z.leb_gt in E2. lia.
Qed.

Ltac flag_cases :=
  repeat match goal with
         | |- context [is_none ?x] => destruct (is_none x)
         end.

Ltac nth_set :=
  repeat (rewrite nth_list_set by (rewrite ?list_set_length; lia)).

(** X20.  [chng_nln_set] keeps the settings coherent: whatever index, parameter
    name and value it is given (NaN and the infinities included), if the
    settings were coherent before the call they are coherent after it.  In
    particular a density or width factor that compares [<= 0], and a window
    that compares [a >= b], are never stored, and the validity flags always
    agree with what is set.  A NaN passes both comparisons: it is stored and
    flagged as valid. *)
Theorem chng_nln_set_keeps_ok (n_pop : nat) (drift : nat -> bool) (i : Z)
  (prm : set_param) (st st' : nln_set_t) :
  nln_set_ok n_pop drift st ->
  chng_nln_set n_pop drift i prm st = Some st' ->
  nln_set_ok n_pop drift st'.
Proof.
  intros [Hlen Hok] H.
  destruct (chng_nln_set_index _ _ _ _ _ _ H) as [Hi Hk].
  unfold chng_nln_set in H.
  destruct ((i <? 0)%Z || (i >=? Z.of_nat n_pop)%Z); [discriminate|].
  cbv zeta in H. set (k := Z.to_nat i) in *.
  destruct Hlen as (L1 & L2 & L3 & L4 & L5 & L6 & L7).
  destruct prm as [val|val|val|val0 val1|]; [| | | |discriminate];
    injection H as <-; unfold nln_set_ok, vldt_nln_set;
    cbn [nln_set_gss_n nln_set_gss_d nln_set_gss_w nln_set_gss_vld
         nln_set_sel_a nln_set_sel_b nln_set_sel_vld];
    (split; [rewrite ?list_set_length; tauto|]);
    intros j Hj; destruct (Hok j Hj) as (P1 & P2 & P3 & P4 & P5);
    nth_set; rewrite ?Nat.eqb_refl;
    (destruct (k =? j) eqn:Ekj;
     [apply Nat.eqb_eq in Ekj; subst j
     |repeat split; assumption]).
  - (* gss_n *)
    split; [intros q Hq; exact (positive_or_none_pos _ _ Hq)|].
    split; [exact P2|]. split; [exact P3|].
    split; flag_cases; destruct (drift k); reflexivity.
  - (* gss_d *)
    split; [exact P1|]. split; [exact P2|]. split; [exact P3|].
    split; flag_cases; destruct (drift k); reflexivity.
  - (* gss_w *)
    split; [exact P1|].
    split; [intros q Hq; exact (positive_or_none_pos _ _ Hq)|].
    split; [exact P3|].
    split; flag_cases; destruct (drift k); reflexivity.
  - (* sel *)
    split; [exact P1|]. split; [exact P2|].
    split.
    + intros a b Ha Hb.
      destruct val0 as [a0|], val1 as [b0|]; cbn [fst snd] in Ha, Hb;
        try discriminate.
      destruct (f_geb a0 b0) eqn:E; cbn [fst snd] in Ha, Hb;
        [discriminate|].
      injection Ha as <-. injection Hb as <-. exact E.
    + split; flag_cases; destruct (drift k); reflexivity.
Qed.

Lemma nth_error_list_set_other {A : Type} (l : list A) (k j : nat) (x : A) :
  j <> k -> nth_error (list_set l k x) j = nth_error l j.
Proof.
  revert k j. induction l as [|a l IH]; intros [|k] [|j] H; simpl;
    try reflexivity; try lia.
  apply IH. lia.
Qed.

(** X21.  [chng_nln_set] changes nothing of the other populations: every entry of
    every array at an index other than [i] is what it was. *)
Theorem chng_nln_set_others (n_pop : nat) (drift : nat -> bool) (i : Z)
  (prm : set_param) (st st' : nln_set_t) (j : nat) :
  chng_nln_set n_pop drift i prm st = Some st' ->
  j <> Z.to_nat i ->
  nth_error (nln_set_gss_n st') j = nth_error (nln_set_gss_n st) j /\
  nth_error (nln_set_gss_d st') j = nth_error (nln_set_gss_d st) j /\
  nth_error (nln_set_gss_w st') j = nth_error (nln_set_gss_w st) j /\
  nth_error (nln_set_gss_vld st') j = nth_error (nln_set_gss_vld st) j /\
  nth_error (nln_set_sel_a st') j = nth_error (nln_set_sel_a st) j /\
  nth_error (nln_set_sel_b st') j = nth_error (nln_set_sel_b st) j /\
  nth_error (nln_set_sel_vld st') j = nth_error (nln_set_sel_vld st) j.
Proof.
  intros H Hj. unfold chng_nln_set in H.
  destruct ((i <? 0)%Z || (i >=? Z.of_nat n_pop)%Z); [discriminate|].
  cbv zeta in H. set (k := Z.to_nat i) in *.
  destruct prm as [val|val|val|val0 val1|]; [| | | |discriminate];
    injection H as <-; unfold vldt_nln_set;
    cbn [nln_set_gss_n nln_set_gss_d nln_set_gss_w nln_set_gss_vld
         nln_set_sel_a nln_set_sel_b nln_set_sel_vld];
    rewrite ?(nth_error_list_set_other _ k j) by exact Hj;
    repeat split; reflexivity.
Qed.

(** The settings that [rset_var] stores are coherent for the five
    populations, whenever the first population does not drift (as
    [rset_var] creates it). *)
Lemma nln_set_reset_ok (drift : nat -> bool) :
  drift 0 = false -> nln_set_ok 5 drift nln_set_reset.
Proof.
  intros H0. split; [repeat split|].
  intros k Hk.
  destruct k as [|[|[|[|[|k]]]]]; try lia; cbn;
    rewrite ?H0, ?andb_true_r, ?andb_false_r;
    (split; [intros q Hq; try discriminate; injection Hq as <-; reflexivity|]);
    (split; [intros q Hq; try discriminate; injection Hq as <-; reflexivity|]);
    (split; [intros a b Ha Hb; injection Ha as <-; injection Hb as <-; reflexivity|]);
    split; reflexivity.
Qed.

(** ** Reading a parameter vector *)

Lemma read_prm_cons (drift aniso : bool) (flags : list (bool * bool))
  (prm : list Q) (c : nat) :
  read_prm ((drift, aniso) :: flags) prm c <> None <->
  c + pop_size (drift, aniso) <= length prm /\
  read_prm flags prm (c + pop_size (drift, aniso)) <> None.
Proof.
  cbn [read_prm]. unfold pop_size. cbn [fst snd].
  assert (Hn : forall k, nth_error prm k <> None <-> k < length prm)
    by (intros k; apply nth_error_Some).
  assert (Hx : forall k, nth_error prm k = None <-> length prm <= k)
    by (intros k; apply nth_error_None).
  destruct drift, aniso;
    repeat match goal with
    | |- context [nth_error prm ?k] =>
        let E := fresh "E" in
        destruct (nth_error prm k) eqn:E;
        [assert (k < length prm) by (apply Hn; congruence)
        |apply Hx in E]; cbn [obind snd fst]
    end;
    try (split; [intros F; exfalso; apply F; reflexivity | intros [F _]; lia]).
  - replace (c + (1 + 1 + 2)) with (c + 1 + 1 + 2) by lia.
    destruct (read_prm flags prm (c + 1 + 1 + 2)); cbn [obind];
      split; try (intros; split; [lia|congruence]); try congruence; tauto.
  - replace (c + (1 + 1 + 1)) with (c + 1 + 1 + 1) by lia.
    destruct (read_prm flags prm (c + 1 + 1 + 1)); cbn [obind];
      split; try (intros; split; [lia|congruence]); try congruence; tauto.
  - replace (c + (1 + 0 + 2)) with (c + 1 + 2) by lia.
    destruct (read_prm flags prm (c + 1 + 2)); cbn [obind];
      split; try (intros; split; [lia|congruence]); try congruence; tauto.
  - replace (c + (1 + 0 + 1)) with (c + 1 + 1) by lia.
    destruct (read_prm flags prm (c + 1 + 1)); cbn [obind];
      split; try (intros; split; [lia|congruence]); try congruence; tauto.
Qed.

(** X19.  Reading a parameter vector raises no [IndexError] exactly when the
    vector is long enough: with the counter at [c], a non-empty list of
    populations is read if and only if the vector has at least [c] entries
    plus one per density, one per drift and one or two per thermal speed. *)
Theorem read_prm_defined (flags : list (bool * bool)) (prm : list Q) (c : nat) :
  read_prm flags prm c <> None <->
  flags = [] \/ c + prm_size flags <= length prm.
Proof.
  revert c. induction flags as [|[drift aniso] flags IH]; intros c.
  - cbn. split; [intros _; left; reflexivity|intros _; discriminate].
  - rewrite read_prm_cons, IH. cbn [prm_size fold_right].
    fold (prm_size flags).
    split.
    + intros [H1 [->|H2]]; right; cbn in *; lia.
    + intros [F|H]; [discriminate|].
      split; [lia|]. destruct flags; [left; reflexivity|right; lia].
Qed.

(** When a parameter vector is read, one record per population comes
    back. *)
Lemma read_prm_length (flags : list (bool * bool)) (prm : list Q) :
  forall (c : nat) (vals : list pop_val_t),
    read_prm flags prm c = Some vals -> length vals = length flags.
Proof.
  induction flags as [|[drift aniso] flags IH]; intros c vals H.
  - cbn in H. injection H as <-. reflexivity.
  - cbn [read_prm] in H.
    destruct (nth_error prm c); [|discriminate]. cbn [obind] in H.
    destruct drift; cbn [obind snd fst] in H.
    + destruct (nth_error prm (c + 1)); [|discriminate]. cbn [obind snd fst] in H.
      destruct aniso.
      * destruct (nth_error prm (c + 1 + 1)); [|discriminate]. cbn [obind] in H.
        destruct (nth_error prm (c + 1 + 1 + 1)); [|discriminate]. cbn [obind] in H.
        destruct (read_prm flags prm (c + 1 + 1 + 2)) eqn:E; [|discriminate].
        injection H as <-. cbn. f_equal. exact (IH _ _ E).
      * destruct (nth_error prm (c + 1 + 1)); [|discriminate]. cbn [obind] in H.
        destruct (read_prm flags prm (c + 1 + 1 + 1)) eqn:E; [|discriminate].
        injection H as <-. cbn. f_equal. exact (IH _ _ E).
    + destruct aniso.
      * destruct (nth_error prm (c + 1)); [|discriminate]. cbn [obind] in H.
        destruct (nth_error prm (c + 1 + 1)); [|discriminate]. cbn [obind] in H.
        destruct (read_prm flags prm (c + 1 + 2)) eqn:E; [|discriminate].
        injection H as <-. cbn. f_equal. exact (IH _ _ E).
      * destruct (nth_error prm (c + 1)); [|discriminate]. cbn [obind] in H.
        destruct (read_prm flags prm (c + 1 + 1)) eqn:E; [|discriminate].
        injection H as <-. cbn. f_equal. exact (IH _ _ E).
Qed.

(** ** Clipping *)

Lemma f_leb_not_nan (x y : pyfloat) : f_leb x y = true -> x <> f_nan /\ y <> f_nan.
Proof.
  destruct x as [a|[|]|], y as [b|[|]|]; cbn; intros H; try discriminate;
    split; discriminate.
Qed.

Lemma f_leb_refl (x : pyfloat) : x <> f_nan -> f_leb x x = true.
Proof.
  destruct x as [a|[|]|]; cbn; intros H; try reflexivity.
  - apply Qle_bool_iff. apply Qle_refl.
  - contradiction.
Qed.

Lemma f_leb_total (x y : pyfloat) :
  x <> f_nan -> y <> f_nan -> f_leb x y = false -> f_leb y x = true.
Proof.
  destruct x as [a|[|]|], y as [b|[|]|]; cbn; intros Hx Hy H;
    try reflexivity; try discriminate; try contradiction.
  apply Qle_bool_iff. apply Qlt_le_weak. apply Qnot_le_lt.
  intros Hle. apply Qle_bool_iff in Hle. congruence.
Qed.

Lemma f_leb_trans (x y z : pyfloat) :
  f_leb x y = true -> f_leb y z = true -> f_leb x z = true.
Proof.
  destruct x as [a|[|]|], y as [b|[|]|], z as [c|[|]|]; cbn; intros H1 H2;
    try reflexivity; try discriminate.
  apply Qle_bool_iff. apply Qle_bool_iff in H1, H2.
  exact (Qle_trans _ _ _ H1 H2).
Qed.

Lemma f_ltb_false (x y : pyfloat) :
  x <> f_nan -> y <> f_nan -> f_ltb x y = false -> f_leb y x = true.
Proof.
  intros Hx Hy H. unfold f_ltb in H.
  destruct (f_leb y x) eqn:E; [reflexivity|].
  rewrite (f_leb_total y x Hy Hx E) in H. discriminate.
Qed.

Lemma f_ltb_true (x y : pyfloat) :
  f_ltb x y = true -> f_leb x y = true /\ f_leb y x = false.
Proof.
  unfold f_ltb. intros H. apply andb_true_iff in H. destruct H as [H1 H2].
  apply negb_true_iff in H2. split; assumption.
Qed.

(** X22.  [calc_arr_clp] of a scalar with [lwr <= upr].  For an argument
    that is not NaN the result lies between the two bounds: it is the
    argument itself when that lies between them, the lower bound when the
    argument is below it and the upper bound when the argument is above it.
    A NaN is returned as it is, so the result is then not between the
    bounds. *)
Theorem calc_arr_clp_spec (a lwr upr : pyfloat) :
  f_leb lwr upr = true ->
  calc_arr_clp f_nan lwr upr = f_nan /\
  (a <> f_nan ->
   f_leb lwr (calc_arr_clp a lwr upr) = true /\
   f_leb (calc_arr_clp a lwr upr) upr = true /\
   (f_leb lwr a = true -> f_leb a upr = true -> calc_arr_clp a lwr upr = a) /\
   (f_ltb a lwr = true -> calc_arr_clp a lwr upr = lwr) /\
   (f_ltb upr a = true -> calc_arr_clp a lwr upr = upr)).
Proof.
  intros H. destruct (f_leb_not_nan _ _ H) as [Hl Hu].
  split.
  - unfold calc_arr_clp, py_max2, py_min2, f_gtb, f_ltb.
    destruct lwr as [l|[|]|], upr as [u|[|]|]; reflexivity.
  - intros Ha. unfold calc_arr_clp, py_max2, py_min2, f_gtb.
    destruct (f_ltb a lwr) eqn:E1.
    + destruct (f_ltb_true _ _ E1) as [E1a E1b].
      assert (E2 : f_ltb upr lwr = false) by (unfold f_ltb; rewrite H; apply andb_false_r).
      rewrite E2.
      split; [exact (f_leb_refl lwr Hl)|]. split; [exact H|].
      split; [intros Hla; congruence|]. split; [reflexivity|].
      intros Hua. destruct (f_ltb_true _ _ Hua) as [Hua1 Hua2].
      rewrite (f_leb_trans a lwr upr E1a H) in Hua2. discriminate.
    + pose proof (f_ltb_false a lwr Ha Hl E1) as Hla.
      destruct (f_ltb upr a) eqn:E2.
      * destruct (f_ltb_true _ _ E2) as [E2a E2b].
        split; [exact H|]. split; [exact (f_leb_refl upr Hu)|].
        split; [intros _ Hau; congruence|]. split; [discriminate|reflexivity].
      * pose proof (f_ltb_false upr a Hu Ha E2) as Hau.
        split; [exact Hla|]. split; [exact Hau|].
        split; [reflexivity|]. split; discriminate.
Qed.

(** ** Unit vectors *)






(** ** The effective thermal speed of the forward model *)




(** ** The range of speeds of the automatic selection *)


(** * Instances of the properties on the sample data *)

Lemma anls_nln_norun_resets_sample :
  n_mfi (core_loaded 0 raw_top) = 0 /\
  anls_nln numerics_sample (core_loaded 0 raw_top)
  = Some (emit janus_chng_nln_res
            (emit (janus_mesg m_norun o_nln)
                  (rset_var_nln_res (core_loaded 0 raw_top)))).
Proof.
  assert (H : n_mfi (core_loaded 0 raw_top) = 0) by (vm_compute; reflexivity).
  split; [exact H|].
  exact (proj1 (anls_nln_norun_resets numerics_sample (core_loaded 0 raw_top)
                  (or_intror (or_introl H)))).
Defined.

Lemma anls_nln_log_sample :
  anls_nln numerics_fit core_fit_ready = Some core_fitted /\
  ((series core_fitted = series core_fit_ready /\ nres core_fitted = nln_res_reset
    /\ ~ In (janus_mesg m_end o_nln)
            (skipn (length (signals core_fit_ready)) (signals core_fitted)))
   \/ (exists f,
         series core_fitted
         = series core_fit_ready ++ [plas_fit (time_epc (swe core_fit_ready)) f] /\
         nln_res_plas (nres core_fitted) = plas_fit (time_epc (swe core_fit_ready)) f /\
         nln_res_sel (nres core_fitted) = nln_sel (nsel core_fit_ready) /\
         skipn (length (signals core_fit_ready)) (signals core_fitted)
         = [janus_mesg m_begin o_nln; janus_mesg m_end o_nln; janus_chng_nln_res])).
Proof.
  assert (H : anls_nln numerics_fit core_fit_ready = Some core_fitted)
    by (vm_compute; reflexivity).
  split; [exact H|].
  exact (anls_nln_log numerics_fit core_fit_ready core_fitted H).
Defined.

Lemma cube_toggle_twice_sample :
  cube_toggle [[[true; false]]] 0 0 (-1) = Some [[[true; true]]] /\
  cube_toggle [[[true; true]]] 0 0 (-1) = Some [[[true; false]]].
Proof.
  assert (H : cube_toggle [[[true; false]]] 0 0 (-1) = Some [[[true; true]]])
    by reflexivity.
  split; [exact H|].
  exact (cube_toggle_twice [[[true; false]]] [[[true; true]]] 0 0 (-1) H).
Defined.

Lemma prop_nln_sel_rule_sample :
  prop_nln_sel numerics_sample None core_fit_ready = Some core_propagated /\
  exists s1,
    nsel s1 = {| nln_sel := nln_sel (nsel core_fit_ready);
                 nln_n_sel := match nln_sel (nsel core_fit_ready) with
                              | Some c => count_true3 c
                              | None => 0
                              end;
                 nln_min_sel := nln_min_sel (nsel core_fit_ready) |} /\
    signals s1 = signals core_fit_ready ++ [janus_chng_nln_sel_all] /\
    swe s1 = swe core_fit_ready /\ n_mfi s1 = n_mfi core_fit_ready /\
    win s1 = win core_fit_ready /\ sel s1 = sel core_fit_ready /\
    mom s1 = mom core_fit_ready /\ gss s1 = gss core_fit_ready /\
    nres s1 = nres core_fit_ready /\ dsp s1 = dsp core_fit_ready /\
    dyn s1 = dyn core_fit_ready /\ series s1 = series core_fit_ready /\
    (dyn_nln (dyn core_fit_ready) = true ->
       anls_nln numerics_sample s1 = Some core_propagated /\
       dsp core_propagated = dsp core_fit_ready) /\
    (dyn_nln (dyn core_fit_ready) = false ->
       core_propagated = chng_dsp dsp_gsl s1 /\
       dsp core_propagated = Some dsp_gsl /\
       nres core_propagated = nres core_fit_ready /\
       series core_propagated = series core_fit_ready) /\
    nsel core_propagated = nsel s1.
Proof.
  assert (H : prop_nln_sel numerics_sample None core_fit_ready = Some core_propagated)
    by (vm_compute; reflexivity).
  split; [exact H|].
  exact (prop_nln_sel_rule numerics_sample None core_fit_ready core_propagated H).
Defined.

Lemma chng_nln_sel_count_sample :
  chng_nln_sel numerics_sample 0 0 (-1) core_fit_ready = Some core_nln_toggled /\
  exists c',
    cube_toggle
      match nln_sel (nsel core_fit_ready) with
      | Some c => c
      | None => tile3 false (n_alt (swe core_fit_ready)) (n_azm (swe core_fit_ready))
                      (n_vel (swe core_fit_ready))
      end 0 0 (-1) = Some c' /\
    nln_sel (nsel core_nln_toggled) = Some c' /\
    nln_n_sel (nsel core_nln_toggled) = count_true3 c' /\
    (count_true3 c'
     = S (count_true3
            match nln_sel (nsel core_fit_ready) with
            | Some c => c
            | None => tile3 false (n_alt (swe core_fit_ready))
                            (n_azm (swe core_fit_ready)) (n_vel (swe core_fit_ready))
            end)
     \/ S (count_true3 c')
        = count_true3
            match nln_sel (nsel core_fit_ready) with
            | Some c => c
            | None => tile3 false (n_alt (swe core_fit_ready))
                            (n_azm (swe core_fit_ready)) (n_vel (swe core_fit_ready))
            end).
Proof.
  assert (H : chng_nln_sel numerics_sample 0 0 (-1) core_fit_ready
              = Some core_nln_toggled) by (vm_compute; reflexivity).
  split; [exact H|].
  exact (chng_nln_sel_count numerics_sample 0 0 (-1) core_fit_ready
           core_nln_toggled H).
Defined.

Lemma anls_mom_run_display_sample :
  (mom_sel_azm (sel core_mom_only) = mom_sel_azm (sel core_selected) /\
   mom_sel_cur (sel core_mom_only) = Some sel_cur_selected /\
   anls_mom_norun core_mom_only = false /\
   dyn_gss (dyn core_mom_only) = false /\
   anls_mom numerics_sample core_mom_only = Some core_mom_only_run) /\
  dsp core_mom_only_run = Some dsp_mom /\
  nsel core_mom_only_run = nsel core_mom_only /\
  signals core_mom_only_run
  = signals core_mom_only
    ++ [janus_mesg m_begin o_mom; janus_mesg m_end o_mom; janus_chng_mom_res]
    ++ (match dsp core_mom_only with
        | Some dsp_mom => []
        | _ => [janus_chng_dsp]
        end).
Proof.
  assert (H0 : exists azm, mom_sel_azm (sel core_selected) = Some azm)
    by (vm_compute; eexists; reflexivity).
  destruct H0 as (azm & H0).
  assert (H1 : mom_sel_azm (sel core_mom_only) = mom_sel_azm (sel core_selected))
    by reflexivity.
  assert (H2 : mom_sel_cur (sel core_mom_only) = Some sel_cur_selected)
    by (vm_compute; reflexivity).
  assert (H3 : anls_mom_norun core_mom_only = false) by (vm_compute; reflexivity).
  assert (H4 : dyn_gss (dyn core_mom_only) = false) by (vm_compute; reflexivity).
  assert (H5 : anls_mom numerics_sample core_mom_only = Some core_mom_only_run)
    by (vm_compute; reflexivity).
  split; [exact (conj H1 (conj H2 (conj H3 (conj H4 H5))))|].
  pose proof (anls_mom_run_display numerics_sample core_mom_only core_mom_only_run
                azm sel_cur_selected (eq_trans H1 H0) H2 H3 H4 H5) as W.
  exact (conj (proj1 (proj2 W))
           (conj (proj1 (proj2 (proj2 (proj2 (proj2 (proj2 (proj2 W)))))))
                 (proj2 (proj2 (proj2 (proj2 (proj2 (proj2 (proj2 (proj2 (proj2 (proj2 W)))))))))))).
Defined.

Lemma find_n_vel_no_fill_sample :
  find_n_vel [200; 300; 400]%Q [200; 300; 400; 500]%Q
  = Nat.max 1 (Nat.min (length [200; 300; 400]%Q) (length [200; 300; 400; 500]%Q)).
Proof.
  apply (find_n_vel_no_fill [200; 300; 400]%Q [200; 300; 400; 500]%Q).
  intros j H1 H2 H3. destruct j as [|[|[|j]]]; simpl in H2; try lia;
    split; discriminate.
Defined.

Lemma auto_mom_sel_azm_count_sample :
  (auto_mom_sel_azm arith_exact (core_loaded 0 raw_top) = Some core_azm_selected /\
   (0 <= mom_win_azm (win (core_loaded 0 raw_top))
    <= Z.of_nat (n_azm (swe (core_loaded 0 raw_top))))%Z) /\
  exists azm,
    mom_sel_azm (sel core_azm_selected) = Some azm /\
    shape2 (n_alt (swe (core_loaded 0 raw_top))) (n_azm (swe (core_loaded 0 raw_top)))
           azm /\
    (forall t, t < n_alt (swe (core_loaded 0 raw_top)) ->
       count_true (nth t azm [])
       = Z.to_nat (mom_win_azm (win (core_loaded 0 raw_top)))) /\
    mom_n_sel_azm (sel core_azm_selected)
    = n_alt (swe (core_loaded 0 raw_top))
      * Z.to_nat (mom_win_azm (win (core_loaded 0 raw_top))).
Proof.
  assert (H : auto_mom_sel_azm arith_exact (core_loaded 0 raw_top) = Some core_azm_selected)
    by (vm_compute; reflexivity).
  assert (Hw : (0 <= mom_win_azm (win (core_loaded 0 raw_top))
                <= Z.of_nat (n_azm (swe (core_loaded 0 raw_top))))%Z)
    by (vm_compute; split; discriminate).
  split; [exact (conj H Hw)|].
  exact (auto_mom_sel_azm_count arith_exact (core_loaded 0 raw_top) core_azm_selected H Hw).
Defined.

Lemma auto_mom_sel_azm_window_sample :
  (auto_mom_sel_azm arith_exact (core_loaded 0 raw_top) = Some core_azm_selected /\
   (0 <= mom_win_azm (win (core_loaded 0 raw_top))
    <= Z.of_nat (n_azm (swe (core_loaded 0 raw_top))))%Z) /\
  exists azm,
    mom_sel_azm (sel core_azm_selected) = Some azm /\
    forall t, t < n_alt (swe (core_loaded 0 raw_top)) ->
      exists p0,
        p0 < n_azm (swe (core_loaded 0 raw_top)) /\
        (forall p, p < n_azm (swe (core_loaded 0 raw_top)) ->
           (mm_cur_at arith_exact (swe (core_loaded 0 raw_top))
                      (mom_win_azm (win (core_loaded 0 raw_top))) t p
            <= mm_cur_at arith_exact (swe (core_loaded 0 raw_top))
                         (mom_win_azm (win (core_loaded 0 raw_top))) t p0)%Q) /\
        (forall p, p < p0 ->
           (mm_cur_at arith_exact (swe (core_loaded 0 raw_top))
                      (mom_win_azm (win (core_loaded 0 raw_top))) t p
            < mm_cur_at arith_exact (swe (core_loaded 0 raw_top))
                        (mom_win_azm (win (core_loaded 0 raw_top))) t p0)%Q) /\
        (forall q, q < n_azm (swe (core_loaded 0 raw_top)) ->
           (grid_get false azm t q = true
            <-> exists k, k < Z.to_nat (mom_win_azm (win (core_loaded 0 raw_top)))
                          /\ q = (p0 + k) mod n_azm (swe (core_loaded 0 raw_top)))).
Proof.
  assert (H : auto_mom_sel_azm arith_exact (core_loaded 0 raw_top) = Some core_azm_selected)
    by (vm_compute; reflexivity).
  assert (Hw : (0 <= mom_win_azm (win (core_loaded 0 raw_top))
                <= Z.of_nat (n_azm (swe (core_loaded 0 raw_top))))%Z)
    by (vm_compute; split; discriminate).
  split; [exact (conj H Hw)|].
  exact (auto_mom_sel_azm_window arith_exact (core_loaded 0 raw_top) core_azm_selected H Hw).
Defined.

Lemma auto_mom_sel_widths_sample :
  auto_mom_sel_body arith_exact w_none w_none (core_loaded 0 raw_top) = Some core_selected /\
  (0 <= mom_win_azm (win core_selected)
   <= Z.of_nat (n_azm (swe (core_loaded 0 raw_top))))%Z /\
  (0 <= mom_win_cur (win core_selected)
   <= Z.of_nat (n_vel (swe (core_loaded 0 raw_top))))%Z.
Proof.
  assert (H : auto_mom_sel_body arith_exact w_none w_none (core_loaded 0 raw_top)
              = Some core_selected) by (vm_compute; reflexivity).
  split; [exact H|].
  pose proof (auto_mom_sel_widths arith_exact w_none w_none (core_loaded 0 raw_top)
                core_selected H) as W.
  exact (conj (proj1 W) (proj1 (proj2 W))).
Defined.

Lemma vldt_mom_sel_counts_sample :
  vldt_mom_sel core_stale = Some core_validated /\
  exists azm c,
    mom_sel_azm (sel core_validated) = Some azm /\
    mom_sel_cur (sel core_stale) = Some c /\ mom_sel_cur (sel core_validated) = Some c /\
    shape2 (n_alt (swe core_stale)) (n_azm (swe core_stale)) azm /\
    mom_n_sel_azm (sel core_validated) = count_true2 azm /\
    (mom_n_sel_azm (sel core_validated) = 0
     \/ mom_min_sel_azm (sel core_stale) <= mom_n_sel_azm (sel core_validated)) /\
    (mom_n_sel_azm (sel core_validated) <> 0 ->
     forall t p, t < n_alt (swe core_stale) -> p < n_azm (swe core_stale) ->
       grid_get false azm t p
       = (mom_min_sel_cur (sel core_stale) <=? count_true (cube_row c t p))).
Proof.
  assert (H : vldt_mom_sel core_stale = Some core_validated)
    by (vm_compute; reflexivity).
  split; [exact H|].
  exact (vldt_mom_sel_counts core_stale core_validated H).
Defined.

Lemma read_prm_make_nln_gss_sample :
  length [(-400)%Q; 0%Q; 0%Q] = 3 /\
  read_prm (map pop_flags pops_sample)
           (make_nln_gss_prm [(-400)%Q; 0%Q; 0%Q] pops_sample) 3
  = Some (map pop_val pops_sample) /\
  firstn 3 (make_nln_gss_prm [(-400)%Q; 0%Q; 0%Q] pops_sample)
  = [(-400)%Q; 0%Q; 0%Q].
Proof.
  split; [reflexivity|].
  exact (read_prm_make_nln_gss [(-400)%Q; 0%Q; 0%Q] pops_sample eq_refl).
Defined.

Lemma chng_nln_set_keeps_ok_sample :
  (nln_set_ok 5 drift_reset nln_set_reset /\
   chng_nln_set 5 drift_reset 1 (p_gss_n (Some f_nan)) nln_set_reset
   = Some nln_set_nan) /\
  nln_set_ok 5 drift_reset nln_set_nan /\
  nth 1 (nln_set_gss_n nln_set_nan) None = Some f_nan /\
  nth 1 (nln_set_gss_vld nln_set_nan) false = true.
Proof.
  assert (H : chng_nln_set 5 drift_reset 1 (p_gss_n (Some f_nan)) nln_set_reset
              = Some nln_set_nan) by reflexivity.
  pose proof (nln_set_reset_ok drift_reset eq_refl) as K.
  split; [exact (conj K H)|].
  split; [|split; reflexivity].
  exact (chng_nln_set_keeps_ok 5 drift_reset 1 (p_gss_n (Some f_nan))
           nln_set_reset nln_set_nan K H).
Defined.

Lemma chng_nln_set_others_sample :
  (chng_nln_set 5 drift_reset 1 (p_gss_n (Some (f_fin (-1)))) nln_set_reset
   = Some nln_set_sample /\ 0 <> Z.to_nat 1) /\
  nth_error (nln_set_gss_n nln_set_sample) 0 = nth_error (nln_set_gss_n nln_set_reset) 0.
Proof.
  assert (H : chng_nln_set 5 drift_reset 1 (p_gss_n (Some (f_fin (-1)))) nln_set_reset
              = Some nln_set_sample) by reflexivity.
  assert (Hj : 0 <> Z.to_nat 1) by discriminate.
  split; [exact (conj H Hj)|].
  exact (proj1 (chng_nln_set_others 5 drift_reset 1 (p_gss_n (Some (f_fin (-1))))
                  nln_set_reset nln_set_sample 0 H Hj)).
Defined.

Lemma calc_arr_clp_spec_sample :
  (f_leb (f_fin 0) (f_fin 90) = true /\ f_fin 120 <> f_nan) /\
  calc_arr_clp f_nan (f_fin 0) (f_fin 90) = f_nan /\
  f_leb (f_fin 0) (calc_arr_clp (f_fin 120) (f_fin 0) (f_fin 90)) = true /\
  f_leb (calc_arr_clp (f_fin 120) (f_fin 0) (f_fin 90)) (f_fin 90) = true /\
  calc_arr_clp (f_fin 120) (f_fin 0) (f_fin 90) = f_fin 90.
Proof.
  assert (H : f_leb (f_fin 0) (f_fin 90) = true) by reflexivity.
  assert (Ha : f_fin 120 <> f_nan) by discriminate.
  split; [exact (conj H Ha)|].
  pose proof (calc_arr_clp_spec (f_fin 120) (f_fin 0) (f_fin 90) H) as W.
  split; [exact (proj1 W)|].
  pose proof (proj2 W Ha) as W2.
  split; [exact (proj1 W2)|]. split; [exact (proj1 (proj2 W2))|].
  exact (proj2 (proj2 (proj2 (proj2 W2))) eq_refl).
Defined.



(** ** The average magnetic field *)


